(** * Verification of the retrieval-augmented chat pipeline

    A shallow embedding of the TypeScript sources of the RAG pipeline
    (text cleaning, chunking, embedding batches, query rewriting, context
    retrieval and document upload) together with the properties the
    specification states about them.

    Conventions.
    - A JavaScript string is its sequence of UTF-16 code units ([jsstring]);
      [.length] is the length of that sequence.
    - A call that may throw returns an [outcome]; [try_catch] is the
      [try { } catch { }] statement.
    - Remote collaborators (database, embedding endpoint, chat-completion
      endpoint, the text splitter) are parameters of the definitions that call
      them.
    - Similarity scores are IEEE doubles in the program and rationals here;
      the program compares them and prints a rounded percentage, whose
      product is taken on doubles ([double_mul]). *)

From Stdlib Require Import NArith ZArith QArith Qround DecimalString Ascii String Sorted.
From stdpp Require Import base list sets strings.
From Equations Require Import Equations.
Close Scope Q_scope.

(** ** JavaScript strings *)

Module JS.

Definition jsstring := list N.

(** An ASCII literal as a JavaScript string. *)
Definition lit (s : string) : jsstring := N_of_ascii <$> list_ascii_of_string s.

Definition code_in (lo hi c : N) : bool := ((lo <=? c) && (c <=? hi))%N.

(** ECMAScript WhiteSpace and LineTerminator code units: what [\s] matches
    and what [String.prototype.trim] strips. *)
Definition is_space (c : N) : bool :=
  code_in 0x09 0x0D c || (c =? 0x20)%N || (c =? 0xA0)%N || (c =? 0x1680)%N
  || code_in 0x2000 0x200A c || (c =? 0x2028)%N || (c =? 0x2029)%N
  || (c =? 0x202F)%N || (c =? 0x205F)%N || (c =? 0x3000)%N || (c =? 0xFEFF)%N.

Fixpoint dropWhile (p : N → bool) (s : jsstring) : jsstring :=
  match s with
  | [] => []
  | c :: s' => if p c then dropWhile p s' else s
  end.

(** Number of leading code units of [s] that satisfy [p]. *)
Fixpoint span_len (p : N → bool) (s : jsstring) : nat :=
  match s with
  | [] => 0
  | c :: s' => if p c then S (span_len p s') else 0
  end.

(** [s.trim()] *)
Definition trim (s : jsstring) : jsstring :=
  reverse (dropWhile is_space (reverse (dropWhile is_space s))).

(** [s.split("\n")]: always at least one piece. *)
Fixpoint split_on (sep : N) (s : jsstring) : list jsstring :=
  match s with
  | [] => [[]]
  | c :: s' =>
      if (c =? sep)%N then [] :: split_on sep s'
      else match split_on sep s' with
           | [] => [[c]]
           | l :: ls => (c :: l) :: ls
           end
  end.

(** [pieces.join(sep)] *)
Fixpoint join (sep : jsstring) (pieces : list jsstring) : jsstring :=
  match pieces with
  | [] => []
  | [p] => p
  | p :: ps => p ++ sep ++ join sep ps
  end.

Fixpoint is_prefix (p s : jsstring) : bool :=
  match p, s with
  | [], _ => true
  | _ :: _, [] => false
  | a :: p', b :: s' => (a =? b)%N && is_prefix p' s'
  end.

(** First position [>= pos] at which [pat] occurs in [s], scanning [s] from
    offset [pos]; [s] is the suffix of the text that starts at [pos]. *)
Fixpoint find_from (pat s : jsstring) (pos : nat) : option nat :=
  if is_prefix pat s then Some pos
  else match s with
       | [] => None
       | _ :: s' => find_from pat s' (S pos)
       end.

(** [text.indexOf(pat, from)]: the start position is clamped to
    [0 .. text.length]; the result is [-1] when there is no match. *)
Definition indexOf (text pat : jsstring) (from : Z) : Z :=
  let start := Z.to_nat (Z.max 0 from) `min` length text in
  match find_from pat (drop start text) start with
  | Some i => Z.of_nat i
  | None => (-1)%Z
  end.

(** *** Global regular-expression replacement

    A [matcher] gives the length of the match of a pattern anchored at the
    head of its argument, if there is one.  [replace_all m f s] is
    [s.replace(/pattern/g, f)]: scan from the left, replace the match at the
    first position that has one, resume right after it.  None of the
    patterns used by the program matches the empty string. *)
Definition matcher := jsstring → option nat.

Fixpoint replace_from (m : matcher) (f : jsstring → jsstring)
    (skip : nat) (s : jsstring) : jsstring :=
  match s with
  | [] => []
  | c :: s' =>
      match skip with
      | S k => replace_from m f k s'
      | O =>
          match m s with
          | Some (S n) => f (take (S n) s) ++ replace_from m f n s'
          | _ => c :: replace_from m f 0 s'
          end
      end
  end.

Definition replace_all (m : matcher) (f : jsstring → jsstring) (s : jsstring)
  : jsstring := replace_from m f 0 s.

(** [/[class]{k,}/]: a greedy run of at least [k] code units of the class. *)
Definition run_of (p : N → bool) (k : nat) : matcher :=
  fun s => let n := span_len p s in if (k <=? n)%nat then Some n else None.

(** [/[class]/]: one code unit of the class. *)
Definition one_of (p : N → bool) : matcher :=
  fun s => match s with
           | c :: _ => if p c then Some 1 else None
           | [] => None
           end.

(** [/\n\s*\n\s*\n/]: anchored at a line feed; both [\s*] are greedy, so
    the match runs to the last line feed of the white-space run that starts
    here, provided the run holds two more line feeds. *)
Definition blank_lines : matcher :=
  fun s =>
    match s with
    | c :: s' =>
        if (c =? 0x0A)%N then
          let w := take (span_len is_space s') s' in
          let feeds := length (filter (λ d, d = 0x0A%N) w) in
          let tail := span_len (λ d, negb (d =? 0x0A)%N) (reverse w) in
          if (2 <=? feeds)%nat then Some (S (length w - tail)) else None
        else None
    | [] => None
    end.

(** *** Doubles

    A number of the program is an IEEE 754 double.  [to_double q] is the
    double nearest to the rational [q], the one with an even significand on
    a tie: the value of a decimal literal, and of an arithmetic operation
    whose exact result is [q].  The range of the exponent is not modelled
    (no overflow to [Infinity], no subnormal numbers); the scores and
    percentages of the program are far from both ends. *)

(** The integer nearest to [q], the even one on a tie. *)
Definition round_half_even (q : Q) : Z :=
  let n := Qfloor q in
  match (q - inject_Z n ?= 1 # 2)%Q with
  | Lt => n
  | Gt => (n + 1)%Z
  | Eq => if Z.even n then n else (n + 1)%Z
  end.

(** For a positive [q], the exponent [e] with [2^e <= q < 2^(e+1)]. *)
Definition binade (q : Q) : Z :=
  let e := (Z.log2 (Qnum q) - Z.log2 (Zpos (Qden q)))%Z in
  if Qle_bool (2 ^ e) q then e else (e - 1)%Z.

(** Rounding to 53 significant bits. *)
Definition to_double (q : Q) : Q :=
  let q := Qred q in
  let magnitude := if Qle_bool 0 q then q else (- q)%Q in
  if Qeq_bool magnitude 0 then 0%Q
  else
    let ulp := (2 ^ (binade magnitude - 52))%Q in
    let nearest := (inject_Z (round_half_even (magnitude / ulp)) * ulp)%Q in
    Qred (if Qle_bool 0 q then nearest else - nearest).

(** [x * y] on the doubles nearest to [x] and [y]. *)
Definition double_mul (x y : Q) : Q := to_double (to_double x * to_double y).

End JS.

Import JS.

(** ** Text cleaning ([lib/utils/text-cleaning.ts]) *)

Module TextCleaning.

Definition is_blank (c : N) : bool := (c =? 0x20)%N || (c =? 0x09)%N.
Definition is_newline (c : N) : bool := (c =? 0x0A)%N.

(** [[\x00-\x08\x0B-\x0C\x0E-\x1F\x7F]] *)
Definition is_control (c : N) : bool :=
  code_in 0x00 0x08 c || code_in 0x0B 0x0C c || code_in 0x0E 0x1F c
  || (c =? 0x7F)%N.

(** [[\u200B-\u200D\uFEFF]] *)
Definition is_zero_width (c : N) : bool :=
  code_in 0x200B 0x200D c || (c =? 0xFEFF)%N.

(** The code units of the character class of step 7, as the source file
    holds them. *)
Definition decorative_units : list N :=
  [0x432; 0x496; 0xBB; 0x4B3; 0x2026; 0x4B6; 0x2014; 0x4AE; 0x4E2; 0x4B8;
   0x2013; 0x456; 0x406; 0x4AA; 0x458; 0xA0; 0x40E]%N.

Definition is_decorative (c : N) : bool := bool_decide (c ∈ decorative_units).

Definition is_dot (c : N) : bool := (c =? 0x2E)%N.
Definition is_dash (c : N) : bool := (c =? 0x2D)%N.
Definition is_underscore (c : N) : bool := (c =? 0x5F)%N.
Definition is_double_quote (c : N) : bool := (c =? 0x22)%N.
Definition is_single_quote (c : N) : bool := (c =? 0x27)%N.
Definition is_mark (c : N) : bool := (c =? 0x3F)%N || (c =? 0x21)%N.

Definition const (r : jsstring) : jsstring → jsstring := λ _, r.

Definition cleanTextForEmbedding (text : jsstring) : jsstring :=
  if bool_decide (length text = 0) then []
  else
    let cleaned := text in
    (* 1. white space *)
    let cleaned := replace_all (run_of is_blank 1) (const (lit " ")) cleaned in
    let cleaned := replace_all (run_of is_newline 3) (const [0x0A; 0x0A]%N) cleaned in
    let cleaned := replace_all (run_of is_blank 1) (const (lit " ")) cleaned in
    (* 2. control characters *)
    let cleaned := replace_all (one_of is_control) (const []) cleaned in
    (* 3. zero-width characters *)
    let cleaned := replace_all (one_of is_zero_width) (const []) cleaned in
    (* 4. excessive punctuation *)
    let cleaned := replace_all (run_of is_dot 4) (const (lit "...")) cleaned in
    let cleaned := replace_all (run_of is_dash 3) (const (lit "--")) cleaned in
    let cleaned := replace_all (run_of is_underscore 3) (const (lit "__")) cleaned in
    (* 7. decorative symbols *)
    let cleaned := replace_all (one_of is_decorative) (const []) cleaned in
    (* 8. quotes *)
    let cleaned := replace_all (one_of is_double_quote) (const [0x22]%N) cleaned in
    let cleaned := replace_all (one_of is_single_quote) (const (lit "'")) cleaned in
    (* 9. trim every line *)
    let cleaned := join [0x0A]%N (trim <$> split_on 0x0A cleaned) in
    (* 10. empty lines *)
    let cleaned := replace_all blank_lines (const [0x0A; 0x0A]%N) cleaned in
    (* 11. final trim *)
    trim cleaned.

Definition cleanQueryText (text : jsstring) : jsstring :=
  if bool_decide (length text = 0) then []
  else
    let cleaned := cleanTextForEmbedding text in
    replace_all (run_of is_mark 3) (take 2) cleaned.

End TextCleaning.

(** ** Exceptions *)

Module Effects.

(** A thrown JavaScript value: an [Error] object with its message, or any
    other value. *)
Inductive exn :=
| ErrorObj (message : jsstring)
| NonError.

(** The result of running code that may throw. *)
Inductive outcome (A : Type) :=
| Returned (a : A)
| Thrown (e : exn).
Arguments Returned {A} a.
Arguments Thrown {A} e.

#[global] Instance outcome_ret : MRet outcome := λ A a, Returned a.
#[global] Instance outcome_bind : MBind outcome := λ A B k m,
  match m with
  | Returned a => k a
  | Thrown e => Thrown e
  end.
#[global] Instance outcome_fmap : FMap outcome := λ A B f m,
  match m with
  | Returned a => Returned (f a)
  | Thrown e => Thrown e
  end.

(** [throw new Error(msg)] *)
Definition throw_error {A} (msg : jsstring) : outcome A := Thrown (ErrorObj msg).

(** [try { body } catch (error) { handler }] *)
Definition try_catch {A} (body : outcome A) (handler : exn → outcome A) : outcome A :=
  match body with
  | Returned a => Returned a
  | Thrown e => handler e
  end.

(** [error instanceof Error ? error.message : fallback] *)
Definition message_or (fallback : jsstring) (e : exn) : jsstring :=
  match e with
  | ErrorObj m => m
  | NonError => fallback
  end.

(** A JavaScript value used as a condition: a missing or empty string is
    falsy. *)
Definition truthy (s : option jsstring) : bool :=
  match s with
  | Some (_ :: _) => true
  | _ => false
  end.

(** Decimal digits of a non-negative integer, as template literals print it. *)
Definition show_N (n : N) : jsstring := lit (NilZero.string_of_uint (N.to_uint n)).
Definition show_nat (n : nat) : jsstring := show_N (N.of_nat n).

End Effects.

Import Effects.

(** ** Chunking ([lib/utils/text-chunking.ts]) *)

Module TextChunking.

Record TextChunk := mkTextChunk {
  text : jsstring;
  startIndex : Z;
  endIndex : Z;
}.

Record ChunkOptions := mkChunkOptions {
  maxChunkSize : Z;
  overlap : Z;
}.

Definition defaultOptions : ChunkOptions :=
  {| maxChunkSize := 1000; overlap := 200 |}.

(** [splitter.splitText(text)] of the third-party recursive splitter,
    configured with [chunkSize] and [chunkOverlap]. *)
Definition splitter := ChunkOptions → jsstring → outcome (list jsstring).

(** One iteration of the [for (const chunkText of textChunks)] loop; the
    loop state is the array [chunks] and the cursor [currentIndex]. *)
Definition chunk_step (source : jsstring) (st : list TextChunk * Z)
    (chunkText : jsstring) : list TextChunk * Z :=
  let '(chunks, currentIndex) := st in
  let trimmedText := trim chunkText in
  if bool_decide (length trimmedText = 0) then st
  else
    let startIndex := indexOf source trimmedText currentIndex in
    if (0 <=? startIndex)%Z then
      let endIndex := (startIndex + Z.of_nat (length trimmedText))%Z in
      (chunks ++ [mkTextChunk trimmedText startIndex endIndex], endIndex)
    else
      (chunks ++ [mkTextChunk trimmedText currentIndex
                    (currentIndex + Z.of_nat (length trimmedText))%Z],
       (currentIndex + Z.of_nat (length trimmedText))%Z).

Definition chunkText (splitText : splitter) (source : jsstring)
    (options : ChunkOptions) : outcome (list TextChunk) :=
  textChunks ← splitText options source;
  mret (foldl (chunk_step source) ([], 0%Z) textChunks).1.

(** Chunks lie one after the other, all before the cursor. *)
Definition laid_out (st : list TextChunk * Z) : Prop :=
  (0 ≤ st.2)%Z
  ∧ Forall (λ c, (0 ≤ startIndex c < endIndex c)%Z ∧ (endIndex c ≤ st.2)%Z) st.1
  ∧ ∀ i j a b, i < j → st.1 !! i = Some a → st.1 !! j = Some b →
      (endIndex a ≤ startIndex b)%Z.

End TextChunking.

(** ** Embedding client ([lib/ai/embeddings.ts]) *)

Module Embeddings.

Section Client.

(** An embedding vector ([number[]]); the client never looks inside one. *)
Context {vector : Type}.

(** The [input] field of a request: one text or an array of texts. *)
Inductive EmbeddingInput :=
| InputText (t : jsstring)
| InputBatch (ts : list jsstring).

Record EmbeddingRequest := mkEmbeddingRequest {
  authorization : jsstring;
  model : jsstring;
  input : EmbeddingInput;
  dimensions : N;
}.

Record EmbeddingItem := mkEmbeddingItem { embedding : vector }.

(** What [fetch] resolves to.  [json] is [await response.json()]; its
    [data] field is [None] when it is missing or not an array. *)
Record EmbeddingResponse := mkEmbeddingResponse {
  ok : bool;
  status : N;
  statusText : jsstring;
  body : outcome jsstring;
  json : outcome (option (list EmbeddingItem));
}.

(** The remote endpoint: [fetch(url, request)], which may reject. *)
Definition endpoint := EmbeddingRequest → outcome EmbeddingResponse.

Definition bearer (apiKey : jsstring) : jsstring := lit "Bearer " ++ apiKey.

Definition api_error (response : EmbeddingResponse) (errorText : jsstring) : jsstring :=
  lit "ZhipuAI API error: " ++ show_N (status response) ++ lit " "
  ++ statusText response ++ lit " - " ++ errorText.

Definition key_missing : jsstring :=
  lit "ZHIPUAI_API_KEY environment variable is not set".
Definition invalid_response : jsstring := lit "Invalid response from ZhipuAI API".

Definition single_request (apiKey text : jsstring) : EmbeddingRequest :=
  {| authorization := bearer apiKey; model := lit "embedding-3";
     input := InputText text; dimensions := 1024 |}.

Definition batch_request (apiKey : jsstring) (batch : list jsstring) : EmbeddingRequest :=
  {| authorization := bearer apiKey; model := lit "embedding-3";
     input := InputBatch batch; dimensions := 1024 |}.

(** [generateEmbedding(text)]: the vector of the first item of the answer. *)
Definition generateEmbedding (env_key : option jsstring) (fetch : endpoint)
    (text : jsstring) : outcome vector :=
  match env_key with
  | Some ((_ :: _) as apiKey) =>
      response ← fetch (single_request apiKey text);
      if negb (ok response) then
        errorText ← body response;
        throw_error (api_error response errorText)
      else
        data ← json response;
        match data with
        | Some (item :: _) => mret (embedding item)
        | _ => throw_error invalid_response
        end
  | _ => throw_error key_missing
  end.

Definition BATCH_SIZE : nat := 64.

(** The [for (let i = 0; i < texts.length; i += BATCH_SIZE)] loop.  Besides
    the result it returns the requests issued so far, in order. *)
Equations? embed_loop (apiKey : jsstring) (fetch : endpoint) (texts : list jsstring)
    (i : nat) (allEmbeddings : list vector) (sent : list EmbeddingRequest)
    : list EmbeddingRequest * outcome (list vector)
    by wf (length texts - i) lt :=
  embed_loop apiKey fetch texts i allEmbeddings sent with decide (i < length texts) := {
    | right _ => (sent, Returned allEmbeddings)
    | left _ =>
        let batch := take BATCH_SIZE (drop i texts) in
        let request := batch_request apiKey batch in
        match fetch request with
        | Thrown e => (sent ++ [request], Thrown e)
        | Returned response =>
            if negb (ok response) then
              (sent ++ [request],
               errorText ← body response;
               throw_error (api_error response errorText))
            else
              match json response with
              | Thrown e => (sent ++ [request], Thrown e)
              | Returned None => (sent ++ [request], throw_error invalid_response)
              | Returned (Some items) =>
                  let batchEmbeddings := embedding <$> items in
                  embed_loop apiKey fetch texts (i + BATCH_SIZE)
                    (allEmbeddings ++ batchEmbeddings) (sent ++ [request])
              end
        end
  }.
Proof. unfold BATCH_SIZE. lia. Qed.

(** [generateEmbeddings(texts)], with the log of the upstream calls. *)
Definition generateEmbeddings_log (env_key : option jsstring) (fetch : endpoint)
    (texts : list jsstring) : list EmbeddingRequest * outcome (list vector) :=
  match env_key with
  | Some ((_ :: _) as apiKey) => embed_loop apiKey fetch texts 0 [] []
  | _ => ([], throw_error key_missing)
  end.

Definition generateEmbeddings (env_key : option jsstring) (fetch : endpoint)
    (texts : list jsstring) : outcome (list vector) :=
  (generateEmbeddings_log env_key fetch texts).2.

(** The partition of the specification: consecutive windows of [n] items,
    the last one possibly shorter. *)
Fixpoint windows_fuel {A} (fuel n : nat) (l : list A) : list (list A) :=
  match fuel, l with
  | _, [] => []
  | O, _ => []
  | S fuel', _ => take n l :: windows_fuel fuel' n (drop n l)
  end.

Definition windows {A} (n : nat) (l : list A) : list (list A) :=
  windows_fuel (length l) n l.

(** The endpoint answers every batch with one item per text, in request
    order: item [k] carries the vector of text [k]. *)
Definition answers_in_order (fetch : endpoint) (E : jsstring → vector) : Prop :=
  ∀ request batch, input request = InputBatch batch →
    ∃ response, fetch request = Returned response
      ∧ ok response = true
      ∧ json response = Returned (Some ((λ t, mkEmbeddingItem (E t)) <$> batch)).

End Client.

Arguments EmbeddingRequest : clear implicits.
Arguments EmbeddingItem : clear implicits.
Arguments EmbeddingResponse : clear implicits.
Arguments endpoint : clear implicits.

End Embeddings.

(** ** Chat messages ([lib/types]) *)

Module Chat.

Inductive Role := user | assistant | system | other_role (name : jsstring).

#[global] Instance Role_eq_dec : EqDecision Role.
Proof. solve_decision. Defined.

Inductive Part :=
| TextPart (text : jsstring)
| OtherPart (kind : jsstring).

Record ChatMessage := mkChatMessage {
  id : jsstring;
  role : Role;
  parts : list Part;
}.

Definition show_role (r : Role) : jsstring :=
  match r with
  | user => lit "user"
  | assistant => lit "assistant"
  | system => lit "system"
  | other_role name => name
  end.

(** JavaScript array helpers.  [slice] follows
    [Array.prototype.slice(start, end)]: a negative bound counts from the
    end, and both are clamped to the array. *)
Definition clamp_index (len : nat) (i : Z) : nat :=
  if (i <? 0)%Z then Z.to_nat (Z.max 0 (Z.of_nat len + i)) else Z.to_nat i `min` len.

Definition slice {A} (l : list A) (start stop : Z) : list A :=
  let from := clamp_index (length l) start in
  let to := clamp_index (length l) stop in
  take (to - from) (drop from l).

Definition slice_from {A} (l : list A) (start : Z) : list A :=
  drop (clamp_index (length l) start) l.

(** [l[i]]: [undefined] ([None]) outside the array. *)
Definition at_index {A} (l : list (option A)) (i : Z) : option A :=
  if (i <? 0)%Z then None else mjoin (l !! Z.to_nat i).

End Chat.

Import Chat.

(** ** Query rewriter ([app/(chat)/api/chat/query-rewriter.ts]) *)

Module QueryRewriter.

Record QueryRewriterResult := mkResult {
  originalQuery : jsstring;
  rewrittenQuery : jsstring;
  success : bool;
  error : option jsstring;
}.

Record HistoryEntry := mkEntry { entry_role : Role; content : jsstring }.

Record PromptMessage := mkPrompt { prompt_role : Role; prompt_content : jsstring }.

Record ChatRequest := mkChatRequest {
  authorization : jsstring;
  model : jsstring;
  messages : list PromptMessage;
  temperature : Q;
  max_tokens : N;
}.

(** [choices[0].message.content]; [None] when [message] or [content] is
    missing, in which case calling [.trim()] on it throws a [TypeError]. *)
Record Choice := mkChoice { message_content : option jsstring }.

(** The parsed body of the completion: [null], or an object whose [choices]
    field is [None] when it is missing or not an array. *)
Inductive ChatJson :=
| JsonNull
| JsonObject (choices : option (list Choice)).

Record ChatResponse := mkChatResponse {
  ok : bool;
  status : N;
  statusText : jsstring;
  body : outcome jsstring;
  json : outcome ChatJson;
}.

Definition endpoint := ChatRequest → outcome ChatResponse.

Section Rewriter.

(** [getTextFromMessage] of [lib/utils]: the flattened text of a message. *)
Variable getTextFromMessage : ChatMessage → outcome jsstring.

(** The fixed texts of the prompt templates. *)
Variable systemPrompt : jsstring.
Variable historyHeader queryHeader : jsstring.
Variable instructionWithHistory instructionAlone : jsstring.

(** The message of the [TypeError] the JavaScript engine throws while the
    parsed body [data] is read: at [data.choices] when [data] is [null], at
    [data.choices[0].message.content.trim()] when the message or its content
    is missing.  The text is the engine's (V8 reports the value and the
    property it could not read); the program only passes it on. *)
Variable typeErrorMessage : ChatJson → jsstring.

Definition type_error (data : ChatJson) : exn := ErrorObj (typeErrorMessage data).

Definition key_missing : jsstring := lit "ZHIPUAI_API_KEY not configured".
Definition invalid_response : jsstring := lit "Invalid response from ZhipuAI API".
Definition empty_rewrite : jsstring := lit "Empty rewritten query".
Definition too_long : jsstring := lit "Rewritten query too long".
Definition unknown_error : jsstring := lit "Unknown error".

Definition api_error (response : ChatResponse) : jsstring :=
  lit "ZhipuAI API error: " ++ show_N (status response) ++ lit " "
  ++ statusText response.

(** The fallback every failure path returns. *)
Definition fallback (currentQuery : jsstring) (err : jsstring) : QueryRewriterResult :=
  {| originalQuery := currentQuery; rewrittenQuery := currentQuery;
     success := false; error := Some err |}.

Definition is_dialogue (msg : ChatMessage) : bool :=
  bool_decide (role msg = user) || bool_decide (role msg = assistant).

Fixpoint history_entries (msgs : list ChatMessage) : outcome (list HistoryEntry) :=
  match msgs with
  | [] => mret []
  | msg :: rest =>
      text ← getTextFromMessage msg;
      entries ← history_entries rest;
      mret (mkEntry (role msg) text :: entries)
  end.

(** [conversationHistory.slice(-maxHistoryMessages * 2).filter(..).map(..).filter(..)] *)
Definition recentHistory (conversationHistory : list ChatMessage)
    (maxHistoryMessages : Z) : outcome (list HistoryEntry) :=
  let recent := slice_from conversationHistory (- maxHistoryMessages * 2)%Z in
  entries ← history_entries (List.filter is_dialogue recent);
  mret (List.filter (λ e, negb (bool_decide (length (trim (content e)) = 0))) entries).

Definition history_line (i : nat) (e : HistoryEntry) : jsstring :=
  show_nat (i + 1) ++ lit ". [" ++ show_role (entry_role e) ++ lit "]: " ++ content e.

Definition userPrompt (history : list HistoryEntry) (currentQuery : jsstring) : jsstring :=
  if bool_decide (0 < length history) then
    historyHeader ++ [0x0A]%N ++ join [0x0A]%N (imap history_line history)
    ++ [0x0A; 0x0A]%N ++ queryHeader ++ [0x0A]%N ++ currentQuery
    ++ [0x0A; 0x0A]%N ++ instructionWithHistory
  else
    queryHeader ++ [0x0A]%N ++ currentQuery ++ [0x0A; 0x0A]%N ++ instructionAlone.

Definition rewrite_request (apiKey : jsstring) (history : list HistoryEntry)
    (currentQuery : jsstring) : ChatRequest :=
  {| authorization := lit "Bearer " ++ apiKey;
     model := lit "GLM-4-Flash";
     messages := [mkPrompt system systemPrompt;
                  mkPrompt user (userPrompt history currentQuery)];
     temperature := (3 # 10)%Q;
     max_tokens := 200 |}.

(** The statements inside [try { ... }]. *)
Definition rewrite_body (apiKey : jsstring) (fetch : endpoint)
    (currentQuery : jsstring) (conversationHistory : list ChatMessage)
    (maxHistoryMessages : Z) : outcome QueryRewriterResult :=
  history ← recentHistory conversationHistory maxHistoryMessages;
  response ← fetch (rewrite_request apiKey history currentQuery);
  if negb (ok response) then
    errorText ← body response;
    throw_error (api_error response)
  else
    data ← json response;
    match data with
    | JsonNull => Thrown (type_error data)
    | JsonObject None | JsonObject (Some []) => throw_error invalid_response
    | JsonObject (Some (first :: _)) =>
        match message_content first with
        | None => Thrown (type_error data)
        | Some raw =>
            let rewritten := trim raw in
            if bool_decide (length rewritten = 0) then
              mret (fallback currentQuery empty_rewrite)
            else if bool_decide (length currentQuery * 5 < length rewritten) then
              mret (fallback currentQuery too_long)
            else
              mret {| originalQuery := currentQuery; rewrittenQuery := rewritten;
                      success := true; error := None |}
        end
    end.

(** [rewriteQuery({ currentQuery, conversationHistory, maxHistoryMessages })] *)
Definition rewriteQuery (env_key : option jsstring) (fetch : endpoint)
    (currentQuery : jsstring) (conversationHistory : list ChatMessage)
    (maxHistoryMessages : Z) : outcome QueryRewriterResult :=
  match env_key with
  | Some ((_ :: _) as apiKey) =>
      try_catch
        (rewrite_body apiKey fetch currentQuery conversationHistory maxHistoryMessages)
        (λ e, mret (fallback currentQuery (message_or unknown_error e)))
  | _ => mret (fallback currentQuery key_missing)
  end.

End Rewriter.

(** The ways the completion call can fail, each with the error text the
    rewriter reports for it; for a body that cannot be read the text is the
    engine's [TypeError] message for that body. *)
Inductive upstream_fails (typeErrorMessage : ChatJson → jsstring) (fetch : endpoint)
    (request : ChatRequest) : jsstring → Prop :=
| fails_network e :
    fetch request = Thrown e →
    upstream_fails typeErrorMessage fetch request (message_or unknown_error e)
| fails_status response errorText :
    fetch request = Returned response → ok response = false →
    body response = Returned errorText →
    upstream_fails typeErrorMessage fetch request (api_error response)
| fails_status_unread response e :
    fetch request = Returned response → ok response = false →
    body response = Thrown e →
    upstream_fails typeErrorMessage fetch request (message_or unknown_error e)
| fails_parse response e :
    fetch request = Returned response → ok response = true →
    json response = Thrown e →
    upstream_fails typeErrorMessage fetch request (message_or unknown_error e)
| fails_null response :
    fetch request = Returned response → ok response = true →
    json response = Returned JsonNull →
    upstream_fails typeErrorMessage fetch request (typeErrorMessage JsonNull)
| fails_no_choices response :
    fetch request = Returned response → ok response = true →
    json response = Returned (JsonObject None) →
    upstream_fails typeErrorMessage fetch request invalid_response
| fails_empty_choices response :
    fetch request = Returned response → ok response = true →
    json response = Returned (JsonObject (Some [])) →
    upstream_fails typeErrorMessage fetch request invalid_response
| fails_no_content response rest :
    fetch request = Returned response → ok response = true →
    json response = Returned (JsonObject (Some (mkChoice None :: rest))) →
    upstream_fails typeErrorMessage fetch request
      (typeErrorMessage (JsonObject (Some (mkChoice None :: rest)))).

End QueryRewriter.

(** ** Context retrieval ([app/(chat)/api/chat/route.ts] and
    [retrieve-context.ts]) *)

Module Retrieval.

Record RetrievedDocument := mkDoc {
  documentId : jsstring;
  documentTitle : option jsstring;
  content : jsstring;
  similarity : Q;
  chunkIndex : Z;
}.

(** Listed from the most to the least similar. *)
Definition descending (docs : list RetrievedDocument) : Prop :=
  ∀ i j a b, i ≤ j → docs !! i = Some a → docs !! j = Some b →
    (similarity b <= similarity a)%Q.

Definition sorted_from (docs : list RetrievedDocument) : Prop :=
  StronglySorted (λ a b, similarity b <= similarity a)%Q docs.

Section Orchestrator.

Context {vector : Type}.

Record SearchParams := mkSearch {
  embedding : vector;
  limit : nat;
  knowledgeBaseId : option jsstring;
  similarityThreshold : Q;
  userId : jsstring;
}.

(** The collaborators of one request. *)
Record Env := mkEnv {
  getTextFromMessage : ChatMessage → outcome jsstring;
  env_key : option jsstring;
  fetch : Embeddings.endpoint vector;
  searchSimilarDocuments : SearchParams → outcome (list RetrievedDocument);
  generateUUID : jsstring;
}.

(** An array of messages; an element read past the end is [undefined]. *)
Definition messages := list (option ChatMessage).

(** [Array.prototype.sort(compare)]: stable, [a] stays before [b] when
    [compare(a, b) <= 0]. *)
Fixpoint insert_by {A} (compare : A → A → Q) (x : A) (l : list A) : list A :=
  match l with
  | [] => [x]
  | y :: l' => if Qle_bool (compare x y) 0 then x :: l else y :: insert_by compare x l'
  end.

Fixpoint sort_by {A} (compare : A → A → Q) (l : list A) : list A :=
  match l with
  | [] => []
  | x :: l' => insert_by compare x (sort_by compare l')
  end.

Definition show_Z (z : Z) : jsstring :=
  if (z <? 0)%Z then lit "-" ++ show_N (Z.to_N (- z)) else show_N (Z.to_N z).

(** [x.toFixed(0)]: the nearest integer, the larger one on a tie, computed on
    the absolute value; the sign is printed in front. *)
Definition toFixed0 (x : Q) : jsstring :=
  if Qle_bool 0 x then show_Z (Qfloor (x + (1 # 2)))%Q
  else lit "-" ++ show_Z (Qfloor (- x + (1 # 2)))%Q.

(** A template literal prints a missing title as [null]. *)
Definition show_title (t : option jsstring) : jsstring := default (lit "null") t.

Definition page_icon : jsstring := [0xD83D; 0xDCC4]%N.

Definition document_entry (doc : RetrievedDocument) : jsstring :=
  page_icon ++ lit " **" ++ show_title (documentTitle doc) ++ lit "** ("
  ++ toFixed0 (double_mul (similarity doc) 100) ++ lit "% relevant)" ++ [0x0A]%N
  ++ content doc.

Definition rule : jsstring := [0x0A; 0x0A]%N ++ lit "---" ++ [0x0A; 0x0A]%N.

Definition documentsText (docs : list RetrievedDocument) : jsstring :=
  join rule (document_entry <$> docs).

Definition context_text (docs : list RetrievedDocument) : jsstring :=
  lit "**Knowledge Base Context** (" ++ show_nat (length docs)
  ++ lit " relevant document" ++ (if bool_decide (1 < length docs) then lit "s" else [])
  ++ lit "):" ++ [0x0A; 0x0A]%N ++ documentsText docs ++ [0x0A; 0x0A]%N
  ++ lit "*Use information from these documents to answer the user's question. Cite the document title when referencing specific information.*".

Definition documentsMessage (E : Env) (r : Role) (docs : list RetrievedDocument)
  : ChatMessage :=
  {| id := generateUUID E; role := r; parts := [TextPart (context_text docs)] |}.

(** [[...uiMessages.slice(0, -1), documentsMessage, uiMessages[uiMessages.length - 1]]] *)
Definition insert_before_last (uiMessages : messages) (m : ChatMessage) : messages :=
  slice uiMessages 0 (-1) ++
  [Some m; at_index uiMessages (Z.of_nat (length uiMessages) - 1)].

Definition high_quality (floor : Q) (docs : list RetrievedDocument)
  : list RetrievedDocument :=
  sort_by (λ a b, similarity b - similarity a)%Q
    (List.filter (λ doc, Qle_bool floor (similarity doc)) docs).

Definition non_blank (s : jsstring) : bool :=
  negb (bool_decide (length s = 0)) && negb (bool_decide (length (trim s) = 0)).

(** *** The retrieval block of [POST] in [route.ts] *)

(** [uiMessages] as [POST] builds it: all messages of a tool-approval
    request, otherwise the stored messages followed by the new one. *)
Definition initial_uiMessages (approval : option (list ChatMessage))
    (fromDb : list ChatMessage) (message : option ChatMessage) : messages :=
  match approval with
  | Some all => Some <$> all
  | None => (Some <$> fromDb) ++ [message]
  end.

Definition is_user (message : option ChatMessage) : bool :=
  match message with
  | Some m => bool_decide (role m = user)
  | None => false
  end.

(** The statements of the [try] block; the assignments to [uiMessages] and
    [retrievedDocuments] come after every call that may throw, so the block
    either throws with both untouched or yields their final values. *)
Definition POST_try (E : Env) (message : ChatMessage) (sessionUserId : jsstring)
    (uiMessages : messages) : outcome (messages * list RetrievedDocument) :=
  userMessageText ← getTextFromMessage E message;
  if non_blank userMessageText then
    let cleanedQuery := TextCleaning.cleanQueryText userMessageText in
    if non_blank cleanedQuery then
      queryEmbedding ← Embeddings.generateEmbedding (env_key E) (fetch E) cleanedQuery;
      let queryLength := length cleanedQuery in
      let dynamicThreshold := if bool_decide (queryLength < 10) then (5 # 10)%Q else (7 # 10)%Q in
      searchResults ← searchSimilarDocuments E
        {| embedding := queryEmbedding; limit := 5; knowledgeBaseId := None;
           similarityThreshold := dynamicThreshold; userId := sessionUserId |};
      let retrievedDocuments := searchResults in
      if bool_decide (0 < length retrievedDocuments) then
        let highQualityDocs := high_quality (6 # 10) retrievedDocuments in
        if bool_decide (0 < length highQualityDocs) then
          mret (insert_before_last uiMessages (documentsMessage E user highQualityDocs),
                retrievedDocuments)
        else mret (uiMessages, retrievedDocuments)
      else mret (uiMessages, retrievedDocuments)
    else mret (uiMessages, [])
  else mret (uiMessages, []).

Definition POST_retrieval (E : Env) (message : option ChatMessage)
    (sessionUserId : option jsstring) (isToolApprovalFlow : bool)
    (uiMessages : messages) : messages * list RetrievedDocument :=
  match message, sessionUserId with
  | Some m, Some ((_ :: _) as uid) =>
      if is_user message && negb isToolApprovalFlow then
        match POST_try E m uid uiMessages with
        | Returned st => st
        | Thrown _ => (uiMessages, [])
        end
      else (uiMessages, [])
  | _, _ => (uiMessages, [])
  end.

(** [POST] from the construction of [uiMessages] to the end of the block. *)
Definition POST_messages (E : Env) (message : option ChatMessage)
    (approval : option (list ChatMessage)) (fromDb : list ChatMessage)
    (sessionUserId : option jsstring) : messages * list RetrievedDocument :=
  let isToolApprovalFlow := bool_decide (is_Some approval) in
  POST_retrieval E message sessionUserId isToolApprovalFlow
    (initial_uiMessages approval fromDb message).

(** *** [retrieveRelevantContext] *)

Record RetrieveContextResult := mkRetrieved {
  updatedMessages : messages;
  retrievedDocuments : list RetrievedDocument;
}.

(** [documentTitle: result.documentTitle || result.documentId] *)
Definition with_title (result : RetrievedDocument) : RetrievedDocument :=
  {| documentId := documentId result;
     documentTitle := Some (if truthy (documentTitle result)
                            then show_title (documentTitle result)
                            else documentId result);
     content := content result;
     similarity := similarity result;
     chunkIndex := chunkIndex result |}.

Definition retrieve_try (E : Env) (message : ChatMessage) (uid : jsstring)
    (uiMessages : messages) : outcome RetrieveContextResult :=
  userMessageText ← getTextFromMessage E message;
  if non_blank userMessageText then
    let cleanedQuery := TextCleaning.cleanQueryText userMessageText in
    if non_blank cleanedQuery then
      queryEmbedding ← Embeddings.generateEmbedding (env_key E) (fetch E) cleanedQuery;
      let dynamicThreshold := 0%Q in
      searchResults ← searchSimilarDocuments E
        {| embedding := queryEmbedding; limit := 3; knowledgeBaseId := None;
           similarityThreshold := dynamicThreshold; userId := uid |};
      let retrievedDocuments := with_title <$> searchResults in
      if bool_decide (0 < length retrievedDocuments) then
        let highQualityDocs := high_quality 0 retrievedDocuments in
        if bool_decide (0 < length highQualityDocs) then
          mret {| updatedMessages :=
                    insert_before_last uiMessages (documentsMessage E system highQualityDocs);
                  retrievedDocuments := retrievedDocuments |}
        else mret {| updatedMessages := uiMessages; retrievedDocuments := retrievedDocuments |}
      else mret {| updatedMessages := uiMessages; retrievedDocuments := retrievedDocuments |}
    else mret {| updatedMessages := uiMessages; retrievedDocuments := [] |}
  else mret {| updatedMessages := uiMessages; retrievedDocuments := [] |}.

Definition retrieveRelevantContext (E : Env) (message : option ChatMessage)
    (uiMessages : messages) (userId : option jsstring) (isToolApprovalFlow : bool)
  : RetrieveContextResult :=
  match message, userId with
  | Some m, Some ((_ :: _) as uid) =>
      if is_user message && negb isToolApprovalFlow then
        match retrieve_try E m uid uiMessages with
        | Returned r => r
        | Thrown _ => {| updatedMessages := uiMessages; retrievedDocuments := [] |}
        end
      else {| updatedMessages := uiMessages; retrievedDocuments := [] |}
  | _, _ => {| updatedMessages := uiMessages; retrievedDocuments := [] |}
  end.

End Orchestrator.

Arguments SearchParams : clear implicits.
Arguments Env : clear implicits.

End Retrieval.

(** ** Document upload ([app/(chat)/api/documents/upload/route.ts]) *)

Module Upload.

Import TextChunking.

(** [self.findIndex(p)]: [-1] when no element satisfies [p]. *)
Fixpoint findIndex_from {A} (p : A → bool) (l : list A) (i : nat) : Z :=
  match l with
  | [] => (-1)%Z
  | x :: l' => if p x then Z.of_nat i else findIndex_from p l' (S i)
  end.

Definition findIndex {A} (p : A → bool) (self : list A) : Z := findIndex_from p self 0.

(** [self.filter((x, index, self) => p(x, index, self))] *)
Fixpoint filter_from {A} (p : A → nat → bool) (i : nat) (l : list A) : list A :=
  match l with
  | [] => []
  | x :: l' => if p x i then x :: filter_from p (S i) l' else filter_from p (S i) l'
  end.

Definition filter_indexed {A} (p : A → nat → list A → bool) (self : list A) : list A :=
  filter_from (λ x i, p x i self) 0 self.

Definition same_trimmed (chunk c : TextChunk) : bool :=
  bool_decide (trim (text c) = trim (text chunk)).

(** The duplicate filter applied to the chunks of a document. *)
Definition uniqueChunks (chunks : list TextChunk) : list TextChunk :=
  filter_indexed
    (λ chunk index self,
       bool_decide (Z.of_nat index = findIndex (same_trimmed chunk) self))
    chunks.

(** The text two chunks are compared by. *)
Definition key (c : TextChunk) : jsstring := trim (text c).

(** Keep a chunk unless its key was seen before: the reading of the
    specification, against which the index-based filter is checked. *)
Fixpoint first_occurrences (seen : list jsstring) (l : list TextChunk) : list TextChunk :=
  match l with
  | [] => []
  | c :: l' =>
      if bool_decide (key c ∈ seen) then first_occurrences seen l'
      else c :: first_occurrences (key c :: seen) l'
  end.

(** Number of kept chunks that carry the key [k]. *)
Definition kept_with (k : jsstring) (l : list TextChunk) : nat :=
  length (List.filter (λ c, bool_decide (key c = k)) l).

Definition clean_chunk (chunk : TextChunk) : TextChunk :=
  {| text := TextCleaning.cleanTextForEmbedding (text chunk);
     startIndex := startIndex chunk; endIndex := endIndex chunk |}.

Definition cleanedChunks (unique : list TextChunk) : list TextChunk :=
  List.filter (λ chunk, bool_decide (0 < length (text chunk))) (clean_chunk <$> unique).

Fixpoint is_suffix_of (suffix s : jsstring) : bool :=
  bool_decide (s = suffix) ||
  match s with
  | [] => false
  | _ :: s' => is_suffix_of suffix s'
  end.

(** [filename.replace(/\.[^/.]+$/, "")]: drop the last dot and what follows
    it, when at least one code unit follows and none of them is a slash. *)
Definition strip_extension (filename : jsstring) : jsstring :=
  let ext := reverse (take (span_len (λ c, negb (c =? 0x2E)%N) (reverse filename))
                        (reverse filename)) in
  if bool_decide (length ext < length filename)
     && bool_decide (0 < length ext)
     && forallb (λ c, negb (c =? 0x2F)%N) ext
  then take (length filename - length ext - 1) filename
  else filename.

Record UploadedFile := mkFile {
  name : jsstring;
  type : jsstring;
  size : N;
}.

Record DocumentRow := mkDocument {
  doc_id : jsstring;
  doc_title : jsstring;
  doc_kind : jsstring;
  doc_content : jsstring;
  doc_userId : jsstring;
}.

Record ResponseBody := mkBody {
  error : option jsstring;
  success : option bool;
  documentId : option jsstring;
  title : option jsstring;
  blobUrl : option jsstring;
  message : option jsstring;
  chunksIndexed : option nat;
  warning : option jsstring;
}.

Record Response := mkResponse { status : N; body : ResponseBody }.

(** [NextResponse.json({ error }, { status })] *)
Definition error_response (code : N) (msg : jsstring) : Response :=
  {| status := code;
     body := {| error := Some msg; success := None; documentId := None; title := None;
                blobUrl := None; message := None; chunksIndexed := None;
                warning := None |} |}.

(** [blobUrl || undefined] *)
Definition or_undefined (url : option jsstring) : option jsstring :=
  if truthy url then url else None.

(** [NextResponse.json({ success: true, ... })]: status 200. *)
Definition indexed_response (docId docTitle : jsstring) (url : option jsstring)
    (msg : jsstring) (n : nat) : Response :=
  {| status := 200;
     body := {| error := None; success := Some true; documentId := Some docId;
                title := Some docTitle; blobUrl := or_undefined url;
                message := Some msg; chunksIndexed := Some n; warning := None |} |}.

Definition warning_text : jsstring :=
  lit "Document was saved but could not be indexed for search".

Definition partial_response (docId docTitle : jsstring) (url : option jsstring)
    (detail : option jsstring) : Response :=
  {| status := 200;
     body := {| error := detail; success := Some true; documentId := Some docId;
                title := Some docTitle; blobUrl := or_undefined url;
                message := Some (lit "Document uploaded but indexing failed");
                chunksIndexed := Some 0; warning := Some warning_text |} |}.

Section Route.

Context {vector : Type}.

Record EmbeddingRow := mkRow {
  row_documentId : jsstring;
  row_knowledgeBaseId : option jsstring;
  row_chunkIndex : nat;
  row_content : jsstring;
  row_embedding : option vector;
}.

(** The collaborators of one upload request. *)
Record Env := mkEnv {
  session_user : option jsstring;
  body_is_null : bool;
  formData : outcome (option UploadedFile);
  extractTextFromFile : UploadedFile → jsstring → outcome jsstring;
  put : UploadedFile → outcome jsstring;
  generateUUID : jsstring;
  saveDocument : DocumentRow → outcome unit;
  deleteDocumentEmbeddings : jsstring → outcome unit;
  splitText : splitter;
  env_key : option jsstring;
  fetch : Embeddings.endpoint vector;
  saveDocumentEmbeddings : list EmbeddingRow → outcome unit;
  development : bool;
}.

(** What [POST] holds once [saveDocument] has returned. *)
Record Saved := mkSaved {
  saved_id : jsstring;
  saved_title : jsstring;
  saved_text : jsstring;
  saved_blobUrl : option jsstring;
}.

Definition MAX_SIZE : N := 5 * 1024 * 1024.

Definition isValidType (mimeType filename : jsstring) : bool :=
  bool_decide (mimeType ∈ [lit "application/pdf"; lit "text/plain"; lit "text/markdown"])
  || is_suffix_of (lit ".pdf") filename
  || is_suffix_of (lit ".txt") filename
  || is_suffix_of (lit ".md") filename.

Definition blank (s : jsstring) : bool :=
  bool_decide (length s = 0) || bool_decide (length (trim s) = 0).

(** [POST] from [request.formData()] to the [saveDocument] call: an early
    response, or the saved document. *)
Definition upload_stage (E : Env) (uid : jsstring) : outcome (Response + Saved) :=
  file ← formData E;
  match file with
  | None => mret (inl (error_response 400 (lit "No file uploaded")))
  | Some file =>
      let filename := name file in
      if negb (size file <=? MAX_SIZE)%N then
        mret (inl (error_response 400 (lit "File size should be less than 5MB")))
      else
        let mimeType :=
          if truthy (Some (type file)) then type file else lit "application/octet-stream" in
        if negb (isValidType mimeType filename) then
          mret (inl (error_response 400 (lit "File type should be PDF, TXT, or MD")))
        else
          text ← extractTextFromFile E file mimeType;
          if blank text then
            mret (inl (error_response 400
                         (lit "File content is empty or could not be extracted")))
          else
            let url := match put E file with
                       | Returned u => Some u
                       | Thrown _ => None
                       end in
            let docId := generateUUID E in
            let docTitle := strip_extension filename in
            match saveDocument E {| doc_id := docId; doc_title := docTitle;
                                    doc_kind := lit "text"; doc_content := text;
                                    doc_userId := uid |} with
            | Thrown _ => mret (inl (error_response 500 (lit "Failed to save document")))
            | Returned _ =>
                mret (inr {| saved_id := docId; saved_title := docTitle;
                             saved_text := text; saved_blobUrl := url |})
            end
  end.

Definition rows (docId : jsstring) (cleaned : list TextChunk)
    (embeddings : list vector) : list EmbeddingRow :=
  imap (λ index chunk,
          {| row_documentId := docId; row_knowledgeBaseId := None;
             row_chunkIndex := index; row_content := text chunk;
             row_embedding := embeddings !! index |})
       cleaned.

Definition indexed_message (n : nat) (docTitle : jsstring) : jsstring :=
  lit "Successfully uploaded and indexed " ++ show_nat n ++ lit " chunks from "
  ++ [0x22]%N ++ docTitle ++ [0x22]%N.

(** The statements of the indexing [try] block. *)
Definition index_try (E : Env) (s : Saved) : outcome Response :=
  _ ← deleteDocumentEmbeddings E (saved_id s);
  chunks ← chunkText (splitText E) (saved_text s) {| maxChunkSize := 500; overlap := 50 |};
  let unique := uniqueChunks chunks in
  if bool_decide (length unique = 0) then
    mret (indexed_response (saved_id s) (saved_title s) (saved_blobUrl s)
            (lit "Document uploaded but content is too short to index") 0)
  else
    let cleaned := cleanedChunks unique in
    if bool_decide (length cleaned = 0) then
      mret (indexed_response (saved_id s) (saved_title s) (saved_blobUrl s)
              (lit "Document uploaded but content is empty after cleaning") 0)
    else
      embeddings ← Embeddings.generateEmbeddings (env_key E) (fetch E) (text <$> cleaned);
      _ ← saveDocumentEmbeddings E (rows (saved_id s) cleaned embeddings);
      mret (indexed_response (saved_id s) (saved_title s) (saved_blobUrl s)
              (indexed_message (length cleaned) (saved_title s)) (length cleaned)).

(** The indexing [try { } catch { }] statement. *)
Definition index_stage (E : Env) (s : Saved) : Response :=
  match index_try E s with
  | Returned response => response
  | Thrown e =>
      let errorMessage := message_or (lit "Unknown error") e in
      partial_response (saved_id s) (saved_title s) (saved_blobUrl s)
        (if development E then Some errorMessage else None)
  end.

Definition POST (E : Env) : Response :=
  match session_user E with
  | None => error_response 401 (lit "Unauthorized")
  | Some uid =>
      if body_is_null E then error_response 400 (lit "Request body is empty")
      else
        match upload_stage E uid with
        | Returned (inl response) => response
        | Returned (inr saved) => index_stage E saved
        | Thrown _ => error_response 500 (lit "Failed to process document upload")
        end
  end.

(** An indexing step throws [e] after the steps before it have returned:
    deleting the old embeddings, chunking, embedding the cleaned chunks, or
    saving the rows.  (Cleaning is a pure function of the chunk text.) *)
Inductive indexing_fails (E : Env) (saved : Saved) : exn → Prop :=
| fails_delete e :
    deleteDocumentEmbeddings E (saved_id saved) = Thrown e →
    indexing_fails E saved e
| fails_chunk u e :
    deleteDocumentEmbeddings E (saved_id saved) = Returned u →
    chunkText (splitText E) (saved_text saved) {| maxChunkSize := 500; overlap := 50 |}
      = Thrown e →
    indexing_fails E saved e
| fails_embed u chunks e :
    deleteDocumentEmbeddings E (saved_id saved) = Returned u →
    chunkText (splitText E) (saved_text saved) {| maxChunkSize := 500; overlap := 50 |}
      = Returned chunks →
    0 < length (cleanedChunks (uniqueChunks chunks)) →
    Embeddings.generateEmbeddings (env_key E) (fetch E)
      (text <$> cleanedChunks (uniqueChunks chunks)) = Thrown e →
    indexing_fails E saved e
| fails_save u chunks embeddings e :
    deleteDocumentEmbeddings E (saved_id saved) = Returned u →
    chunkText (splitText E) (saved_text saved) {| maxChunkSize := 500; overlap := 50 |}
      = Returned chunks →
    0 < length (cleanedChunks (uniqueChunks chunks)) →
    Embeddings.generateEmbeddings (env_key E) (fetch E)
      (text <$> cleanedChunks (uniqueChunks chunks)) = Returned embeddings →
    saveDocumentEmbeddings E
      (rows (saved_id saved) (cleanedChunks (uniqueChunks chunks)) embeddings)
      = Thrown e →
    indexing_fails E saved e.

End Route.

Arguments EmbeddingRow : clear implicits.
Arguments Env : clear implicits.

End Upload.

(** ** Sample requests and collaborators *)

Module Samples.

(** Modelled from the spec: [getTextFromMessage] of [lib/utils] is not among
    the sources; the core reads flattened text from a message, here the
    text parts concatenated. *)
Definition text_of_parts (m : ChatMessage) : outcome jsstring :=
  Returned (concat ((λ p, match p with TextPart t => t | OtherPart _ => [] end)
                      <$> parts m)).

(** A stand-in embedding endpoint: the vector of a text is its length. *)
Definition length_endpoint : Embeddings.endpoint nat :=
  λ request,
    Returned {| Embeddings.ok := true; Embeddings.status := 200;
                Embeddings.statusText := lit "OK";
                Embeddings.body := Returned [];
                Embeddings.json := Returned (Some
                  match Embeddings.input request with
                  | Embeddings.InputText t => [Embeddings.mkEmbeddingItem (length t)]
                  | Embeddings.InputBatch ts =>
                      (λ t, Embeddings.mkEmbeddingItem (length t)) <$> ts
                  end) |}.

Definition numbered_texts (n : nat) : list jsstring := show_nat <$> seq 0 n.

(** A splitter that cuts the text into pieces of [maxChunkSize] units. *)
Definition window_splitter : TextChunking.splitter :=
  λ options source,
    Returned (Embeddings.windows (Z.to_nat (TextChunking.maxChunkSize options)) source).

(** The [TypeError] messages of V8 for a [null] body and for a first choice
    whose message has no [content]. *)
Definition v8_type_error (data : QueryRewriter.ChatJson) : jsstring :=
  match data with
  | QueryRewriter.JsonNull => lit "Cannot read properties of null (reading 'choices')"
  | QueryRewriter.JsonObject _ =>
      lit "Cannot read properties of undefined (reading 'trim')"
  end.

Definition sample_rewriteQuery :=
  QueryRewriter.rewriteQuery text_of_parts (lit "system") (lit "history") (lit "query")
    (lit "rewrite with history") (lit "rewrite") v8_type_error.

(** A completion endpoint that is unreachable. *)
Definition unreachable : QueryRewriter.endpoint :=
  λ _, Thrown (ErrorObj (lit "fetch failed")).

(** A completion endpoint that answers every request with the body [data]. *)
Definition answering_body (data : QueryRewriter.ChatJson) : QueryRewriter.endpoint :=
  λ _, Returned {| QueryRewriter.ok := true; QueryRewriter.status := 200;
                   QueryRewriter.statusText := lit "OK";
                   QueryRewriter.body := Returned [];
                   QueryRewriter.json := Returned data |}.

(** A completion endpoint that answers every request with the text [raw]. *)
Definition answering (raw : jsstring) : QueryRewriter.endpoint :=
  λ _, Returned {| QueryRewriter.ok := true; QueryRewriter.status := 200;
                   QueryRewriter.statusText := lit "OK";
                   QueryRewriter.body := Returned [];
                   QueryRewriter.json :=
                     Returned (QueryRewriter.JsonObject
                                 (Some [QueryRewriter.mkChoice (Some raw)])) |}.

Definition earlier : ChatMessage :=
  {| id := lit "m1"; role := assistant; parts := [TextPart (lit "hello")] |}.

Definition question : ChatMessage :=
  {| id := lit "m2"; role := user; parts := [TextPart (lit "what is alpha?")] |}.

Definition doc_strong : Retrieval.RetrievedDocument :=
  {| Retrieval.documentId := lit "d1"; Retrieval.documentTitle := Some (lit "Guide");
     Retrieval.content := lit "alpha is the first letter";
     Retrieval.similarity := (9 # 10)%Q; Retrieval.chunkIndex := 0 |}.

Definition doc_weak : Retrieval.RetrievedDocument :=
  {| Retrieval.documentId := lit "d2"; Retrieval.documentTitle := Some (lit "Notes");
     Retrieval.content := lit "unrelated";
     Retrieval.similarity := (4 # 10)%Q; Retrieval.chunkIndex := 3 |}.

(** Three chunks of a document: the first holds a tab where the second
    holds a space, the third repeats the second. *)
Definition tabbed_chunks : list TextChunking.TextChunk :=
  [ TextChunking.mkTextChunk [0x61; 0x09; 0x62]%N 0 3;
    TextChunking.mkTextChunk (lit "a b") 4 7;
    TextChunking.mkTextChunk (lit "a b") 8 11 ].

(** A request environment whose search returns [results]. *)
Definition retrieval_env (results : list Retrieval.RetrievedDocument)
  : Retrieval.Env nat :=
  {| Retrieval.getTextFromMessage := text_of_parts;
     Retrieval.env_key := Some (lit "key");
     Retrieval.fetch := length_endpoint;
     Retrieval.searchSimilarDocuments := λ _, Returned results;
     Retrieval.generateUUID := lit "ctx-1" |}.

(** A request environment whose search returns the chunks stored for the
    user it is asked for. *)
Definition retrieval_env_per_user (stored : jsstring → list Retrieval.RetrievedDocument)
  : Retrieval.Env nat :=
  {| Retrieval.getTextFromMessage := text_of_parts;
     Retrieval.env_key := Some (lit "key");
     Retrieval.fetch := length_endpoint;
     Retrieval.searchSimilarDocuments := λ params, Returned (stored (Retrieval.userId params));
     Retrieval.generateUUID := lit "ctx-1" |}.

(** The user [u1] has stored [mine]; every other user has a matching chunk. *)
Definition stored_by_user (mine : list Retrieval.RetrievedDocument) (uid : jsstring)
  : list Retrieval.RetrievedDocument :=
  if bool_decide (uid = lit "u1") then mine else [doc_strong].

Definition notes_file : Upload.UploadedFile :=
  {| Upload.name := lit "notes.txt"; Upload.type := lit "text/plain"; Upload.size := 11 |}.

(** An upload during which the database refuses to delete old embeddings. *)
Definition upload_env : Upload.Env nat :=
  {| Upload.session_user := Some (lit "u1");
     Upload.body_is_null := false;
     Upload.formData := Returned (Some notes_file);
     Upload.extractTextFromFile := λ _ _, Returned (lit "hello world");
     Upload.put := λ _, Thrown NonError;
     Upload.generateUUID := lit "doc-1";
     Upload.saveDocument := λ _, Returned ();
     Upload.deleteDocumentEmbeddings := λ _, Thrown (ErrorObj (lit "connection lost"));
     Upload.splitText := window_splitter;
     Upload.env_key := Some (lit "key");
     Upload.fetch := length_endpoint;
     Upload.saveDocumentEmbeddings := λ _, Returned ();
     Upload.development := false |}.

Definition saved_notes : Upload.Saved :=
  {| Upload.saved_id := lit "doc-1"; Upload.saved_title := lit "notes";
     Upload.saved_text := lit "hello world"; Upload.saved_blobUrl := None |}.

End Samples.

Import Samples.

(** ** Token estimates ([token-counter.ts]) *)

Module TokenCounter.

(** [/[\u4e00-\u9fa5]/]: one code unit of the CJK block. *)
Definition is_chinese (c : N) : bool := code_in 0x4E00 0x9FA5 c.

(** [estimateTokenCount(text)].  The quotients are doubles in the program and
    rationals here: [otherChars / 4] is exact in both, and the sum is either
    an integer (then both quotients are exact) or at least 1/12 away from
    every integer, far more than the rounding error of two double operations
    on string lengths, so [Math.ceil] yields the same integer. *)
Definition estimateTokenCount (text : jsstring) : Z :=
  if bool_decide (length text = 0) then 0%Z
  else
    let chineseChars := Z.of_nat (length (List.filter is_chinese text)) in
    let otherChars := (Z.of_nat (length text) - chineseChars)%Z in
    Qceiling (inject_Z chineseChars / (3 # 2) + inject_Z otherChars / (4 # 1))%Q.

Record WindowCheck := mkWindowCheck {
  withinLimit : bool;
  tokens : Z;
  maxTokens : Z;
}.

(** [Object.entries(contextWindowLimits)]: the keys in insertion order. *)
Definition contextWindowLimits : list (jsstring * Z) :=
  [ (lit "gpt-4", 8192%Z);
    (lit "gpt-4-32k", 32768%Z);
    (lit "gpt-4-turbo", 128000%Z);
    (lit "gpt-4o", 128000%Z);
    (lit "gpt-3.5-turbo", 16384%Z);
    (lit "claude-3-opus", 200000%Z);
    (lit "claude-3-sonnet", 200000%Z);
    (lit "claude-3-haiku", 200000%Z);
    (lit "claude-3.5-sonnet", 200000%Z);
    (lit "default", 128000%Z) ].

(** [s.includes(key)] *)
Definition includes (s key : jsstring) : bool :=
  match find_from key s 0 with
  | Some _ => true
  | None => false
  end.

(** The [for ... of] loop with its [break]: the limit of the first entry
    whose key occurs in the model id. *)
Fixpoint first_limit (modelId : jsstring) (entries : list (jsstring * Z))
    (maxTokens : Z) : Z :=
  match entries with
  | [] => maxTokens
  | (key, limit) :: entries' =>
      if includes modelId key then limit else first_limit modelId entries' maxTokens
  end.

(** [isWithinContextWindow(text, modelId)].  [maxTokens * 0.8] is a double in
    the program and a rational here; for the five limits of the table the
    double is the exact product (102400, 160000) or lies strictly between two
    integers (6553.6, 13107.2, 26214.4), so comparing it with an integer and
    flooring it agree with the rational. *)
Definition isWithinContextWindow (text modelId : jsstring) : WindowCheck :=
  let tokens := estimateTokenCount text in
  let maxTokens := first_limit modelId contextWindowLimits 128000%Z in
  let effectiveLimit := (inject_Z maxTokens * (8 # 10))%Q in
  {| withinLimit := Qle_bool (inject_Z tokens) effectiveLimit;
     tokens := tokens;
     maxTokens := Qfloor effectiveLimit |}.

End TokenCounter.

(** ** Calls with a trace

    A computation that may throw, together with the list of the calls it
    made to a collaborator that changes the outside world, in call order. *)

Module Trace.

Definition traced (op A : Type) : Type := list op * outcome A.

Section Traced.

Context {op : Type}.

Definition pure {A} (a : A) : traced op A := ([], Returned a).

Definition raise {A} (e : exn) : traced op A := ([], Thrown e).

(** A call that leaves no trace. *)
Definition silent {A} (result : outcome A) : traced op A := ([], result).

(** A traced call: the call is made, then it returns or throws. *)
Definition call {A} (o : op) (result : outcome A) : traced op A := ([o], result).

Definition bind {A B} (m : traced op A) (k : A → traced op B) : traced op B :=
  match m with
  | (log, Returned a) => let '(log', result) := k a in (log ++ log', result)
  | (log, Thrown e) => (log, Thrown e)
  end.

(** [try { body } catch { handler }] *)
Definition catch {A} (body : traced op A) (handler : exn → traced op A) : traced op A :=
  match body with
  | (log, Returned a) => (log, Returned a)
  | (log, Thrown e) => let '(log', result) := handler e in (log ++ log', result)
  end.

(** [try { body } finally { cleanup }]: the cleanup runs in every case, and
    the statement completes as the body did unless the cleanup throws. *)
Definition finally {A} (body : traced op A) (cleanup : traced op unit) : traced op A :=
  let '(log, result) := body in
  let '(log', cleaned) := cleanup in
  (log ++ log',
   match cleaned with
   | Returned _ => result
   | Thrown e => Thrown e
   end).

End Traced.

#[global] Instance traced_ret {op} : MRet (traced op) := λ A, pure.
#[global] Instance traced_bind {op} : MBind (traced op) := λ A B k m, bind m k.

End Trace.

(** ** Text extraction ([file-extraction.ts]) *)

Module FileExtraction.

Import Trace.

(** The file-system calls of the extractor. *)
Inductive FsOp :=
| WriteFile (path : jsstring)
| LoadPdf (path : jsstring)
| LoadText (path : jsstring)
| Unlink (path : jsstring).

Section Extractor.

(** The metadata object a loader attaches to a document. *)
Context {meta : Type}.

Record LoadedDoc := mkLoadedDoc { pageContent : jsstring; doc_metadata : meta }.

(** The two object expressions the extractor builds:
    [{ pageCount: docs.length, ...(docs[0]?.metadata || {}) }] and
    [docs[0]?.metadata || {}]. *)
Inductive Metadata :=
| PdfMetadata (pageCount : nat) (first : option meta)
| TextMetadata (first : option meta).

Record ExtractedText := mkExtracted { text : jsstring; metadata : Metadata }.

(** The file system and the two loaders; [tempFilePath fileName] is
    [join(tmpdir(), `upload-${Date.now()}-${fileName}`)]. *)
Record Env := mkEnv {
  tempFilePath : jsstring → jsstring;
  writeFile : jsstring → outcome unit;
  loadPdf : jsstring → outcome (list LoadedDoc);
  loadText : jsstring → outcome (list LoadedDoc);
  unlink : jsstring → outcome unit;
}.

(** [docs.map((doc) => doc.pageContent).join("\n")] *)
Definition pages_text (docs : list LoadedDoc) : jsstring :=
  join [0x0A%N] (pageContent <$> docs).

Definition unsupported (mimeType : jsstring) : jsstring :=
  lit "Unsupported file type: " ++ mimeType.

(** The statements of the [try] block. *)
Definition extract_body (E : Env) (path fileName mimeType : jsstring)
  : traced FsOp ExtractedText :=
  _ ← call (WriteFile path) (writeFile E path);
  if bool_decide (mimeType = lit "application/pdf") then
    docs ← call (LoadPdf path) (loadPdf E path);
    mret {| text := pages_text docs;
            metadata := PdfMetadata (length docs) (doc_metadata <$> head docs) |}
  else if bool_decide (mimeType = lit "text/plain")
          || bool_decide (mimeType = lit "text/markdown")
          || Upload.is_suffix_of (lit ".txt") fileName
          || Upload.is_suffix_of (lit ".md") fileName then
    docs ← call (LoadText path) (loadText E path);
    mret {| text := pages_text docs;
            metadata := TextMetadata (doc_metadata <$> head docs) |}
  else raise (ErrorObj (unsupported mimeType)).

(** [extractTextFromFile(fileBuffer, fileName, mimeType)] *)
Definition extractTextFromFile (E : Env) (fileName mimeType : jsstring)
  : traced FsOp ExtractedText :=
  let path := tempFilePath E fileName in
  finally (extract_body E path fileName mimeType)
          (catch (call (Unlink path) (unlink E path)) (λ _, pure ())).

End Extractor.

Arguments LoadedDoc : clear implicits.
Arguments Metadata : clear implicits.
Arguments ExtractedText : clear implicits.
Arguments Env : clear implicits.

End FileExtraction.

(** ** The [indexDocument] tool ([index-document.ts]) *)

Module IndexTool.

Import Trace TextChunking.

Section Tool.

Context {vector : Type}.

(** The database writes of the tool. *)
Inductive DbOp :=
| DeleteEmbeddings (documentId : jsstring)
| SaveEmbeddings (rows : list (Upload.EmbeddingRow vector)).

(** The columns of a stored document the tool reads; [content] may be
    [null]. *)
Record Document := mkDocument {
  title : jsstring;
  content : option jsstring;
  userId : jsstring;
}.

Record ToolResult := mkToolResult {
  error : option jsstring;
  success : option bool;
  chunksIndexed : option nat;
  message : option jsstring;
}.

Definition failure (msg : jsstring) : ToolResult :=
  {| error := Some msg; success := None; chunksIndexed := None; message := None |}.

Record Env := mkEnv {
  getDocumentById : jsstring → outcome (option Document);
  deleteDocumentEmbeddings : jsstring → outcome unit;
  splitText : splitter;
  env_key : option jsstring;
  fetch : Embeddings.endpoint vector;
  saveDocumentEmbeddings : list (Upload.EmbeddingRow vector) → outcome unit;
}.

Definition rows (documentId : jsstring) (knowledgeBaseId : option jsstring)
    (cleaned : list TextChunk) (embeddings : list vector)
  : list (Upload.EmbeddingRow vector) :=
  imap (λ index chunk,
          {| Upload.row_documentId := documentId;
             Upload.row_knowledgeBaseId := knowledgeBaseId;
             Upload.row_chunkIndex := index;
             Upload.row_content := text chunk;
             Upload.row_embedding := embeddings !! index |})
       cleaned.

Definition indexed_message (n : nat) (docTitle : jsstring) : jsstring :=
  lit "Successfully indexed " ++ show_nat n ++ lit " chunks from document "
  ++ [0x22]%N ++ docTitle ++ [0x22]%N.

(** The statements of the [try] block. *)
Definition index_try (E : Env) (documentId : jsstring) (knowledgeBaseId : option jsstring)
    (docTitle docContent : jsstring) : traced DbOp ToolResult :=
  _ ← call (DeleteEmbeddings documentId) (deleteDocumentEmbeddings E documentId);
  chunks ← silent (chunkText (splitText E) docContent
                     {| maxChunkSize := 1000; overlap := 200 |});
  let unique := Upload.uniqueChunks chunks in
  if bool_decide (length unique = 0) then
    mret (failure (lit "Document content is too short to index"))
  else
    let cleaned := Upload.cleanedChunks unique in
    if bool_decide (length cleaned = 0) then
      mret (failure (lit "Document content is empty after cleaning"))
    else
      embeddings ← silent (Embeddings.generateEmbeddings (env_key E) (fetch E)
                             (text <$> cleaned));
      let saved := rows documentId knowledgeBaseId cleaned embeddings in
      _ ← call (SaveEmbeddings saved) (saveDocumentEmbeddings E saved);
      mret {| error := None; success := Some true;
              chunksIndexed := Some (length cleaned);
              message := Some (indexed_message (length cleaned) docTitle) |}.

(** [execute({ documentId, knowledgeBaseId })] for the session of
    [sessionUser] ([session.user?.id]). *)
Definition execute (E : Env) (sessionUser : option jsstring)
    (documentId : jsstring) (knowledgeBaseId : option jsstring)
  : traced DbOp ToolResult :=
  if negb (truthy sessionUser) then mret (failure (lit "Unauthorized"))
  else
    document ← silent (getDocumentById E documentId);
    match document with
    | Some {| title := docTitle; content := Some ((_ :: _) as docContent);
              userId := owner |} =>
        if negb (bool_decide (Some owner = sessionUser)) then
          mret (failure (lit "You don't have permission to index this document"))
        else
          catch (index_try E documentId knowledgeBaseId docTitle docContent)
                (λ _, pure (failure (lit "Failed to index document")))
    | _ => mret (failure (lit "Document not found or has no content"))
    end.

End Tool.

Arguments DbOp : clear implicits.
Arguments Document : clear implicits.
Arguments Env : clear implicits.

End IndexTool.

(** ** The [retrieveDocuments] tool ([retrieve-documents.ts]) *)

Module RetrieveTool.

Import Retrieval.

Section Tool.

Context {vector : Type}.

(** [Math.round(s * 100) / 100] on doubles. *)
Variable round2 : Q → Q.

Record ToolResult := mkToolResult {
  error : option jsstring;
  results : list RetrievedDocument;
  count : option nat;
  query : option jsstring;
}.

Definition failure (msg : jsstring) : ToolResult :=
  {| error := Some msg; results := []; count := None; query := None |}.

Record Env := mkEnv {
  env_key : option jsstring;
  fetch : Embeddings.endpoint vector;
  searchSimilarDocuments : SearchParams vector → outcome (list RetrievedDocument);
}.

Definition format (result : RetrievedDocument) : RetrievedDocument :=
  {| documentId := documentId result;
     documentTitle := documentTitle result;
     content := content result;
     similarity := round2 (similarity result);
     chunkIndex := chunkIndex result |}.

(** The statements of the [try] block. *)
Definition search_try (E : Env) (uid userQuery : jsstring) (maxResults : nat)
    (knowledgeBase : option jsstring) : outcome ToolResult :=
  let cleanedQuery := TextCleaning.cleanQueryText userQuery in
  if negb (truthy (Some cleanedQuery)) || bool_decide (length (trim cleanedQuery) = 0) then
    mret (failure (lit "Query is empty after cleaning"))
  else
    queryEmbedding ← Embeddings.generateEmbedding (env_key E) (fetch E) cleanedQuery;
    found ← searchSimilarDocuments E
              {| embedding := queryEmbedding; limit := maxResults;
                 knowledgeBaseId := knowledgeBase; similarityThreshold := 7 # 10;
                 userId := uid |};
    mret {| error := None; results := format <$> found;
            count := Some (length found); query := Some userQuery |}.

(** [execute({ query, limit, knowledgeBaseId })] for the session of
    [sessionUser] ([session.user?.id]). *)
Definition execute (E : Env) (sessionUser : option jsstring) (userQuery : jsstring)
    (maxResults : nat) (knowledgeBase : option jsstring) : ToolResult :=
  match sessionUser with
  | Some ((_ :: _) as uid) =>
      match search_try E uid userQuery maxResults knowledgeBase with
      | Returned result => result
      | Thrown _ => failure (lit "Failed to retrieve documents")
      end
  | _ => failure (lit "Unauthorized")
  end.

End Tool.

Arguments Env : clear implicits.

End RetrieveTool.


(** ** Vocabulary of the further properties *)

Module Vocabulary.

(** [s] neither starts nor ends with white space. *)
Definition trimmed (s : jsstring) : Prop :=
  dropWhile is_space s = s ∧ dropWhile is_space (reverse s) = reverse s.

(** [pat] occurs in [s] at position [i]. *)
Definition occurs_at (pat s : jsstring) (i : nat) : Prop :=
  take (length pat) (drop i s) = pat.

(** A matcher never reports a match longer than the text it looks at. *)
Definition bounded (m : matcher) : Prop :=
  ∀ s n, m s = Some n → n ≤ length s.

(** Units the cleaning steps write themselves. *)
Definition plain (P : N → Prop) : Prop :=
  P 0x20%N ∧ P 0x0A%N ∧ P 0x2E%N ∧ P 0x2D%N ∧ P 0x5F%N ∧ P 0x22%N ∧ P 0x27%N.

(** Length of the longest run of consecutive units of a class. *)
Fixpoint longest_run (p : N → bool) (s : jsstring) : nat :=
  match s with
  | [] => 0
  | c :: s' =>
      if p c then S (span_len p s') `max` longest_run p s' else longest_run p s'
  end.

(** A chunk sits where its text occurs in the source, or its text does not
    occur in the source from its start on. *)
Definition exact_or_absent (source : jsstring) (c : TextChunking.TextChunk) : Prop :=
  occurs_at (TextChunking.text c) source (Z.to_nat (TextChunking.startIndex c))
  ∨ ∀ j, Z.to_nat (TextChunking.startIndex c) ≤ j →
      ¬ occurs_at (TextChunking.text c) source j.

(** A chunk holds a non-empty trimmed text and spans as many positions as
    the text has units. *)
Definition well_formed (c : TextChunking.TextChunk) : Prop :=
  0 < length (TextChunking.text c)
  ∧ trim (TextChunking.text c) = TextChunking.text c
  ∧ (TextChunking.endIndex c - TextChunking.startIndex c
     = Z.of_nat (length (TextChunking.text c)))%Z.

(** The endpoint answers every request with status ok and the items
    [items request], however many they are. *)
Definition answers_with {vector} (fetch : Embeddings.endpoint vector)
    (items : Embeddings.EmbeddingRequest → list (Embeddings.EmbeddingItem vector))
  : Prop :=
  ∀ request, ∃ response,
    fetch request = Returned response
    ∧ Embeddings.ok response = true
    ∧ Embeddings.json response = Returned (Some (items request)).

(** Reasons for which a retrieval step does not reach a search answer: the
    entry condition fails, the text of the message or the cleaned query is
    blank, or a collaborator throws. *)
Inductive retrieval_skipped {vector} (E : Retrieval.Env vector)
    (message : option ChatMessage) (userId : option jsstring) (approval : bool) : Prop :=
| skipped_no_user_message :
    Retrieval.is_user message = false → retrieval_skipped E message userId approval
| skipped_unauthenticated :
    truthy userId = false → retrieval_skipped E message userId approval
| skipped_tool_approval :
    approval = true → retrieval_skipped E message userId approval
| skipped_text_throws m e :
    message = Some m → Retrieval.getTextFromMessage E m = Thrown e →
    retrieval_skipped E message userId approval
| skipped_blank_text m userText :
    message = Some m → Retrieval.getTextFromMessage E m = Returned userText →
    Retrieval.non_blank userText = false →
    retrieval_skipped E message userId approval
| skipped_blank_query m userText :
    message = Some m → Retrieval.getTextFromMessage E m = Returned userText →
    Retrieval.non_blank (TextCleaning.cleanQueryText userText) = false →
    retrieval_skipped E message userId approval
| skipped_embedding_throws m userText e :
    message = Some m → Retrieval.getTextFromMessage E m = Returned userText →
    Embeddings.generateEmbedding (Retrieval.env_key E) (Retrieval.fetch E)
      (TextCleaning.cleanQueryText userText) = Thrown e →
    retrieval_skipped E message userId approval
| skipped_search_throws m userText :
    message = Some m → Retrieval.getTextFromMessage E m = Returned userText →
    (∀ params, ∃ e, Retrieval.searchSimilarDocuments E params = Thrown e) →
    retrieval_skipped E message userId approval.

(** The same file system and loaders with another [unlink]. *)
Definition with_unlink {meta} (E : FileExtraction.Env meta)
    (unlink : jsstring → outcome unit) : FileExtraction.Env meta :=
  {| FileExtraction.tempFilePath := FileExtraction.tempFilePath E;
     FileExtraction.writeFile := FileExtraction.writeFile E;
     FileExtraction.loadPdf := FileExtraction.loadPdf E;
     FileExtraction.loadText := FileExtraction.loadText E;
     FileExtraction.unlink := unlink |}.

(** The upload route calls the extractor of [file-extraction.ts] on the file
    system [fs] and keeps the text of its result. *)
Definition extracts_with {vector meta} (E : Upload.Env vector)
    (fs : FileExtraction.Env meta) : Prop :=
  ∀ file mimeType,
    Upload.extractTextFromFile E file mimeType
    = FileExtraction.text
        <$> (FileExtraction.extractTextFromFile fs (Upload.name file) mimeType).2.

End Vocabulary.

Import Vocabulary.

(** ** Further sample collaborators *)

Module MoreSamples.

(** A splitter that cuts the text at every space. *)
Definition space_splitter : TextChunking.splitter :=
  λ _ source, Returned (split_on 0x20 source).

(** An embedding endpoint that answers every request with a single vector. *)
Definition one_vector_endpoint : Embeddings.endpoint nat :=
  λ request,
    Returned {| Embeddings.ok := true; Embeddings.status := 200;
                Embeddings.statusText := lit "OK";
                Embeddings.body := Returned [];
                Embeddings.json := Returned (Some [Embeddings.mkEmbeddingItem 7]) |}.


(** A request environment without an embedding key. *)
Definition keyless_env : Retrieval.Env nat :=
  {| Retrieval.getTextFromMessage := text_of_parts;
     Retrieval.env_key := None;
     Retrieval.fetch := length_endpoint;
     Retrieval.searchSimilarDocuments := λ _, Returned [doc_strong];
     Retrieval.generateUUID := lit "ctx-1" |}.

(** An upload whose collaborators all succeed. *)
Definition smooth_upload_env : Upload.Env nat :=
  {| Upload.session_user := Some (lit "u1");
     Upload.body_is_null := false;
     Upload.formData :=
       Returned (Some {| Upload.name := lit "notes.txt"; Upload.type := lit "text/plain";
                         Upload.size := 23 |});
     Upload.extractTextFromFile := λ _ _, Returned (lit "alpha beta  alpha gamma");
     Upload.put := λ _, Returned (lit "https://blob/notes.txt");
     Upload.generateUUID := lit "doc-2";
     Upload.saveDocument := λ _, Returned ();
     Upload.deleteDocumentEmbeddings := λ _, Returned ();
     Upload.splitText := space_splitter;
     Upload.env_key := Some (lit "key");
     Upload.fetch := length_endpoint;
     Upload.saveDocumentEmbeddings := λ _, Returned ();
     Upload.development := false |}.

Definition smooth_saved : Upload.Saved :=
  {| Upload.saved_id := lit "doc-2"; Upload.saved_title := lit "notes";
     Upload.saved_text := lit "alpha beta  alpha gamma";
     Upload.saved_blobUrl := Some (lit "https://blob/notes.txt") |}.

(** A file system on which writing works, the loaders find one page and the
    temporary file cannot be removed. *)
Definition sticky_fs : FileExtraction.Env unit :=
  {| FileExtraction.tempFilePath := λ fileName, lit "/tmp/upload-0-" ++ fileName;
     FileExtraction.writeFile := λ _, Returned ();
     FileExtraction.loadPdf :=
       λ _, Returned [FileExtraction.mkLoadedDoc (lit "page one") ()];
     FileExtraction.loadText :=
       λ _, Returned [FileExtraction.mkLoadedDoc (lit "plain text") ()];
     FileExtraction.unlink := λ _, Thrown (ErrorObj (lit "EBUSY")) |}.

(** A picture sent under a name that ends in [.pdf]. *)
Definition mislabeled_file : Upload.UploadedFile :=
  {| Upload.name := lit "scan.pdf"; Upload.type := lit "image/png"; Upload.size := 2048 |}.

Definition mislabeled_upload_env : Upload.Env nat :=
  {| Upload.session_user := Some (lit "u1");
     Upload.body_is_null := false;
     Upload.formData := Returned (Some mislabeled_file);
     Upload.extractTextFromFile :=
       λ file mimeType,
         FileExtraction.text
           <$> (FileExtraction.extractTextFromFile sticky_fs (Upload.name file) mimeType).2;
     Upload.put := λ _, Returned (lit "https://blob/scan.pdf");
     Upload.generateUUID := lit "doc-3";
     Upload.saveDocument := λ _, Returned ();
     Upload.deleteDocumentEmbeddings := λ _, Returned ();
     Upload.splitText := space_splitter;
     Upload.env_key := Some (lit "key");
     Upload.fetch := length_endpoint;
     Upload.saveDocumentEmbeddings := λ _, Returned ();
     Upload.development := false |}.

End MoreSamples.

Import MoreSamples.

(** * Properties *)

(** ** The JavaScript helpers on concrete values *)

Module JSFacts.

Example trim_both_ends : trim ([0x0A; 0x20]%N ++ lit "a b" ++ [0x09; 0xA0]%N) = lit "a b".
Proof. reflexivity. Qed.

Example split_join :
  split_on 0x0A (lit "a" ++ [0x0A; 0x0A]%N ++ lit "b") = [lit "a"; []; lit "b"]
  ∧ join [0x0A]%N [lit "a"; []; lit "b"] = lit "a" ++ [0x0A; 0x0A]%N ++ lit "b".
Proof. split; reflexivity. Qed.

Example indexOf_found : indexOf (lit "hello world") (lit "o") 5 = 7%Z.
Proof. reflexivity. Qed.

Example indexOf_missing : indexOf (lit "hello world") (lit "z") 0 = (-1)%Z.
Proof. reflexivity. Qed.

Example indexOf_past_end : indexOf (lit "hello") (lit "l") 99 = (-1)%Z.
Proof. reflexivity. Qed.

Example replace_runs :
  replace_all (run_of (λ c, (c =? 0x2D)%N) 3) (λ _, lit "--") (lit "a-----b--c---")
  = lit "a--b--c--".
Proof. reflexivity. Qed.

(** Three line feeds with blanks between them collapse to two; the blanks
    after the last line feed stay. *)
Example replace_blank_lines :
  replace_all blank_lines (λ _, [0x0A; 0x0A]%N)
    (lit "a" ++ [0x0A; 0x20; 0x0A; 0x0A; 0x20]%N ++ lit "b")
  = lit "a" ++ [0x0A; 0x0A; 0x20]%N ++ lit "b".
Proof. reflexivity. Qed.

Example slice_all_but_last : slice [1; 2; 3] 0 (-1) = [1; 2] ∧ slice (@nil nat) 0 (-1) = [].
Proof. split; reflexivity. Qed.

Example slice_from_tail :
  slice_from [1; 2; 3; 4] (-2) = [3; 4] ∧ slice_from [1; 2] (-10) = [1; 2].
Proof. split; reflexivity. Qed.

Example at_index_outside :
  at_index [Some 1; Some 2] 1 = Some 2
  ∧ at_index [Some 1; Some 2] 2 = None
  ∧ at_index (@nil (option nat)) (-1) = None.
Proof. repeat split; reflexivity. Qed.

Example toFixed0_rounds :
  Retrieval.toFixed0 (905 # 10)%Q = lit "91"
  ∧ Retrieval.toFixed0 (904 # 10)%Q = lit "90"
  ∧ Retrieval.toFixed0 (- (4 # 10))%Q = lit "-0".
Proof. repeat split; vm_compute; reflexivity. Qed.

(** The literal [0.9] and the product [0.9 * 100] as doubles. *)
Example to_double_literal :
  to_double (9 # 10) = (8106479329266893 # 9007199254740992)%Q
  ∧ double_mul (9 # 10) 100 = 90%Q
  ∧ to_double (1 # 2) = (1 # 2)%Q.
Proof. repeat split; vm_compute; reflexivity. Qed.

(** The double product decides the printed percentage near a tie: the
    product for [0.575] lies below 57.5 and the one for [0.615] is 61.5. *)
Example percent_near_tie :
  Retrieval.toFixed0 (double_mul (575 # 1000) 100) = lit "57"
  ∧ Retrieval.toFixed0 (double_mul (615 # 1000) 100) = lit "62"
  ∧ Retrieval.toFixed0 (double_mul (4 # 10) 100) = lit "40".
Proof. repeat split; vm_compute; reflexivity. Qed.

End JSFacts.

(** ** Text cleaning *)

Module TextCleaningFacts.
Import TextCleaning.

Example clean_spaces :
  cleanTextForEmbedding (lit "  a   b  ") = lit "a b".
Proof. vm_compute. reflexivity. Qed.

Example clean_lines :
  cleanTextForEmbedding ([0x61; 0x20; 0x0A; 0x20; 0x0A; 0x0A; 0x0A; 0x09; 0x62])%N
  = [0x61; 0x0A; 0x0A; 0x62]%N.
Proof. vm_compute. reflexivity. Qed.

Example clean_punctuation :
  cleanTextForEmbedding (lit "wait..... ok ----- __x____") = lit "wait... ok -- __x__".
Proof. vm_compute. reflexivity. Qed.

Example clean_query_marks :
  cleanQueryText (lit "what?!?! ") = lit "what?!".
Proof. vm_compute. reflexivity. Qed.

(** C5, at the text "a", space, U+0001, space, "b".  The blanks are
    collapsed before the control character between them is deleted, so one
    pass leaves two adjacent spaces and a second pass collapses them:
    cleaning is not idempotent on this text. *)
Theorem cleanTextForEmbedding_second_pass_differs :
  cleanTextForEmbedding [0x61; 0x20; 0x01; 0x20; 0x62]%N = lit "a  b"
  ∧ cleanTextForEmbedding (cleanTextForEmbedding [0x61; 0x20; 0x01; 0x20; 0x62]%N)
    = lit "a b".
Proof. split; vm_compute; reflexivity. Qed.

(** The same happens around a zero-width space (U+200B). *)
Example cleanTextForEmbedding_zero_width :
  cleanTextForEmbedding [0x61; 0x20; 0x200B; 0x20; 0x62]%N = lit "a  b"
  ∧ cleanTextForEmbedding (lit "a  b") = lit "a b".
Proof. split; vm_compute; reflexivity. Qed.

End TextCleaningFacts.

(** ** Chunking *)

Module TextChunkingFacts.
Import TextChunking.

Lemma find_from_ge pat s pos i : find_from pat s pos = Some i → pos ≤ i.
Proof.
  revert pos. induction s as [|c s IH]; intros pos; simpl.
  - destruct (is_prefix pat []); [intros [= <-]; lia | discriminate].
  - destruct (is_prefix pat (c :: s)); [intros [= <-]; lia |].
    intros H. apply IH in H. lia.
Qed.

(** A match of a non-empty pattern never starts before the requested
    position. *)
Lemma indexOf_ge source pat from :
  0 < length pat → (0 ≤ from)%Z → (0 ≤ indexOf source pat from)%Z →
  (from ≤ indexOf source pat from)%Z.
Proof.
  intros Hpat Hfrom. unfold indexOf.
  destruct (find_from _ _ _) as [i|] eqn:Hfind; [intros _ | lia].
  destruct (decide (Z.to_nat (Z.max 0 from) ≤ length source)) as [Hle|Hgt].
  - apply find_from_ge in Hfind. lia.
  - exfalso. rewrite Nat.min_r in Hfind by lia.
    rewrite drop_all in Hfind. destruct pat; simpl in *; [lia | discriminate].
Qed.

Lemma laid_out_push chunks cur c next :
  laid_out (chunks, cur) →
  (cur ≤ startIndex c)%Z → (startIndex c < endIndex c)%Z → (endIndex c ≤ next)%Z →
  laid_out (chunks ++ [c], next).
Proof.
  intros (Hcur & Hall & Hord) Hstart Hlen Hnext. simpl in *.
  split; [simpl; lia | split; simpl].
  - apply Forall_app. split.
    + eapply Forall_impl; [exact Hall | simpl; intros; lia].
    + constructor; [lia | constructor].
  - intros i j a b Hij Hi Hj.
    destruct (decide (j < length chunks)) as [Hj'|Hj'].
    + rewrite lookup_app_l in Hi, Hj by lia. eauto.
    + rewrite lookup_app_r in Hj by lia.
      destruct (j - length chunks) eqn:Hd; simpl in Hj; [|by destruct n].
      injection Hj as <-.
      rewrite lookup_app_l in Hi by lia.
      rewrite Forall_lookup in Hall. specialize (Hall _ _ Hi). simpl in Hall. lia.
Qed.

Lemma chunk_step_laid_out source st piece :
  laid_out st → laid_out (chunk_step source st piece).
Proof.
  destruct st as [chunks cur]. intros Hst. unfold chunk_step.
  case_bool_decide as Hempty; [exact Hst|].
  assert (0 < length (trim piece)) as Hpos by lia.
  pose proof Hst as (Hcur & _ & _). simpl in Hcur.
  destruct (Z.leb_spec 0 (indexOf source (trim piece) cur)) as [Hfound|Hmissing].
  - pose proof (indexOf_ge source (trim piece) cur Hpos Hcur Hfound).
    eapply laid_out_push; [exact Hst | simpl; lia ..].
  - eapply laid_out_push; [exact Hst | simpl; lia ..].
Qed.

Lemma foldl_laid_out source pieces st :
  laid_out st → laid_out (foldl (chunk_step source) st pieces).
Proof.
  revert st. induction pieces as [|piece pieces IH]; intros st Hst; simpl; [done|].
  apply IH, chunk_step_laid_out, Hst.
Qed.

Lemma laid_out_start : laid_out ([], 0%Z).
Proof.
  split; [simpl; lia | split; [constructor|]].
  intros i j a b _ Hi. simpl in Hi. by rewrite lookup_nil in Hi.
Qed.

(** C6: with [overlap < maxChunkSize], whatever pieces the splitter yields,
    [chunkText] returns chunks that each satisfy [startIndex < endIndex] and
    that are listed in non-decreasing [startIndex] order. *)
Theorem chunkText_indices (splitText : splitter) (source : jsstring)
    (options : ChunkOptions) (pieces : list jsstring) :
  (overlap options < maxChunkSize options)%Z →
  splitText options source = Returned pieces →
  ∃ chunks, chunkText splitText source options = Returned chunks
    ∧ Forall (λ c, (startIndex c < endIndex c)%Z) chunks
    ∧ ∀ i j a b, i ≤ j → chunks !! i = Some a → chunks !! j = Some b →
        (startIndex a ≤ startIndex b)%Z.
Proof.
  intros _ Hsplit. unfold chunkText. rewrite Hsplit. simpl.
  eexists. split; [reflexivity|].
  pose proof (foldl_laid_out source pieces _ laid_out_start) as (_ & Hall & Hord).
  split.
  - eapply Forall_impl; [exact Hall | simpl; intros; lia].
  - intros i j a b Hij Hi Hj.
    destruct (decide (i = j)) as [->|Hne].
    + rewrite Hi in Hj. injection Hj as <-. lia.
    + assert (i < j) as Hlt by lia.
      specialize (Hord _ _ _ _ Hlt Hi Hj).
      rewrite Forall_lookup in Hall. specialize (Hall _ _ Hi). simpl in Hall. lia.
Qed.

Lemma chunkText_indices_witness :
  ∃ chunks,
    chunkText window_splitter (lit "alpha beta gamma") {| maxChunkSize := 6; overlap := 1 |}
    = Returned chunks
    ∧ Forall (λ c, (startIndex c < endIndex c)%Z) chunks
    ∧ ∀ i j a b, i ≤ j → chunks !! i = Some a → chunks !! j = Some b →
        (startIndex a ≤ startIndex b)%Z.
Proof.
  apply (chunkText_indices window_splitter (lit "alpha beta gamma")
           {| maxChunkSize := 6; overlap := 1 |}
           [lit "alpha "; lit "beta g"; lit "amma"]).
  - simpl. lia.
  - reflexivity.
Defined.

Example chunkText_sample :
  chunkText window_splitter (lit "alpha beta gamma") {| maxChunkSize := 6; overlap := 1 |}
  = Returned [mkTextChunk (lit "alpha") 0 5; mkTextChunk (lit "beta g") 6 12;
              mkTextChunk (lit "amma") 12 16].
Proof. vm_compute. reflexivity. Qed.

(** A piece that does not occur in the text is placed at the cursor. *)
Example chunkText_fallback :
  chunkText (λ _ _, Returned [lit "ab"; lit "zz"; lit "cd"]) (lit "ab cd") defaultOptions
  = Returned [mkTextChunk (lit "ab") 0 2; mkTextChunk (lit "zz") 2 4;
              mkTextChunk (lit "cd") 4 6].
Proof. vm_compute. reflexivity. Qed.

End TextChunkingFacts.

(** ** Deduplication of chunks *)

Module DedupFacts.
Import TextChunking Upload.

Lemma same_trimmed_key chunk c : same_trimmed chunk c = bool_decide (key c = key chunk).
Proof. reflexivity. Qed.

Lemma findIndex_from_skip {A} (p : A → bool) pre l i :
  Forall (λ x, p x = false) pre →
  findIndex_from p (pre ++ l) i = findIndex_from p l (i + length pre).
Proof.
  revert i. induction pre as [|x pre IH]; intros i Hall; simpl.
  - f_equal. lia.
  - inversion_clear Hall as [|? ? Hx Hpre]. rewrite Hx, IH by done. f_equal. lia.
Qed.

Lemma findIndex_from_hit {A} (p : A → bool) pre l i :
  Exists (λ x, p x = true) pre →
  (findIndex_from p (pre ++ l) i < Z.of_nat (i + length pre))%Z.
Proof.
  revert i. induction pre as [|x pre IH]; intros i Hex; simpl.
  - inversion Hex.
  - destruct (p x) eqn:Hx; [lia|].
    inversion_clear Hex as [? ? Hx'|? ? Hpre]; [congruence|].
    specialize (IH (S i) Hpre). lia.
Qed.

(** The element at position [length pre] passes the filter exactly when
    its key does not occur in [pre]. *)
Lemma first_index_iff pre c suf :
  Z.of_nat (length pre) = findIndex (same_trimmed c) (pre ++ c :: suf)
  ↔ key c ∉ key <$> pre.
Proof.
  unfold findIndex. split.
  - intros Heq Hin. apply list_elem_of_fmap in Hin as (d & Hd & Hin).
    assert (Exists (λ x, same_trimmed c x = true) pre) as Hex.
    { apply Exists_exists. exists d. split; [done|].
      rewrite same_trimmed_key. by apply bool_decide_eq_true. }
    pose proof (findIndex_from_hit (same_trimmed c) pre (c :: suf) 0 Hex) as Hlt.
    simpl in Hlt. lia.
  - intros Hnot. rewrite findIndex_from_skip.
    + simpl. rewrite same_trimmed_key, bool_decide_true by done. done.
    + apply Forall_forall. intros d Hd. rewrite same_trimmed_key.
      apply bool_decide_eq_false. intros Heq. apply Hnot.
      apply list_elem_of_fmap. eauto.
Qed.

Lemma first_occurrences_ext s1 s2 l :
  (∀ k, k ∈ s1 ↔ k ∈ s2) → first_occurrences s1 l = first_occurrences s2 l.
Proof.
  revert s1 s2. induction l as [|c l IH]; intros s1 s2 Heq; simpl; [done|].
  rewrite (bool_decide_ext _ _ (Heq (key c))).
  case_bool_decide; [by apply IH|]. f_equal. apply IH.
  intros k. rewrite !elem_of_cons. rewrite (Heq k). tauto.
Qed.

Lemma filter_from_first_occurrences pre suf :
  filter_from
    (λ x i, bool_decide (Z.of_nat i = findIndex (same_trimmed x) (pre ++ suf)))
    (length pre) suf
  = first_occurrences (key <$> pre) suf.
Proof.
  revert pre. induction suf as [|c suf IH]; intros pre; simpl; [done|].
  rewrite (bool_decide_ext _ _ (first_index_iff pre c suf)).
  specialize (IH (pre ++ [c])).
  rewrite length_app, <- app_assoc in IH. simpl in IH.
  replace (length pre + 1) with (S (length pre)) in IH by lia.
  rewrite IH. rewrite fmap_app. simpl.
  destruct (decide (key c ∈ key <$> pre)) as [Hin|Hnot].
  - rewrite bool_decide_false, bool_decide_true by tauto.
    apply first_occurrences_ext. intros k. rewrite elem_of_app, list_elem_of_singleton.
    split; [intros [?| ->]; done | tauto].
  - rewrite bool_decide_true, bool_decide_false by tauto. f_equal.
    apply first_occurrences_ext. intros k.
    rewrite elem_of_app, list_elem_of_singleton, elem_of_cons. tauto.
Qed.

(** The filter of the upload route keeps the first occurrence of each key. *)
Lemma uniqueChunks_first_occurrences chunks :
  uniqueChunks chunks = first_occurrences [] chunks.
Proof. exact (filter_from_first_occurrences [] chunks). Qed.

Ltac solve_mem := rewrite ?elem_of_cons in *; intuition congruence.

Lemma filter_cons_key k c l :
  List.filter (λ d, bool_decide (key d = k)) (c :: l)
  = if bool_decide (key c = k) then c :: List.filter (λ d, bool_decide (key d = k)) l
    else List.filter (λ d, bool_decide (key d = k)) l.
Proof. reflexivity. Qed.

Lemma kept_with_first_occurrences k seen l :
  kept_with k (first_occurrences seen l)
  = if bool_decide (k ∈ seen) then 0
    else if bool_decide (k ∈ key <$> l) then 1 else 0.
Proof.
  unfold kept_with. revert seen. induction l as [|c l IH]; intros seen.
  - simpl. by case_bool_decide.
  - rewrite fmap_cons. cbn [first_occurrences].
    destruct (decide (key c ∈ seen)) as [Hc|Hc].
    + rewrite (bool_decide_true (key c ∈ seen)) by done. rewrite IH.
      repeat case_bool_decide; try done; exfalso; solve_mem.
    + rewrite (bool_decide_false (key c ∈ seen)) by done.
      rewrite filter_cons_key.
      destruct (decide (key c = k)) as [Hk|Hk];
        [rewrite (bool_decide_true (key c = k)) by done
        |rewrite (bool_decide_false (key c = k)) by done];
        cbn [length]; rewrite IH.
      * subst k. rewrite (bool_decide_true (key c ∈ key c :: seen)) by solve_mem.
        rewrite (bool_decide_false (key c ∈ seen)) by done.
        rewrite (bool_decide_true (key c ∈ key c :: (key <$> l))) by solve_mem.
        done.
      * repeat case_bool_decide; try done; exfalso; solve_mem.
Qed.

Lemma first_occurrences_sublist seen l : first_occurrences seen l `sublist_of` l.
Proof.
  revert seen. induction l as [|c l IH]; intros seen; simpl; [done|].
  case_bool_decide; [apply sublist_cons | apply sublist_skip]; apply IH.
Qed.

Lemma first_occurrences_fresh seen l c :
  c ∈ first_occurrences seen l → key c ∉ seen.
Proof.
  revert seen. induction l as [|d l IH]; intros seen; simpl.
  - intros Hin. by apply elem_of_nil in Hin.
  - case_bool_decide as Hd; [apply IH|].
    rewrite elem_of_cons. intros [->|Hin]; [done|].
    apply IH in Hin. rewrite elem_of_cons in Hin. tauto.
Qed.

Lemma first_occurrences_NoDup seen l : NoDup (key <$> first_occurrences seen l).
Proof.
  revert seen. induction l as [|c l IH]; intros seen; simpl; [constructor|].
  case_bool_decide; [apply IH|]. simpl. constructor; [|apply IH].
  intros Hin. apply list_elem_of_fmap in Hin as (d & Hkey & Hd).
  apply first_occurrences_fresh in Hd. apply Hd. rewrite Hkey. apply list_elem_of_here.
Qed.

Lemma first_occurrences_keeps_first seen l i c :
  l !! i = Some c → key c ∉ seen →
  (∀ j d, j < i → l !! j = Some d → key d ≠ key c) →
  c ∈ first_occurrences seen l.
Proof.
  revert seen i. induction l as [|d l IH]; intros seen i Hi Hseen Hfirst; [done|].
  simpl. destruct i as [|i]; simpl in Hi.
  - injection Hi as ->. rewrite bool_decide_false by done. apply list_elem_of_here.
  - assert (key d ≠ key c) as Hne by (apply (Hfirst 0 d); [lia | done]).
    case_bool_decide.
    + apply (IH seen i); [done | done |].
      intros j e Hj He. apply (Hfirst (S j) e); [lia | done].
    + apply list_elem_of_further. apply (IH _ i); [done | |].
      * rewrite elem_of_cons. intros [Heq|Hin]; [congruence | done].
      * intros j e Hj He. apply (Hfirst (S j) e); [lia | done].
Qed.

Lemma bool_filter_sublist {A} (p : A → bool) (l : list A) : List.filter p l `sublist_of` l.
Proof.
  induction l as [|x l IH]; simpl; [done|].
  destruct (p x); [by apply sublist_skip | by apply sublist_cons].
Qed.

(** The chunks that reach the embedding call are cleaned copies of kept
    chunks. *)
Lemma cleanedChunks_sources unique :
  ∃ sources, sources `sublist_of` unique
    ∧ cleanedChunks unique = clean_chunk <$> sources.
Proof.
  exists (List.filter (λ chunk, bool_decide (0 < length (text (clean_chunk chunk)))) unique).
  split; [apply bool_filter_sublist|].
  unfold cleanedChunks. apply filter_map_swap.
Qed.

(** C9, amended: after the duplicate filter, every trimmed text of the
    input is carried by exactly one chunk, the first chunk of the input with
    that text is kept, no two kept chunks share a trimmed text, and the kept
    chunks are in input order; the chunks sent on to the embedding call are
    cleaned copies of kept chunks, and it is these kept chunks, before
    cleaning, whose trimmed texts are pairwise different. *)
Theorem uniqueChunks_keeps_first_of_each (chunks : list TextChunk) :
  (∀ c, c ∈ chunks → kept_with (trim (text c)) (uniqueChunks chunks) = 1)
  ∧ (∀ i c, chunks !! i = Some c →
       (∀ j d, j < i → chunks !! j = Some d → trim (text d) ≠ trim (text c)) →
       c ∈ uniqueChunks chunks)
  ∧ NoDup ((λ c, trim (text c)) <$> uniqueChunks chunks)
  ∧ uniqueChunks chunks `sublist_of` chunks
  ∧ ∃ sources, sources `sublist_of` uniqueChunks chunks
      ∧ cleanedChunks (uniqueChunks chunks) = clean_chunk <$> sources
      ∧ NoDup ((λ c, trim (text c)) <$> sources).
Proof.
  assert (NoDup (key <$> uniqueChunks chunks)) as Hnodup.
  { rewrite uniqueChunks_first_occurrences. apply first_occurrences_NoDup. }
  split; [|split; [|split; [exact Hnodup | split]]].
  - intros c Hc. rewrite uniqueChunks_first_occurrences.
    change (trim (text c)) with (key c).
    rewrite kept_with_first_occurrences.
    rewrite bool_decide_false by apply not_elem_of_nil.
    rewrite bool_decide_true; [done|]. apply list_elem_of_fmap. eauto.
  - intros i c Hi Hfirst. rewrite uniqueChunks_first_occurrences.
    eapply first_occurrences_keeps_first; eauto. apply not_elem_of_nil.
  - rewrite uniqueChunks_first_occurrences. apply first_occurrences_sublist.
  - destruct (cleanedChunks_sources (uniqueChunks chunks)) as (sources & Hsub & Heq).
    exists sources. split; [done | split; [done|]].
    eapply sublist_NoDup; [exact Hnodup|]. by apply fmap_sublist.
Qed.

(** C9 as stated fails for the texts handed to the embedding call: the
    second and third of the three chunks have the same trimmed text and the
    filter keeps one of them, yet cleaning runs after the filter and turns
    the tab of the first chunk into a space, so the two texts passed to
    [generateEmbeddings] are both [a b]. *)
Lemma cleaned_chunks_repeat_text :
  (∃ i j c d, i < j ∧ tabbed_chunks !! i = Some c ∧ tabbed_chunks !! j = Some d
              ∧ trim (text c) = trim (text d))
  ∧ uniqueChunks tabbed_chunks
    = [mkTextChunk [0x61; 0x09; 0x62]%N 0 3; mkTextChunk (lit "a b") 4 7]
  ∧ text <$> cleanedChunks (uniqueChunks tabbed_chunks) = [lit "a b"; lit "a b"]
  ∧ ¬ NoDup ((λ c, trim (text c)) <$> cleanedChunks (uniqueChunks tabbed_chunks)).
Proof.
  split.
  { exists 1, 2, (mkTextChunk (lit "a b") 4 7), (mkTextChunk (lit "a b") 8 11).
    split; [lia|]. by repeat split. }
  split; [vm_compute; reflexivity|]. split; [vm_compute; reflexivity|].
  assert ((λ c, trim (text c)) <$> cleanedChunks (uniqueChunks tabbed_chunks)
          = [lit "a b"; lit "a b"]) as -> by (vm_compute; reflexivity).
  intros Hnodup. apply NoDup_cons in Hnodup as [Hfresh _].
  apply Hfresh. apply list_elem_of_here.
Qed.

(** Cleaning runs after the filter and may still map two kept chunks to one
    text: a tab and a space both become a space. *)
Example cleaning_can_merge_kept_chunks :
  uniqueChunks [mkTextChunk [0x61; 0x09; 0x62]%N 0 3; mkTextChunk (lit "a b") 10 13]
  = [mkTextChunk [0x61; 0x09; 0x62]%N 0 3; mkTextChunk (lit "a b") 10 13]
  ∧ text <$> cleanedChunks
               [mkTextChunk [0x61; 0x09; 0x62]%N 0 3; mkTextChunk (lit "a b") 10 13]
    = [lit "a b"; lit "a b"].
Proof. split; vm_compute; reflexivity. Qed.

Example uniqueChunks_sample :
  uniqueChunks [mkTextChunk (lit "intro") 0 5; mkTextChunk (lit "body") 6 10;
                mkTextChunk (lit "intro") 11 16]
  = [mkTextChunk (lit "intro") 0 5; mkTextChunk (lit "body") 6 10].
Proof. vm_compute. reflexivity. Qed.

End DedupFacts.

(** ** Embedding batches *)

Module EmbeddingsFacts.
Import Embeddings.

Section Windows.
Context {A : Type}.
Implicit Types l : list A.

Lemma windows_fuel_enough n l f1 f2 :
  0 < n → length l ≤ f1 → length l ≤ f2 →
  windows_fuel f1 n l = windows_fuel f2 n l.
Proof.
  intros Hn. revert l f2. induction f1 as [|f1 IH]; intros l f2 H1 H2.
  - destruct l; [by destruct f2 | simpl in H1; lia].
  - destruct l as [|x l]; [by destruct f2|].
    destruct f2 as [|f2]; [simpl in H2; lia|].
    simpl. f_equal. apply IH; rewrite length_drop; simpl in *; lia.
Qed.

Lemma windows_nil n : windows n (@nil A) = [].
Proof. reflexivity. Qed.

Lemma windows_step n l :
  0 < n → 0 < length l → windows n l = take n l :: windows n (drop n l).
Proof.
  intros Hn Hl. unfold windows. destruct l as [|x l]; [simpl in Hl; lia|].
  cbn [length windows_fuel]. f_equal.
  apply windows_fuel_enough; [done | rewrite length_drop; simpl; lia | done].
Qed.

(** Strong induction along the windows of a list. *)
Lemma windows_ind n (Hn : 0 < n) (P : list A → Prop) :
  P [] → (∀ l, 0 < length l → P (drop n l) → P l) → ∀ l, P l.
Proof.
  intros Hnil Hstep l.
  remember (length l) as m eqn:Hm. revert l Hm.
  induction m as [m IH] using lt_wf_ind. intros l ->.
  destruct l as [|x l]; [done|].
  apply Hstep; [simpl; lia|].
  eapply IH; [|reflexivity]. rewrite length_drop. simpl. lia.
Qed.

Lemma windows_concat n l : 0 < n → concat (windows n l) = l.
Proof.
  intros Hn. induction l as [|l Hl IH] using (windows_ind n Hn); [done|].
  rewrite windows_step by done. simpl. rewrite IH. apply take_drop.
Qed.

Lemma windows_sizes n l :
  0 < n → Forall (λ w, 0 < length w ≤ n) (windows n l).
Proof.
  intros Hn. induction l as [|l Hl IH] using (windows_ind n Hn); [constructor|].
  rewrite windows_step by done. constructor; [|done].
  rewrite length_take. lia.
Qed.

(** Every window but the last is full. *)
Lemma windows_full n l k w :
  0 < n → windows n l !! k = Some w → S k < length (windows n l) → length w = n.
Proof.
  intros Hn. revert k. induction l as [|l Hl IH] using (windows_ind n Hn); [done|].
  intros k. rewrite windows_step by done. destruct k as [|k]; simpl.
  - intros [= <-] Hmore. rewrite length_take.
    destruct (decide (n < length l)); [lia|].
    rewrite drop_ge in Hmore by lia. simpl in Hmore. lia.
  - intros Hk Hmore. apply (IH k); [done | lia].
Qed.

Lemma windows_count n l :
  0 < n → length (windows n l) = (length l + n - 1) / n.
Proof.
  intros Hn. induction l as [|l Hl IH] using (windows_ind n Hn).
  - simpl. symmetry. apply Nat.div_small. lia.
  - rewrite windows_step by done. simpl. rewrite IH, length_drop.
    destruct (decide (n ≤ length l)) as [Hle|Hgt].
    + replace (length l + n - 1) with ((length l - n + n - 1) + 1 * n) by lia.
      rewrite Nat.div_add by lia. lia.
    + replace (length l - n) with 0 by lia. simpl.
      rewrite (Nat.div_small (n - 1)) by lia.
      replace (length l + n - 1) with ((length l - 1) + 1 * n) by lia.
      rewrite Nat.div_add by lia. rewrite Nat.div_small by lia. done.
Qed.

End Windows.

Section Batches.
Context {vector : Type}.
Implicit Types (fetch : endpoint vector) (E : jsstring → vector).

Lemma embed_loop_unfold apiKey fetch texts i acc sent :
  embed_loop apiKey fetch texts i acc sent =
  if decide (i < length texts) then
    let batch := take BATCH_SIZE (drop i texts) in
    let request := batch_request apiKey batch in
    match fetch request with
    | Thrown e => (sent ++ [request], Thrown e)
    | Returned response =>
        if negb (ok response) then
          (sent ++ [request],
           errorText ← body response; throw_error (api_error response errorText))
        else
          match json response with
          | Thrown e => (sent ++ [request], Thrown e)
          | Returned None => (sent ++ [request], throw_error invalid_response)
          | Returned (Some items) =>
              embed_loop apiKey fetch texts (i + BATCH_SIZE)
                (acc ++ (embedding <$> items)) (sent ++ [request])
          end
    end
  else (sent, Returned acc).
Proof.
  rewrite embed_loop_equation_1. unfold embed_loop_unfold_clause_1.
  destruct (decide (i < length texts)); reflexivity.
Qed.

Lemma embed_loop_answers apiKey fetch E texts :
  answers_in_order fetch E →
  ∀ rest i acc sent, rest = drop i texts →
    embed_loop apiKey fetch texts i acc sent
    = (sent ++ (batch_request apiKey <$> windows BATCH_SIZE rest),
       Returned (acc ++ (E <$> rest))).
Proof.
  intros Hfetch rest.
  assert (0 < BATCH_SIZE) as Hn by (unfold BATCH_SIZE; lia).
  induction rest as [|rest Hlen IH] using (windows_ind BATCH_SIZE Hn);
    intros i acc sent Hrest.
  - rewrite embed_loop_unfold.
    assert (length texts ≤ i) as Hi.
    { apply (f_equal length) in Hrest. rewrite length_drop in Hrest. simpl in Hrest. lia. }
    rewrite decide_False by lia. rewrite windows_nil. simpl. by rewrite !app_nil_r.
  - rewrite embed_loop_unfold.
    assert (i < length texts) as Hi.
    { rewrite Hrest, length_drop in Hlen. lia. }
    rewrite decide_True by done. cbn zeta.
    destruct (Hfetch (batch_request apiKey (take BATCH_SIZE (drop i texts)))
                (take BATCH_SIZE (drop i texts)) eq_refl)
      as (response & -> & Hok & Hjson).
    rewrite Hok, Hjson. cbn [negb].
    rewrite (IH (i + BATCH_SIZE)) by (rewrite Hrest, drop_drop; done).
    rewrite (windows_step BATCH_SIZE rest) by done.
    rewrite fmap_cons, <- !app_assoc. cbn [app]. rewrite <- Hrest. f_equal.
    f_equal. rewrite <- list_fmap_compose.
    rewrite <- (take_drop BATCH_SIZE rest) at 3. rewrite fmap_app. done.
Qed.

Lemma windows_130 (texts : list jsstring) :
  length texts = 130 →
  windows BATCH_SIZE texts = [take 64 texts; take 64 (drop 64 texts); drop 128 texts].
Proof.
  intros Hlen. unfold BATCH_SIZE.
  rewrite windows_step by lia.
  rewrite (windows_step 64 (drop 64 texts)) by (rewrite ?length_drop; lia).
  rewrite drop_drop. change (64 + 64) with 128.
  rewrite (windows_step 64 (drop 128 texts)) by (rewrite ?length_drop; lia).
  rewrite (take_ge (drop 128 texts)) by (rewrite length_drop; lia).
  rewrite drop_drop, (drop_ge texts (128 + 64)) by lia. done.
Qed.

(** C4: against an endpoint that answers each batch in request order,
    [generateEmbeddings] sends one request per window of at most 64 texts,
    the windows being consecutive and covering the input, and returns the
    vectors of the texts in input order; 130 texts make 3 requests of 64, 64
    and 2 texts and yield 130 vectors. *)
Theorem generateEmbeddings_batches (apiKey : jsstring) fetch E (texts : list jsstring) :
  0 < length apiKey →
  answers_in_order fetch E →
  ∃ vectors,
    generateEmbeddings_log (Some apiKey) fetch texts
      = (batch_request apiKey <$> windows BATCH_SIZE texts, Returned vectors)
    ∧ generateEmbeddings (Some apiKey) fetch texts = Returned vectors
    ∧ vectors = E <$> texts
    ∧ concat (windows BATCH_SIZE texts) = texts
    ∧ Forall (λ w, 0 < length w ≤ 64) (windows BATCH_SIZE texts)
    ∧ (∀ k w, windows BATCH_SIZE texts !! k = Some w →
         S k < length (windows BATCH_SIZE texts) → length w = 64)
    ∧ (length texts = 130 →
         length (batch_request apiKey <$> windows BATCH_SIZE texts) = 3
         ∧ length <$> windows BATCH_SIZE texts = [64; 64; 2]
         ∧ length vectors = 130).
Proof.
  intros Hkey Hfetch.
  assert (0 < BATCH_SIZE) as Hn by (unfold BATCH_SIZE; lia).
  assert (generateEmbeddings_log (Some apiKey) fetch texts
          = (batch_request apiKey <$> windows BATCH_SIZE texts, Returned (E <$> texts)))
    as Hlog.
  { unfold generateEmbeddings_log. destruct apiKey as [|c apiKey]; [simpl in Hkey; lia|].
    rewrite (embed_loop_answers _ fetch E texts Hfetch texts 0 [] []) by done.
    done. }
  exists (E <$> texts). repeat split.
  - exact Hlog.
  - unfold generateEmbeddings. by rewrite Hlog.
  - by apply windows_concat.
  - by apply (windows_sizes BATCH_SIZE).
  - intros k w. by apply (windows_full BATCH_SIZE).
  - rewrite length_fmap, windows_130 by done. done.
  - rewrite windows_130 by done. simpl.
    rewrite !length_take, !length_drop. repeat f_equal; lia.
  - rewrite length_fmap. done.
Qed.

End Batches.

Lemma generateEmbeddings_batches_witness :
  length (numbered_texts 130) = 130
  ∧ ∃ vectors,
      generateEmbeddings_log (Some (lit "key")) length_endpoint (numbered_texts 130)
        = (batch_request (lit "key") <$> windows BATCH_SIZE (numbered_texts 130),
           Returned vectors)
      ∧ vectors = length <$> numbered_texts 130
      ∧ length (batch_request (lit "key") <$> windows BATCH_SIZE (numbered_texts 130)) = 3
      ∧ length <$> windows BATCH_SIZE (numbered_texts 130) = [64; 64; 2]
      ∧ length vectors = 130.
Proof.
  split; [reflexivity|].
  destruct (generateEmbeddings_batches (lit "key") length_endpoint length
              (numbered_texts 130))
    as (vectors & Hlog & _ & Hvectors & _ & _ & _ & H130).
  - simpl. lia.
  - intros request batch Hinput. eexists. unfold length_endpoint. rewrite Hinput.
    split; [reflexivity | split; reflexivity].
  - exists vectors. destruct (H130 eq_refl) as (Hcalls & Hsizes & Hlen).
    repeat split; assumption.
Defined.

Example generateEmbeddings_130_calls :
  length (generateEmbeddings_log (Some (lit "key")) length_endpoint (numbered_texts 130)).1 = 3.
Proof. vm_compute. reflexivity. Qed.

End EmbeddingsFacts.

(** ** Query rewriter *)

Module QueryRewriterFacts.
Import QueryRewriter.

Section Rewriter.

Variable getTextFromMessage : ChatMessage → outcome jsstring.
Variable systemPrompt historyHeader queryHeader : jsstring.
Variable instructionWithHistory instructionAlone : jsstring.
Variable typeErrorMessage : ChatJson → jsstring.

#[local] Abbreviation rewriteQuery :=
  (rewriteQuery getTextFromMessage systemPrompt historyHeader queryHeader
     instructionWithHistory instructionAlone typeErrorMessage).
#[local] Abbreviation rewrite_body :=
  (rewrite_body getTextFromMessage systemPrompt historyHeader queryHeader
     instructionWithHistory instructionAlone typeErrorMessage).
#[local] Abbreviation upstream_fails := (upstream_fails typeErrorMessage).
#[local] Abbreviation rewrite_request :=
  (rewrite_request systemPrompt historyHeader queryHeader
     instructionWithHistory instructionAlone).
#[local] Abbreviation recentHistory := (recentHistory getTextFromMessage).

Lemma rewriteQuery_with_key c apiKey fetch currentQuery history maxHistory :
  rewriteQuery (Some (c :: apiKey)) fetch currentQuery history maxHistory
  = try_catch (rewrite_body (c :: apiKey) fetch currentQuery history maxHistory)
      (λ e, mret (fallback currentQuery (message_or unknown_error e))).
Proof. reflexivity. Qed.

(** The [try] block throws the error the failure is reported with. *)
Lemma rewrite_body_fails apiKey fetch currentQuery conversation maxHistory history err :
  recentHistory conversation maxHistory = Returned history →
  upstream_fails fetch (rewrite_request apiKey history currentQuery) err →
  ∃ e, rewrite_body apiKey fetch currentQuery conversation maxHistory = Thrown e
       ∧ message_or unknown_error e = err.
Proof.
  intros Hhistory Hfails. unfold QueryRewriter.rewrite_body.
  rewrite Hhistory. cbn [mbind outcome_bind].
  destruct Hfails as [e Hf|r t Hf Hok Hbody|r e Hf Hok Hbody|r e Hf Hok Hjson
                     |r Hf Hok Hjson|r Hf Hok Hjson|r Hf Hok Hjson|r rest Hf Hok Hjson];
    rewrite Hf; cbn [mbind outcome_bind]; rewrite ?Hok; cbn [negb];
    rewrite ?Hbody, ?Hjson; cbn [mbind outcome_bind message_content];
    eexists; split; reflexivity.
Qed.

(** C3: [rewriteQuery] always returns; without a credential, and whenever
    the completion call fails, the result keeps the original query, has
    [success] false and carries the error text of the failure. *)
Theorem rewriteQuery_fails_open (env_key : option jsstring) (fetch : endpoint)
    (currentQuery : jsstring) (conversation : list ChatMessage) (maxHistory : Z) :
  (∃ result, rewriteQuery env_key fetch currentQuery conversation maxHistory
             = Returned result
             ∧ originalQuery result = currentQuery)
  ∧ (truthy env_key = false →
     rewriteQuery env_key fetch currentQuery conversation maxHistory
     = Returned {| originalQuery := currentQuery; rewrittenQuery := currentQuery;
                   success := false; error := Some key_missing |})
  ∧ (∀ apiKey history err,
       env_key = Some apiKey → 0 < length apiKey →
       recentHistory conversation maxHistory = Returned history →
       upstream_fails fetch (rewrite_request apiKey history currentQuery) err →
       rewriteQuery env_key fetch currentQuery conversation maxHistory
       = Returned {| originalQuery := currentQuery; rewrittenQuery := currentQuery;
                     success := false; error := Some err |})
  ∧ (∀ apiKey e,
       env_key = Some apiKey → 0 < length apiKey →
       recentHistory conversation maxHistory = Thrown e →
       rewriteQuery env_key fetch currentQuery conversation maxHistory
       = Returned {| originalQuery := currentQuery; rewrittenQuery := currentQuery;
                     success := false; error := Some (message_or unknown_error e) |}).
Proof.
  repeat split.
  - destruct env_key as [[|c apiKey]|]; [by eexists | | by eexists].
    rewrite rewriteQuery_with_key. unfold try_catch.
    destruct (rewrite_body _ _ _ _ _) as [result|e] eqn:Hbody; [|by eexists].
    exists result. split; [done|].
    unfold QueryRewriter.rewrite_body in Hbody.
    destruct (recentHistory _ _); cbn [mbind outcome_bind] in Hbody; [|done].
    destruct (fetch _) as [r|]; cbn [mbind outcome_bind] in Hbody; [|done].
    destruct (ok r); cbn [negb] in Hbody.
    + destruct (json r) as [[|[[|[[raw|]] ?]|]]|]; cbn [mbind outcome_bind] in Hbody;
        try done.
      cbn [message_content] in Hbody.
      repeat case_bool_decide; by injection Hbody as <-.
    + by destruct (body r).
  - intros Hkey. by destruct env_key as [[|c apiKey]|].
  - intros apiKey history err -> Hkey Hhistory Hfails.
    destruct apiKey as [|c apiKey]; [simpl in Hkey; lia|].
    rewrite rewriteQuery_with_key.
    destruct (rewrite_body_fails _ _ _ _ _ _ _ Hhistory Hfails) as (e & -> & <-).
    reflexivity.
  - intros apiKey e -> Hkey Hhistory.
    destruct apiKey as [|c apiKey]; [simpl in Hkey; lia|].
    rewrite rewriteQuery_with_key. unfold QueryRewriter.rewrite_body.
    rewrite Hhistory. reflexivity.
Qed.

(** C8, amended: a rewrite whose trimmed text is non-empty and longer than
    five times the query is rejected; the original query is kept, with
    [success] false. *)
Theorem rewriteQuery_rejects_long (apiKey : jsstring) (fetch : endpoint)
    (currentQuery : jsstring) (conversation : list ChatMessage) (maxHistory : Z)
    (history : list HistoryEntry) (response : ChatResponse) (raw : jsstring)
    (rest : list Choice) :
  0 < length apiKey →
  recentHistory conversation maxHistory = Returned history →
  fetch (rewrite_request apiKey history currentQuery) = Returned response →
  ok response = true →
  json response = Returned (JsonObject (Some (mkChoice (Some raw) :: rest))) →
  0 < length (trim raw) →
  5 * length currentQuery < length (trim raw) →
  rewriteQuery (Some apiKey) fetch currentQuery conversation maxHistory
  = Returned {| originalQuery := currentQuery; rewrittenQuery := currentQuery;
                success := false; error := Some too_long |}.
Proof.
  intros Hkey Hhistory Hfetch Hok Hjson Hnonempty Hlong.
  destruct apiKey as [|c apiKey]; [simpl in Hkey; lia|].
  rewrite rewriteQuery_with_key. unfold QueryRewriter.rewrite_body.
  rewrite Hhistory. cbn [mbind outcome_bind]. rewrite Hfetch. cbn [mbind outcome_bind].
  rewrite Hok. cbn [negb]. rewrite Hjson. cbn [mbind outcome_bind message_content].
  rewrite bool_decide_false by lia. rewrite bool_decide_true by lia. reflexivity.
Qed.

End Rewriter.

Lemma rewriteQuery_fails_open_witness :
  sample_rewriteQuery (Some (lit "key")) unreachable (lit "what is it?") [] 5
  = Returned {| originalQuery := lit "what is it?"; rewrittenQuery := lit "what is it?";
                success := false; error := Some (lit "fetch failed") |}.
Proof.
  destruct (rewriteQuery_fails_open text_of_parts (lit "system") (lit "history")
              (lit "query") (lit "rewrite with history") (lit "rewrite") v8_type_error
              (Some (lit "key")) unreachable (lit "what is it?") [] 5)
    as (_ & _ & Hfails & _).
  apply (Hfails (lit "key") [] (lit "fetch failed") eq_refl).
  - simpl. lia.
  - reflexivity.
  - exact (fails_network v8_type_error unreachable _ (ErrorObj (lit "fetch failed")) eq_refl).
Defined.

(** A body that cannot be read is reported with the engine's message. *)
Example rewriteQuery_reports_type_error :
  sample_rewriteQuery (Some (lit "key")) (answering_body JsonNull) (lit "hi") [] 5
  = Returned (fallback (lit "hi")
                (lit "Cannot read properties of null (reading 'choices')"))
  ∧ sample_rewriteQuery (Some (lit "key"))
      (answering_body (JsonObject (Some [mkChoice None]))) (lit "hi") [] 5
    = Returned (fallback (lit "hi")
                  (lit "Cannot read properties of undefined (reading 'trim')")).
Proof. split; vm_compute; reflexivity. Qed.

(** A 120-unit answer to a 20-unit query. *)
Lemma rewriteQuery_rejects_long_witness :
  length (lit "what about the rest?") = 20
  ∧ length (replicate 120 0x78%N) = 120
  ∧ sample_rewriteQuery (Some (lit "key")) (answering (replicate 120 0x78%N))
      (lit "what about the rest?") [] 5
    = Returned {| originalQuery := lit "what about the rest?";
                  rewrittenQuery := lit "what about the rest?";
                  success := false; error := Some too_long |}.
Proof.
  split; [reflexivity | split; [reflexivity|]].
  eapply (rewriteQuery_rejects_long text_of_parts (lit "system") (lit "history")
            (lit "query") (lit "rewrite with history") (lit "rewrite") v8_type_error
            (lit "key") (answering (replicate 120 0x78%N)) (lit "what about the rest?")
            [] 5 [] _ (replicate 120 0x78%N) []).
  - simpl. lia.
  - reflexivity.
  - reflexivity.
  - reflexivity.
  - reflexivity.
  - vm_compute. lia.
  - vm_compute. lia.
Defined.

(** C8 as stated fails when the length is taken on the answer as received:
    the 11-unit answer "Hi there" followed by three line feeds is longer
    than five times the 2-unit query "hi", yet its trimmed text is within
    the bound and is accepted. *)
Lemma rewriteQuery_accepts_padded_answer :
  0 < length (lit "Hi there" ++ [0x0A; 0x0A; 0x0A]%N)
  ∧ 5 * length (lit "hi") < length (lit "Hi there" ++ [0x0A; 0x0A; 0x0A]%N)
  ∧ sample_rewriteQuery (Some (lit "key"))
      (answering (lit "Hi there" ++ [0x0A; 0x0A; 0x0A]%N)) (lit "hi") [] 5
    = Returned {| originalQuery := lit "hi"; rewrittenQuery := lit "Hi there";
                  success := true; error := None |}
  ∧ ¬ ∃ err,
        sample_rewriteQuery (Some (lit "key"))
          (answering (lit "Hi there" ++ [0x0A; 0x0A; 0x0A]%N)) (lit "hi") [] 5
        = Returned {| originalQuery := lit "hi"; rewrittenQuery := lit "hi";
                      success := false; error := Some err |}.
Proof.
  split; [simpl; lia | split; [simpl; lia | split; [reflexivity|]]].
  intros [err Herr]. vm_compute in Herr. discriminate Herr.
Qed.

End QueryRewriterFacts.

(** ** Context retrieval *)

Module RetrievalFacts.
Import Retrieval.

Section Orchestrator.
Context {vector : Type}.
Implicit Types (E : Env vector) (uiMessages : messages) (m : ChatMessage).

(** *** Splicing *)

Lemma slice_drop_last {A} (l : list A) : slice l 0 (-1) = take (length l - 1) l.
Proof.
  unfold slice, clamp_index. simpl.
  replace (Z.to_nat (Z.max 0 (Z.of_nat (length l) + -1))) with (length l - 1) by lia.
  rewrite Nat.sub_0_r. done.
Qed.

Lemma insert_before_last_snoc (l : messages) (x : option ChatMessage) m :
  insert_before_last (l ++ [x]) m = l ++ [Some m; x].
Proof.
  unfold insert_before_last. rewrite slice_drop_last, length_app. simpl.
  replace (length l + 1 - 1) with (length l) by lia.
  rewrite take_app_length. f_equal. f_equal. f_equal.
  unfold at_index. destruct (Z.ltb_spec (Z.of_nat (length l + 1) - 1) 0); [lia|].
  replace (Z.to_nat (Z.of_nat (length l + 1) - 1)) with (length l + 0) by lia.
  rewrite lookup_app_r by lia. replace (length l + 0 - length l) with 0 by lia. done.
Qed.

Lemma insert_before_last_nonempty uiMessages m :
  uiMessages ≠ [] →
  insert_before_last uiMessages m
  = take (length uiMessages - 1) uiMessages ++ [Some m]
    ++ drop (length uiMessages - 1) uiMessages.
Proof.
  intros Hne. destruct (decide (uiMessages = [])) as [|_]; [done|].
  assert (∃ l x, uiMessages = l ++ [x]) as (l & x & ->).
  { destruct uiMessages as [|y l] using rev_ind; [done | eauto]. }
  rewrite insert_before_last_snoc, length_app. simpl.
  replace (length l + 1 - 1) with (length l) by lia.
  rewrite take_app_length, drop_app_length. done.
Qed.

(** On an empty array the spliced array holds the new message and an
    [undefined] element. *)
Lemma insert_before_last_empty m : insert_before_last [] m = [Some m; None].
Proof. reflexivity. Qed.

(** *** Filtering and ordering *)

Lemma insert_by_elem_of (d x : RetrievedDocument) l :
  d ∈ insert_by (λ a b, similarity b - similarity a)%Q x l ↔ d = x ∨ d ∈ l.
Proof.
  induction l as [|y l IH]; simpl.
  - rewrite list_elem_of_singleton. rewrite elem_of_nil. tauto.
  - destruct (Qle_bool _ _); rewrite !elem_of_cons; [tauto|]. rewrite IH. tauto.
Qed.

Lemma insert_by_sorted x l :
  sorted_from l → sorted_from (insert_by (λ a b, similarity b - similarity a)%Q x l).
Proof.
  unfold sorted_from. induction 1 as [|y l Hsorted IH Hall]; simpl.
  - repeat constructor.
  - destruct (Qle_bool (similarity y - similarity x) 0) eqn:Hcmp.
    + apply Qle_bool_iff in Hcmp.
      assert (similarity y <= similarity x)%Q as Hyx.
      { apply (Qplus_le_l _ _ (- similarity x)). rewrite Qplus_opp_r. exact Hcmp. }
      constructor; [by constructor|]. constructor; [done|].
      eapply Forall_impl; [exact Hall|]. simpl. intros z Hz. by eapply Qle_trans.
    + assert (similarity x <= similarity y)%Q as Hxy.
      { apply Qlt_le_weak, Qnot_le_lt. intros Hle.
        assert (Qle_bool (similarity y - similarity x) 0 = true); [|congruence].
        apply Qle_bool_iff. apply (Qplus_le_l _ _ (similarity x)).
        ring_simplify. exact Hle. }
      constructor; [done|]. apply Forall_forall. intros z Hz.
      apply insert_by_elem_of in Hz as [->|Hz]; [done|].
      rewrite Forall_forall in Hall. by apply Hall.
Qed.

Lemma sort_by_sorted l : sorted_from (sort_by (λ a b, similarity b - similarity a)%Q l).
Proof. induction l; simpl; [constructor | by apply insert_by_sorted]. Qed.

Lemma sort_by_elem_of d l :
  d ∈ sort_by (λ a b, similarity b - similarity a)%Q l ↔ d ∈ l.
Proof.
  induction l as [|x l IH]; simpl; [done|].
  rewrite insert_by_elem_of, elem_of_cons, IH. done.
Qed.

Lemma sorted_from_descending docs : sorted_from docs → descending docs.
Proof.
  unfold sorted_from, descending. induction 1 as [|x l Hsorted IH Hall].
  - intros i j a b _ Hi. by rewrite lookup_nil in Hi.
  - intros [|i] [|j] a b Hij Hi Hj; simpl in *.
    + injection Hi as <-. injection Hj as <-. apply Qle_refl.
    + injection Hi as <-. rewrite Forall_forall in Hall. apply Hall.
      eapply list_elem_of_lookup_2, Hj.
    + lia.
    + apply (IH i j); [lia | done | done].
Qed.

(** The documents shown to the model are those at or above the floor, in
    descending order of similarity. *)
Lemma high_quality_spec floor docs :
  descending (high_quality floor docs)
  ∧ ∀ d, d ∈ high_quality floor docs ↔ d ∈ docs ∧ (floor <= similarity d)%Q.
Proof.
  split.
  - apply sorted_from_descending, sort_by_sorted.
  - intros d. unfold high_quality. rewrite sort_by_elem_of.
    rewrite !list_elem_of_In, filter_In, Qle_bool_iff. done.
Qed.

(** *** What the two retrieval steps can return *)

Lemma POST_retrieval_shape E message sessionUserId approval uiMessages :
  (POST_retrieval E message sessionUserId approval uiMessages).1 = uiMessages
  ∨ ∃ params results,
      searchSimilarDocuments E params = Returned results
      ∧ 0 < length (high_quality (6 # 10) results)
      ∧ (POST_retrieval E message sessionUserId approval uiMessages).1
        = insert_before_last uiMessages
            (documentsMessage E user (high_quality (6 # 10) results)).
Proof.
  unfold POST_retrieval.
  destruct message as [m|]; [|by left].
  destruct sessionUserId as [[|c uid]|]; [by left | | by left].
  destruct (is_user (Some m) && negb approval); [|by left].
  unfold POST_try.
  destruct (getTextFromMessage E m) as [userText|]; cbn [mbind outcome_bind]; [|by left].
  destruct (non_blank userText); [|by left].
  destruct (non_blank (TextCleaning.cleanQueryText userText)); [|by left].
  destruct (Embeddings.generateEmbedding _ _ _) as [queryEmbedding|];
    cbn [mbind outcome_bind]; [|by left].
  destruct (searchSimilarDocuments E _) as [results|] eqn:Hsearch;
    cbn [mbind outcome_bind]; [|by left].
  destruct (bool_decide (0 < length _)); [|by left].
  destruct (bool_decide (0 < length (high_quality _ _))) eqn:Hkept; [|by left].
  apply bool_decide_eq_true in Hkept.
  right. eexists _, results. split; [exact Hsearch|]. split; [exact Hkept | done].
Qed.

Lemma retrieveRelevantContext_shape E message uiMessages userId approval :
  updatedMessages (retrieveRelevantContext E message uiMessages userId approval)
  = uiMessages
  ∨ ∃ params results,
      searchSimilarDocuments E params = Returned results
      ∧ 0 < length (high_quality 0 (with_title <$> results))
      ∧ updatedMessages (retrieveRelevantContext E message uiMessages userId approval)
        = insert_before_last uiMessages
            (documentsMessage E system (high_quality 0 (with_title <$> results))).
Proof.
  unfold retrieveRelevantContext.
  destruct message as [m|]; [|by left].
  destruct userId as [[|c uid]|]; [by left | | by left].
  destruct (is_user (Some m) && negb approval); [|by left].
  unfold retrieve_try.
  destruct (getTextFromMessage E m) as [userText|]; cbn [mbind outcome_bind]; [|by left].
  destruct (non_blank userText); [|by left].
  destruct (non_blank (TextCleaning.cleanQueryText userText)); [|by left].
  destruct (Embeddings.generateEmbedding _ _ _) as [queryEmbedding|];
    cbn [mbind outcome_bind]; [|by left].
  destruct (searchSimilarDocuments E _) as [results|] eqn:Hsearch;
    cbn [mbind outcome_bind]; [|by left].
  destruct (bool_decide (0 < length _)); [|by left].
  destruct (bool_decide (0 < length (high_quality _ _))) eqn:Hkept; [|by left].
  apply bool_decide_eq_true in Hkept.
  right. eexists _, results. split; [exact Hsearch|]. split; [exact Hkept | done].
Qed.




Lemma retrieveRelevantContext_preserved E message uiMessages userId approval :
  uiMessages ≠ [] →
  updatedMessages (retrieveRelevantContext E message uiMessages userId approval)
  = uiMessages
  ∨ ∃ context,
      updatedMessages (retrieveRelevantContext E message uiMessages userId approval)
      = take (length uiMessages - 1) uiMessages ++ [Some context]
        ++ drop (length uiMessages - 1) uiMessages.
Proof.
  intros Hne.
  destruct (retrieveRelevantContext_shape E message uiMessages userId approval)
    as [Hsame|(params & results & _ & _ & ->)]; [by left | right].
  eexists. by apply insert_before_last_nonempty.
Qed.

Lemma POST_retrieval_preserved E message uiMessages userId approval :
  uiMessages ≠ [] →
  (POST_retrieval E message userId approval uiMessages).1 = uiMessages
  ∨ ∃ context,
      (POST_retrieval E message userId approval uiMessages).1
      = take (length uiMessages - 1) uiMessages ++ [Some context]
        ++ drop (length uiMessages - 1) uiMessages.
Proof.
  intros Hne.
  destruct (POST_retrieval_shape E message userId approval uiMessages)
    as [Hsame|(params & results & _ & _ & ->)]; [by left | right].
  eexists. by apply insert_before_last_nonempty.
Qed.

(** C10, amended: given a non-empty message array, each retrieval step
    returns either that array or that array with one new message placed just
    before its last element; the elements of the array are kept as they
    are, in their order. *)
Theorem retrieval_preserves_messages E (message : option ChatMessage)
    (uiMessages : messages) (userId : option jsstring) (approval : bool) :
  uiMessages ≠ [] →
  (updatedMessages (retrieveRelevantContext E message uiMessages userId approval)
   = uiMessages
   ∨ ∃ context,
       updatedMessages (retrieveRelevantContext E message uiMessages userId approval)
       = take (length uiMessages - 1) uiMessages ++ [Some context]
         ++ drop (length uiMessages - 1) uiMessages)
  ∧ ((POST_retrieval E message userId approval uiMessages).1 = uiMessages
     ∨ ∃ context,
         (POST_retrieval E message userId approval uiMessages).1
         = take (length uiMessages - 1) uiMessages ++ [Some context]
           ++ drop (length uiMessages - 1) uiMessages).
Proof.
  intros Hne. split.
  - by apply retrieveRelevantContext_preserved.
  - by apply POST_retrieval_preserved.
Qed.

(** In [POST] the array is built by the route itself and the statement
    holds for every request. *)
Lemma POST_messages_preserved E message approval fromDb sessionUserId :
  (POST_messages E message approval fromDb sessionUserId).1
  = initial_uiMessages approval fromDb message
  ∨ ∃ context,
      (POST_messages E message approval fromDb sessionUserId).1
      = take (length (initial_uiMessages approval fromDb message) - 1)
          (initial_uiMessages approval fromDb message)
        ++ [Some context]
        ++ drop (length (initial_uiMessages approval fromDb message) - 1)
             (initial_uiMessages approval fromDb message).
Proof.
  unfold POST_messages. destruct approval as [all|].
  - left. unfold POST_retrieval. rewrite (bool_decide_true (is_Some (Some all))) by eauto.
    rewrite andb_false_r. by destruct message, sessionUserId as [[|]|].
  - apply POST_retrieval_preserved. simpl. by destruct (Some <$> fromDb).
Qed.

(** *** The worked example of the specification *)

Lemma toFixed0_comp (x y : Q) : (x == y)%Q → toFixed0 x = toFixed0 y.
Proof.
  intros Hxy. unfold toFixed0.
  assert (Qle_bool 0 x = Qle_bool 0 y) as -> by (rewrite Hxy; reflexivity).
  assert (Qfloor (x + (1 # 2)) = Qfloor (y + (1 # 2))) as ->
    by (apply Qfloor_comp; rewrite Hxy; reflexivity).
  assert (Qfloor (- x + (1 # 2)) = Qfloor (- y + (1 # 2))) as ->
    by (apply Qfloor_comp; rewrite Hxy; reflexivity).
  reflexivity.
Qed.

Lemma double_mul_comp (x y z : Q) : (x == y)%Q → double_mul x z = double_mul y z.
Proof.
  intros Hxy. unfold double_mul, to_double. by rewrite (Qred_complete x y Hxy).
Qed.

Lemma percent_90 (x : Q) : (x == 9 # 10)%Q → toFixed0 (double_mul x 100) = lit "90".
Proof.
  intros Hx. rewrite (double_mul_comp x (9 # 10) 100 Hx). vm_compute. reflexivity.
Qed.

Lemma high_quality_pair (strong weak : RetrievedDocument) results :
  (similarity strong == 9 # 10)%Q → (similarity weak == 4 # 10)%Q →
  results = [strong; weak] ∨ results = [weak; strong] →
  high_quality (6 # 10) results = [strong].
Proof.
  intros Hstrong Hweak. unfold high_quality.
  assert (Qle_bool (6 # 10) (similarity strong) = true) as Hs by (by rewrite Hstrong).
  assert (Qle_bool (6 # 10) (similarity weak) = false) as Hw by (by rewrite Hweak).
  intros [->| ->]; simpl; by rewrite Hs, Hw.
Qed.

(** C1: when the search returns, in either order, a chunk of similarity 0.9
    and a chunk of similarity 0.4, the retrieval block of [POST] (display
    floor 0.6) keeps the 0.9 chunk alone, builds one message whose text
    shows that chunk at 90% and nothing of the other, and returns the stored
    messages, then that message, then the user message that triggered the
    retrieval. *)
Theorem POST_injects_best_chunk E m (fromDb : list ChatMessage) (uid userText : jsstring)
    (queryEmbedding : vector) (strong weak : RetrievedDocument)
    (results : list RetrievedDocument) :
  role m = user →
  0 < length uid →
  getTextFromMessage E m = Returned userText →
  non_blank userText = true →
  non_blank (TextCleaning.cleanQueryText userText) = true →
  Embeddings.generateEmbedding (env_key E) (fetch E)
    (TextCleaning.cleanQueryText userText) = Returned queryEmbedding →
  (∀ params, userId params = uid →
     searchSimilarDocuments E params = Returned results) →
  results = [strong; weak] ∨ results = [weak; strong] →
  (similarity strong == 9 # 10)%Q →
  (similarity weak == 4 # 10)%Q →
  high_quality (6 # 10) results = [strong]
  ∧ descending (high_quality (6 # 10) results)
  ∧ POST_messages E (Some m) None fromDb (Some uid)
    = ((Some <$> fromDb)
         ++ [Some {| id := generateUUID E; role := user;
                     parts := [TextPart (context_text [strong])] |};
             Some m],
       results)
  ∧ context_text [strong]
    = lit "**Knowledge Base Context** (1 relevant document):" ++ [0x0A; 0x0A]%N
      ++ page_icon ++ lit " **" ++ show_title (documentTitle strong)
      ++ lit "** (90% relevant)" ++ [0x0A]%N ++ content strong ++ [0x0A; 0x0A]%N
      ++ lit "*Use information from these documents to answer the user's question. Cite the document title when referencing specific information.*".
Proof.
  intros Hrole Huid Htext Hblank Hclean Hembed Hsearch Hresults Hstrong Hweak.
  pose proof (high_quality_pair strong weak results Hstrong Hweak Hresults) as Hkept.
  split; [exact Hkept|]. split; [apply high_quality_spec|]. split.
  - unfold POST_messages, POST_retrieval, initial_uiMessages.
    destruct uid as [|c uid]; [simpl in Huid; lia|].
    rewrite (bool_decide_false (is_Some None)) by (by intros [? ?]).
    unfold is_user. rewrite (bool_decide_true (role m = user)) by done. cbn [andb negb].
    unfold POST_try. rewrite Htext. cbn [mbind outcome_bind]. rewrite Hblank, Hclean.
    rewrite Hembed. cbn [mbind outcome_bind]. rewrite Hsearch by done.
    cbn [mbind outcome_bind]. rewrite Hkept.
    rewrite bool_decide_true by (destruct Hresults as [->| ->]; simpl; lia).
    rewrite bool_decide_true by (simpl; lia).
    cbn [mret outcome_ret]. by rewrite insert_before_last_snoc.
  - unfold context_text, documentsText, document_entry. cbn [fmap list_fmap join length].
    rewrite (percent_90 _ Hstrong). rewrite bool_decide_false by lia.
    rewrite <- !app_assoc. reflexivity.
Qed.

End Orchestrator.

Lemma POST_injects_best_chunk_witness :
  high_quality (6 # 10) [doc_weak; doc_strong] = [doc_strong]
  ∧ descending (high_quality (6 # 10) [doc_weak; doc_strong])
  ∧ POST_messages (retrieval_env [doc_weak; doc_strong]) (Some question) None
      [earlier] (Some (lit "u1"))
    = ([Some earlier;
        Some {| id := lit "ctx-1"; role := user;
                parts := [TextPart (context_text [doc_strong])] |};
        Some question],
       [doc_weak; doc_strong])
  ∧ context_text [doc_strong]
    = lit "**Knowledge Base Context** (1 relevant document):" ++ [0x0A; 0x0A]%N
      ++ page_icon ++ lit " **" ++ lit "Guide"
      ++ lit "** (90% relevant)" ++ [0x0A]%N ++ lit "alpha is the first letter"
      ++ [0x0A; 0x0A]%N
      ++ lit "*Use information from these documents to answer the user's question. Cite the document title when referencing specific information.*".
Proof.
  apply (POST_injects_best_chunk (retrieval_env [doc_weak; doc_strong]) question
           [earlier] (lit "u1") (lit "what is alpha?") 14 doc_strong doc_weak
           [doc_weak; doc_strong]).
  - reflexivity.
  - simpl. lia.
  - reflexivity.
  - vm_compute. reflexivity.
  - vm_compute. reflexivity.
  - vm_compute. reflexivity.
  - intros params _. reflexivity.
  - right. reflexivity.
  - reflexivity.
  - reflexivity.
Defined.


(** For the same store a search made for another user changes the array. *)
Example retrieval_for_another_user :
  (POST_retrieval (retrieval_env_per_user (stored_by_user [doc_weak])) (Some question)
     (Some (lit "u2")) false [Some earlier; Some question]).1
  ≠ [Some earlier; Some question].
Proof. vm_compute. discriminate. Qed.

Lemma retrieval_preserves_messages_witness :
  updatedMessages
    (retrieveRelevantContext (retrieval_env [doc_weak; doc_strong]) (Some question)
       [Some earlier; Some question] (Some (lit "u1")) false)
  = [Some earlier;
     Some (documentsMessage (retrieval_env [doc_weak; doc_strong]) system
             [doc_strong; doc_weak]);
     Some question]
  ∧ ∃ context,
      updatedMessages
        (retrieveRelevantContext (retrieval_env [doc_weak; doc_strong]) (Some question)
           [Some earlier; Some question] (Some (lit "u1")) false)
      = take (length [Some earlier; Some question] - 1) [Some earlier; Some question]
        ++ [Some context]
        ++ drop (length [Some earlier; Some question] - 1) [Some earlier; Some question].
Proof.
  split; [vm_compute; reflexivity|].
  destruct (retrieval_preserves_messages (retrieval_env [doc_weak; doc_strong])
              (Some question) [Some earlier; Some question] (Some (lit "u1")) false)
    as [[Hsame|Hinserted] _].
  - discriminate.
  - discriminate Hsame.
  - exact Hinserted.
Defined.

(** C10 as stated fails on the empty array: with a user message and a
    search hit the returned array holds the new message followed by an
    [undefined] element, which is neither the input nor the input with one
    message inserted. *)
Lemma retrieveRelevantContext_empty_array :
  updatedMessages
    (retrieveRelevantContext (retrieval_env [doc_strong]) (Some question) []
       (Some (lit "u1")) false)
  = [Some (documentsMessage (retrieval_env [doc_strong]) system [doc_strong]); None]
  ∧ ¬ (updatedMessages
         (retrieveRelevantContext (retrieval_env [doc_strong]) (Some question) []
            (Some (lit "u1")) false)
       = []
       ∨ ∃ context,
           updatedMessages
             (retrieveRelevantContext (retrieval_env [doc_strong]) (Some question) []
                (Some (lit "u1")) false)
           = take (length (@nil (option ChatMessage)) - 1) []
             ++ [Some context] ++ drop (length (@nil (option ChatMessage)) - 1) []).
Proof.
  assert (updatedMessages
            (retrieveRelevantContext (retrieval_env [doc_strong]) (Some question) []
               (Some (lit "u1")) false)
          = [Some (documentsMessage (retrieval_env [doc_strong]) system [doc_strong]);
             None]) as Hout by (vm_compute; reflexivity).
  split; [exact Hout|]. rewrite Hout. intros [Hnil|[context Hone]]; discriminate.
Qed.

(** With the floor of [retrieveRelevantContext] both chunks of the worked
    example are shown, the better one first. *)
Example retrieveRelevantContext_shows_both :
  high_quality 0 (with_title <$> [doc_weak; doc_strong]) = [doc_strong; doc_weak].
Proof. vm_compute. reflexivity. Qed.

End RetrievalFacts.

(** ** Document upload *)

Module UploadFacts.
Import TextChunking Upload.

Section Route.
Context {vector : Type}.
Implicit Types (E : Env vector) (saved : Saved).

Lemma cleanedChunks_length unique : length (cleanedChunks unique) ≤ length unique.
Proof.
  unfold cleanedChunks. etrans; [apply List.filter_length_le|]. by rewrite length_fmap.
Qed.

Lemma index_try_throws E saved e :
  indexing_fails E saved e → index_try E saved = Thrown e.
Proof.
  intros Hfails. unfold index_try.
  destruct Hfails as [e Hdel|u e Hdel Hchunk|u chunks e Hdel Hchunk Hlen Hembed
                     |u chunks embeddings e Hdel Hchunk Hlen Hembed Hsave];
    rewrite Hdel; cbn [mbind outcome_bind]; [done | | |];
    rewrite Hchunk; cbn [mbind outcome_bind]; [done | |];
    pose proof (cleanedChunks_length (uniqueChunks chunks));
    rewrite bool_decide_false by lia; rewrite bool_decide_false by lia;
    rewrite Hembed; cbn [mbind outcome_bind]; [done|].
  by rewrite Hsave.
Qed.

(** Conversely these are the only ways the [try] block can throw. *)
Lemma index_try_thrown E saved e :
  index_try E saved = Thrown e → indexing_fails E saved e.
Proof.
  unfold index_try.
  destruct (deleteDocumentEmbeddings E _) as [u|e0] eqn:Hdel; cbn [mbind outcome_bind];
    [|intros [= <-]; by apply fails_delete].
  destruct (chunkText _ _ _) as [chunks|e0] eqn:Hchunk; cbn [mbind outcome_bind];
    [|intros [= <-]; by eapply fails_chunk].
  case_bool_decide as Hunique; [done|].
  case_bool_decide as Hcleaned; [done|].
  destruct (Embeddings.generateEmbeddings _ _ _) as [embeddings|e0] eqn:Hembed;
    cbn [mbind outcome_bind]; [|intros [= <-]; eapply fails_embed; eauto; lia].
  destruct (saveDocumentEmbeddings E _) as [?|e0] eqn:Hsave; cbn [mbind outcome_bind];
    [done|]. intros [= <-]. eapply fails_save; eauto; lia.
Qed.

(** [upload_stage] yields a saved document only after [saveDocument] has
    returned for it. *)
Lemma upload_stage_saved E uid saved :
  upload_stage E uid = Returned (inr saved) →
  ∃ kind, saveDocument E {| doc_id := saved_id saved; doc_title := saved_title saved;
                            doc_kind := kind; doc_content := saved_text saved;
                            doc_userId := uid |} = Returned ().
Proof.
  unfold upload_stage.
  destruct (formData E) as [[file|]|]; cbn [mbind outcome_bind]; [| done | done].
  destruct (negb _); [done|]. destruct (negb _); [done|].
  destruct (extractTextFromFile E _ _) as [content|]; cbn [mbind outcome_bind]; [|done].
  destruct (blank content); [done|].
  destruct (saveDocument E _) as [[]|] eqn:Hsave; [|done].
  intros [= <-]. simpl. eauto.
Qed.

Lemma index_stage_ok E saved :
  status (index_stage E saved) = 200%N
  ∧ success (body (index_stage E saved)) = Some true.
Proof.
  unfold index_stage. destruct (index_try E saved) as [response|e] eqn:Htry; [|done].
  unfold index_try in Htry.
  destruct (deleteDocumentEmbeddings E _); cbn [mbind outcome_bind] in Htry; [|done].
  destruct (chunkText _ _ _); cbn [mbind outcome_bind] in Htry; [|done].
  case_bool_decide; [by injection Htry as <-|].
  case_bool_decide; [by injection Htry as <-|].
  destruct (Embeddings.generateEmbeddings _ _ _); cbn [mbind outcome_bind] in Htry; [|done].
  destruct (saveDocumentEmbeddings E _); cbn [mbind outcome_bind] in Htry; [|done].
  by injection Htry as <-.
Qed.

(** C7: once the document has been saved, a failure of any indexing step
    is answered with status 200, [success] true, [chunksIndexed] 0 and the
    warning; no request that got as far as the saved document is answered
    with another status. *)
Theorem POST_indexing_failure_is_partial_success E (uid : jsstring) saved (e : exn) :
  session_user E = Some uid →
  body_is_null E = false →
  upload_stage E uid = Returned (inr saved) →
  indexing_fails E saved e →
  POST E = partial_response (saved_id saved) (saved_title saved) (saved_blobUrl saved)
             (if development E then Some (message_or (lit "Unknown error") e) else None)
  ∧ status (POST E) = 200%N
  ∧ success (body (POST E)) = Some true
  ∧ chunksIndexed (body (POST E)) = Some 0
  ∧ warning (body (POST E)) = Some warning_text.
Proof.
  intros Hsession Hbody Hsaved Hfails.
  assert (POST E = partial_response (saved_id saved) (saved_title saved)
                     (saved_blobUrl saved)
                     (if development E
                      then Some (message_or (lit "Unknown error") e) else None)) as ->.
  { unfold POST. rewrite Hsession, Hbody, Hsaved. unfold index_stage.
    by rewrite (index_try_throws E saved e Hfails). }
  done.
Qed.

(** Whatever happens while indexing, a saved document is answered with
    status 200 and [success] true. *)
Lemma POST_after_save E uid saved :
  session_user E = Some uid → body_is_null E = false →
  upload_stage E uid = Returned (inr saved) →
  status (POST E) = 200%N ∧ success (body (POST E)) = Some true.
Proof.
  intros Hsession Hbody Hsaved. unfold POST. rewrite Hsession, Hbody, Hsaved.
  apply index_stage_ok.
Qed.

End Route.

Lemma POST_indexing_failure_is_partial_success_witness :
  POST upload_env = partial_response (lit "doc-1") (lit "notes") None None
  ∧ status (POST upload_env) = 200%N
  ∧ success (body (POST upload_env)) = Some true
  ∧ chunksIndexed (body (POST upload_env)) = Some 0
  ∧ warning (body (POST upload_env)) = Some warning_text.
Proof.
  apply (POST_indexing_failure_is_partial_success upload_env (lit "u1") saved_notes
           (ErrorObj (lit "connection lost"))).
  - reflexivity.
  - reflexivity.
  - vm_compute. reflexivity.
  - apply fails_delete. reflexivity.
Defined.

End UploadFacts.

(** * Further properties *)

(** ** String helpers *)

Module JSLemmas.

Lemma dropWhile_Forall (P : N → Prop) p s : Forall P s → Forall P (dropWhile p s).
Proof.
  induction 1 as [|c s Hc Hs IH]; simpl; [constructor|].
  destruct (p c); [exact IH | by constructor].
Qed.

Lemma dropWhile_all p s : Forall (λ c, p c = true) s → dropWhile p s = [].
Proof. induction 1 as [|c s Hc Hs IH]; simpl; [done|]. by rewrite Hc. Qed.

Lemma dropWhile_length p s : length (dropWhile p s) ≤ length s.
Proof. induction s as [|c s IH]; simpl; [done|]. destruct (p c); simpl; lia. Qed.

Lemma dropWhile_split p s :
  ∃ w, s = w ++ dropWhile p s ∧ Forall (λ c, p c = true) w.
Proof.
  induction s as [|c s (w & Hw & Hall)]; simpl; [by exists []|].
  destruct (p c) eqn:Hc; [|by exists []].
  exists (c :: w). split; [simpl; congruence | by constructor].
Qed.

Lemma dropWhile_head p s c t : dropWhile p s = c :: t → p c = false.
Proof.
  induction s as [|d s IH]; simpl; [done|].
  destruct (p d) eqn:Hd; [exact IH | by intros [= <- <-]].
Qed.

Lemma dropWhile_fixed p c t : p c = false → dropWhile p (c :: t) = c :: t.
Proof. intros Hc. simpl. by rewrite Hc. Qed.

Lemma trim_Forall (P : N → Prop) s : Forall P s → Forall P (trim s).
Proof.
  intros Hs. unfold trim. apply Forall_reverse, dropWhile_Forall, Forall_reverse.
  by apply dropWhile_Forall.
Qed.

Lemma trim_length s : length (trim s) ≤ length s.
Proof.
  unfold trim. rewrite length_reverse.
  etrans; [apply dropWhile_length|]. rewrite length_reverse. apply dropWhile_length.
Qed.

Lemma trim_all_space s : Forall (λ c, is_space c = true) s → trim s = [].
Proof. intros Hs. unfold trim. by rewrite (dropWhile_all _ s Hs). Qed.

(** The result of [trim] has no white space at either end. *)
Lemma trim_trimmed s : trimmed (trim s).
Proof.
  unfold trimmed, trim. rewrite reverse_involutive.
  set (a := dropWhile is_space s).
  destruct (dropWhile is_space (reverse a)) as [|c b] eqn:Hb; [done|].
  split; [|by rewrite (dropWhile_fixed _ c b (dropWhile_head _ _ _ _ Hb))].
  destruct (dropWhile_split is_space (reverse a)) as (w & Hw & _).
  rewrite Hb in Hw. apply (f_equal reverse) in Hw.
  rewrite reverse_involutive, reverse_app in Hw.
  destruct (reverse (c :: b)) as [|d r] eqn:Hr.
  { apply (f_equal length) in Hr. rewrite length_reverse in Hr. done. }
  simpl in Hw. subst a. by rewrite (dropWhile_fixed _ d r (dropWhile_head _ _ _ _ Hw)).
Qed.

Lemma trimmed_trim s : trimmed s → trim s = s.
Proof. intros [H1 H2]. unfold trim. by rewrite H1, H2, reverse_involutive. Qed.

Lemma trim_idempotent s : trim (trim s) = trim s.
Proof. apply trimmed_trim, trim_trimmed. Qed.

(** *** [split] and [join] *)

Lemma split_on_nonempty sep s : split_on sep s ≠ [].
Proof. destruct s as [|c s]; simpl; [done|]. destruct (c =? sep)%N; [done|]. by destruct (split_on sep s). Qed.

Lemma join_cons sep p q ps : join sep (p :: q :: ps) = p ++ sep ++ join sep (q :: ps).
Proof. reflexivity. Qed.

(** Joining the pieces of a split gives the text back. *)
Lemma join_split_on sep s : join [sep] (split_on sep s) = s.
Proof.
  induction s as [|c s IH]; simpl; [done|].
  pose proof (split_on_nonempty sep s) as Hne.
  destruct (split_on sep s) as [|q ps] eqn:Hs; [done|].
  destruct (N.eqb_spec c sep) as [->|_].
  - rewrite join_cons, IH. done.
  - destruct ps as [|q' ps].
    + simpl in *. by rewrite IH.
    + rewrite join_cons in *. rewrite <- IH. done.
Qed.

Lemma split_on_Forall (P : N → Prop) sep s :
  Forall P s → Forall (Forall P) (split_on sep s).
Proof.
  induction 1 as [|c s Hc Hs IH]; simpl; [by repeat constructor|].
  destruct (c =? sep)%N; [by constructor|].
  destruct (split_on sep s) as [|q ps]; [by repeat constructor|].
  inversion_clear IH. constructor; [by constructor | done].
Qed.

Lemma join_Forall (P : N → Prop) sep ps :
  Forall P sep → Forall (Forall P) ps → Forall P (join sep ps).
Proof.
  intros Hsep. induction 1 as [|p ps Hp Hps IH]; [constructor|].
  destruct ps as [|q ps]; [done|]. rewrite join_cons.
  apply Forall_app. split; [done|]. apply Forall_app. by split.
Qed.

Lemma join_length_le sep (g : jsstring → jsstring) ps :
  (∀ p, length (g p) ≤ length p) →
  length (join sep (g <$> ps)) ≤ length (join sep ps).
Proof.
  intros Hg. induction ps as [|p ps IH]; [done|].
  destruct ps as [|q ps]; [apply Hg|].
  rewrite !fmap_cons, !join_cons, !length_app. rewrite !fmap_cons in IH.
  specialize (Hg p). lia.
Qed.

(** *** Global replacement *)

Lemma replace_from_Forall (P : N → Prop) m f skip s :
  (∀ t n, Forall P t → m t = Some (S n) → Forall P (f (take (S n) t))) →
  Forall P s → Forall P (replace_from m f skip s).
Proof.
  intros Hf Hs. revert skip. induction Hs as [|c s Hc Hs IH]; intros skip; simpl; [done|].
  destruct skip as [|k]; [|apply IH].
  destruct (m (c :: s)) as [[|n]|] eqn:Hm.
  - by constructor.
  - apply Forall_app. split; [|apply IH].
    apply (Hf (c :: s) n); [by constructor | done].
  - by constructor.
Qed.

Lemma replace_from_length m f skip s :
  bounded m →
  (∀ t n, m t = Some (S n) → length (f (take (S n) t)) ≤ S n) →
  skip ≤ length s →
  length (replace_from m f skip s) ≤ length s - skip.
Proof.
  intros Hm Hf. revert skip. induction s as [|c s IH]; intros skip Hskip; [simpl; lia|].
  cbn [replace_from length] in *.
  destruct skip as [|k].
  - destruct (m (c :: s)) as [[|n]|] eqn:Hmatch.
    + pose proof (IH 0 ltac:(lia)). cbn [length]. lia.
    + pose proof (Hm _ _ Hmatch) as Hn. cbn [length] in Hn.
      pose proof (Hf _ _ Hmatch). pose proof (IH n ltac:(lia)).
      rewrite length_app. lia.
    + pose proof (IH 0 ltac:(lia)). cbn [length]. lia.
  - pose proof (IH k ltac:(lia)). lia.
Qed.

Lemma span_len_le p s : span_len p s ≤ length s.
Proof. induction s as [|c s IH]; simpl; [done|]. destruct (p c); lia. Qed.

Lemma run_of_bounded p k : bounded (run_of p k).
Proof.
  intros s n. unfold run_of. destruct (k <=? span_len p s); [|done].
  intros [= <-]. apply span_len_le.
Qed.

Lemma one_of_bounded p : bounded (one_of p).
Proof.
  intros [|c s] n; simpl; [done|]. destruct (p c); [|done]. intros [= <-]. lia.
Qed.

Lemma blank_lines_bounded : bounded blank_lines.
Proof.
  intros [|c s] n; [done|]. unfold blank_lines.
  destruct (c =? 10)%N; [|done]. cbn zeta.
  match goal with |- context [if ?b then _ else _] => destruct b end; [|done].
  intros [= <-]. rewrite length_take. pose proof (span_len_le is_space s).
  cbn [length]. lia.
Qed.

Lemma run_of_head p k s n : run_of p k s = Some (S n) → ∃ c t, s = c :: t ∧ p c = true.
Proof.
  unfold run_of. destruct (k <=? span_len p s); [|done]. intros [= Hn].
  destruct s as [|c t]; [done|]. simpl in Hn. destruct (p c) eqn:Hc; [eauto | done].
Qed.

Lemma one_of_head p s n : one_of p s = Some n → ∃ c t, s = c :: t ∧ p c = true.
Proof. destruct s as [|c t]; simpl; [done|]. destruct (p c) eqn:Hc; [eauto | done]. Qed.

End JSLemmas.

(** ** Text cleaning, continued *)

Module TextCleaningMore.
Import TextCleaning JSLemmas.

(** *** Steps that replace by a fixed text *)

Lemma replace_const_Forall (P : N → Prop) m r s :
  Forall P r → Forall P s → Forall P (replace_all m (const r) s).
Proof. intros Hr Hs. apply replace_from_Forall; [|done]. intros. exact Hr. Qed.

(** A replacement is never applied to a text none of whose units can start
    a match. *)
Lemma replace_run_unmatched (P : N → Prop) p k f s :
  (∀ c, P c → p c = false) → Forall P s → Forall P (replace_all (run_of p k) f s).
Proof.
  intros Hp Hs. apply replace_from_Forall; [|done].
  intros t n Ht Hm. apply run_of_head in Hm as (c & t' & -> & Hc).
  inversion_clear Ht as [|? ? HPc _]. rewrite (Hp c HPc) in Hc. done.
Qed.

Lemma replace_one_unmatched (P : N → Prop) p f s :
  (∀ c, P c → p c = false) → Forall P s → Forall P (replace_all (one_of p) f s).
Proof.
  intros Hp Hs. apply replace_from_Forall; [|done].
  intros t n Ht Hm. apply one_of_head in Hm as (c & t' & -> & Hc).
  inversion_clear Ht as [|? ? HPc _]. rewrite (Hp c HPc) in Hc. done.
Qed.

Lemma replace_marks_Forall (P : N → Prop) s :
  Forall P s → Forall P (replace_all (run_of is_mark 3) (take 2) s).
Proof.
  intros Hs. apply replace_from_Forall; [|done].
  intros t n Ht _. by apply Forall_take, Forall_take.
Qed.

Lemma lines_Forall (P : N → Prop) s :
  P 0x0A%N → Forall P s → Forall P (join [0x0A]%N (trim <$> split_on 0x0A s)).
Proof.
  intros Hnl Hs. apply join_Forall; [by repeat constructor|].
  apply Forall_fmap. eapply Forall_impl; [by apply split_on_Forall|].
  intros p Hp. by apply trim_Forall.
Qed.

(** *** Steps that delete or rewrite a class of units *)

Lemma delete_class p s :
  Forall (λ c, p c = false) (replace_all (one_of p) (const []) s).
Proof.
  unfold replace_all. induction s as [|c s IH]; simpl; [done|].
  destruct (p c) eqn:Hc; [exact IH | by constructor].
Qed.

Lemma replace_run1_Forall (P : N → Prop) p r skip s :
  Forall P r → (∀ c, p c = false → P c) →
  Forall P (replace_from (run_of p 1) (const r) skip s).
Proof.
  intros Hr Hp. revert skip. induction s as [|c s IH]; intros skip; simpl; [done|].
  destruct skip as [|k]; [|apply IH].
  unfold run_of. simpl. destruct (p c) eqn:Hc; simpl.
  - apply Forall_app. split; [exact Hr | apply IH].
  - constructor; [by apply Hp | apply IH].
Qed.

(** *** Lengths *)

Lemma replace_run_length p k r s :
  length r ≤ k → length (replace_all (run_of p k) (const r) s) ≤ length s.
Proof.
  intros Hr. unfold replace_all.
  etrans; [apply replace_from_length; [apply run_of_bounded | | lia] | lia].
  intros t n. unfold run_of, const.
  destruct (Nat.leb_spec k (span_len p t)); [|done]. intros [= Hn]. lia.
Qed.

Lemma replace_one_length p r s :
  length r ≤ 1 → length (replace_all (one_of p) (const r) s) ≤ length s.
Proof.
  intros Hr. unfold replace_all.
  etrans; [apply replace_from_length; [apply one_of_bounded | | lia] | lia].
  intros t n _. unfold const. lia.
Qed.

Lemma replace_marks_length s :
  length (replace_all (run_of is_mark 3) (take 2) s) ≤ length s.
Proof.
  unfold replace_all.
  etrans; [apply replace_from_length; [apply run_of_bounded | | lia] | lia].
  intros t n. unfold run_of.
  destruct (Nat.leb_spec 3 (span_len is_mark t)); [|done]. intros [= Hn].
  rewrite length_take. lia.
Qed.

Lemma span_len_full p s : span_len p s = length s → Forall (λ c, p c = true) s.
Proof.
  induction s as [|c s IH]; simpl; [done|].
  destruct (p c) eqn:Hc; [|done]. intros [= Hs]. constructor; [done | by apply IH].
Qed.

Lemma replace_blank_lines_length s :
  length (replace_all blank_lines (const [0x0A; 0x0A]%N) s) ≤ length s.
Proof.
  unfold replace_all.
  etrans; [apply replace_from_length; [apply blank_lines_bounded | | lia] | lia].
  intros [|c t] n; [done|]. unfold blank_lines, const.
  destruct (c =? 10)%N; [|done]. cbn zeta.
  set (w := take (span_len is_space t) t).
  destruct (Nat.leb_spec 2 (length (filter (λ d, d = 10%N) w))) as [Hfeeds|]; [|done].
  intros [= Hn]. cbn [length].
  pose proof (span_len_le (λ d, negb (d =? 10)%N) (reverse w)) as Hle.
  rewrite length_reverse in Hle.
  destruct (decide (span_len (λ d, negb (d =? 10)%N) (reverse w) = length w)) as [Hall|]; [|lia].
  exfalso. rewrite <- (length_reverse w) in Hall. apply span_len_full in Hall.
  apply Forall_reverse in Hall. rewrite reverse_involutive in Hall.
  assert (filter (λ d, d = 10%N) w = []) as Hnone; [|rewrite Hnone in Hfeeds; simpl in Hfeeds; lia].
  clear -Hall. induction Hall as [|d w Hd _ IH]; [done|].
  rewrite filter_cons_False; [done|]. intros ->. done.
Qed.

Lemma lines_length s : length (join [0x0A]%N (trim <$> split_on 0x0A s)) ≤ length s.
Proof.
  rewrite <- (join_split_on 0x0A s) at 2. apply join_length_le, trim_length.
Qed.

(** X1: cleaning never makes a text longer. *)
Theorem cleaning_never_lengthens (t : jsstring) :
  length (cleanTextForEmbedding t) ≤ length t
  ∧ length (cleanQueryText t) ≤ length (cleanTextForEmbedding t).
Proof.
  split.
  - unfold cleanTextForEmbedding. case_bool_decide; [simpl; lia|]. cbn zeta.
    repeat first
      [ etrans; [apply trim_length|]
      | etrans; [apply replace_blank_lines_length|]
      | etrans; [apply lines_length|]
      | etrans; [apply replace_one_length; simpl; lia|]
      | etrans; [apply replace_run_length; simpl; lia|] ].
    done.
  - unfold cleanQueryText. case_bool_decide as Hempty; [|apply replace_marks_length].
    destruct t; [done | simpl in Hempty; lia].
Qed.

(** X2: a cleaned text never starts or ends with white space, and a text
    made of white space only is cleaned to the empty string. *)
Theorem cleaning_trims (t : jsstring) :
  trimmed (cleanTextForEmbedding t)
  ∧ trim (cleanTextForEmbedding t) = cleanTextForEmbedding t
  ∧ (Forall (λ c, is_space c = true) t →
     cleanTextForEmbedding t = [] ∧ cleanQueryText t = []).
Proof.
  assert (trimmed (cleanTextForEmbedding t)) as Htrimmed.
  { unfold cleanTextForEmbedding. case_bool_decide; [done|]. apply trim_trimmed. }
  split; [done|]. split; [by apply trimmed_trim|].
  intros Hspace.
  assert (cleanTextForEmbedding t = []) as Hclean.
  { unfold cleanTextForEmbedding. case_bool_decide; [done|]. cbn zeta.
    apply trim_all_space.
    apply replace_const_Forall; [by repeat constructor|].
    apply lines_Forall; [done|].
    repeat first
      [ apply replace_const_Forall; [by repeat constructor|]
      | apply replace_run_unmatched;
          [intros c Hc; destruct (is_dot c || is_dash c || is_underscore c) eqn:Hp;
             [|by repeat (apply orb_false_elim in Hp as [Hp ?])];
           unfold is_dot, is_dash, is_underscore in Hp;
           repeat (apply orb_prop in Hp as [Hp|Hp]);
           apply N.eqb_eq in Hp; subst c; discriminate Hc|]
      | apply replace_one_unmatched;
          [intros c Hc; destruct (is_double_quote c || is_single_quote c) eqn:Hp;
             [|by repeat (apply orb_false_elim in Hp as [Hp ?])];
           unfold is_double_quote, is_single_quote in Hp;
           repeat (apply orb_prop in Hp as [Hp|Hp]);
           apply N.eqb_eq in Hp; subst c; discriminate Hc|] ].
    exact Hspace. }
  split; [done|]. unfold cleanQueryText. case_bool_decide; [done|]. by rewrite Hclean.
Qed.

Local Ltac keep_step Hplain :=
  first
    [ apply trim_Forall
    | apply lines_Forall; [apply Hplain|]
    | apply replace_marks_Forall
    | apply replace_const_Forall;
        [repeat constructor; apply Hplain|] ].

(** Whatever class a step has removed stays removed: the later steps only
    write plain units. *)
Lemma removed_stays_removed (p : N → bool) (t : jsstring) :
  plain (λ c, p c = false) →
  (∀ s, Forall (λ c, p c = false) (replace_all (one_of p) (const []) s)) →
  p = is_control ∨ p = is_zero_width ∨ p = is_decorative →
  Forall (λ c, p c = false) (cleanTextForEmbedding t).
Proof.
  intros Hplain Hdel Hp. unfold cleanTextForEmbedding.
  case_bool_decide; [constructor|]. cbn zeta.
  destruct Hp as [->|[->| ->]];
    repeat first [apply Hdel | keep_step Hplain].
Qed.

Lemma no_tab_after_cleaning (t : jsstring) :
  Forall (λ c, c ≠ 0x09%N) (cleanTextForEmbedding t).
Proof.
  assert (plain (λ c, c ≠ 0x09%N)) as Hplain by (repeat split; done).
  unfold cleanTextForEmbedding. case_bool_decide; [constructor|]. cbn zeta.
  do 11 keep_step Hplain.
  apply replace_run1_Forall; [repeat constructor; done|].
  intros c Hc ->. done.
Qed.

(** X3: a cleaned text holds no control character, no zero-width
    character, no decorative symbol and no tab; the same holds for a cleaned
    query. *)
Theorem cleaning_removes_classes (t : jsstring) :
  Forall (λ c, is_control c = false ∧ is_zero_width c = false
               ∧ is_decorative c = false ∧ c ≠ 0x09%N)
    (cleanTextForEmbedding t)
  ∧ Forall (λ c, is_control c = false ∧ is_zero_width c = false
                 ∧ is_decorative c = false ∧ c ≠ 0x09%N)
      (cleanQueryText t).
Proof.
  assert (Forall (λ c, is_control c = false ∧ is_zero_width c = false
                       ∧ is_decorative c = false ∧ c ≠ 0x09%N)
            (cleanTextForEmbedding t)) as Hclean.
  { repeat (apply Forall_and; split).
    - apply removed_stays_removed; [by repeat split | apply delete_class | auto].
    - apply removed_stays_removed; [by repeat split | apply delete_class | auto].
    - apply removed_stays_removed; [by repeat split | apply delete_class | auto].
    - apply no_tab_after_cleaning. }
  split; [exact Hclean|].
  unfold cleanQueryText. case_bool_decide; [constructor|]. by apply replace_marks_Forall.
Qed.

(** *** Runs of question and exclamation marks *)

Lemma replace_from_skip m f k s :
  replace_from m f k s = replace_from m f 0 (drop k s).
Proof.
  revert k. induction s as [|c s IH]; intros [|k]; simpl; auto.
Qed.

Lemma span_len_drop p s : span_len p (drop (span_len p s) s) = 0.
Proof.
  induction s as [|c s IH]; simpl; [done|].
  destruct (p c) eqn:Hc; simpl; [exact IH | by rewrite Hc].
Qed.

Lemma squeeze_marks_step p c s :
  replace_all (run_of p 3) (take 2) (c :: s)
  = if p c && (2 <=? span_len p s) then
      take 2 (c :: s) ++ replace_all (run_of p 3) (take 2) (drop (span_len p s) s)
    else c :: replace_all (run_of p 3) (take 2) s.
Proof.
  unfold replace_all. cbn [replace_from]. unfold run_of at 1. cbn [span_len].
  destruct (p c); cbn [andb]; [|done].
  destruct (2 <=? span_len p s) eqn:Hlong.
  - apply Nat.leb_le in Hlong.
    replace (3 <=? S (span_len p s)) with true by (symmetry; apply Nat.leb_le; lia).
    rewrite replace_from_skip. f_equal.
    rewrite take_take. f_equal. lia.
  - apply Nat.leb_gt in Hlong.
    replace (3 <=? S (span_len p s)) with false by (symmetry; apply Nat.leb_gt; lia).
    done.
Qed.

Lemma squeeze_marks_runs p s :
  span_len p (replace_all (run_of p 3) (take 2) s) ≤ span_len p s `min` 2
  ∧ longest_run p (replace_all (run_of p 3) (take 2) s) ≤ 2.
Proof.
  remember (length s) as len eqn:Hlen. revert s Hlen.
  induction len as [len IH] using lt_wf_ind. intros [|c s] ->; [simpl; lia|].
  rewrite squeeze_marks_step.
  destruct (p c) eqn:Hc; cbn [andb].
  - destruct (2 <=? span_len p s) eqn:Hlong;
      [apply Nat.leb_le in Hlong | apply Nat.leb_gt in Hlong].
    + destruct s as [|d s]; [simpl in Hlong; lia|].
      simpl in Hlong. destruct (p d) eqn:Hd; [|lia].
      pose proof (span_len_le p s) as Hle.
      destruct (IH (length (drop (span_len p (d :: s)) (d :: s)))
                  ltac:(rewrite length_drop; simpl; lia) _ eq_refl) as [Hspan Hrun].
      rewrite span_len_drop in Hspan.
      set (rest := replace_all (run_of p 3) (take 2)
                     (drop (span_len p (d :: s)) (d :: s))) in *.
      assert (span_len p rest = 0) as Hrest by lia.
      change (take 2 (c :: d :: s) ++ rest) with (c :: d :: rest).
      cbn [span_len longest_run]. rewrite Hc, Hd, Hrest. lia.
    + destruct (IH (length s) ltac:(simpl; lia) s eq_refl) as [Hspan Hrun].
      cbn [span_len longest_run]. rewrite Hc. lia.
  - destruct (IH (length s) ltac:(simpl; lia) s eq_refl) as [Hspan Hrun].
    cbn [span_len longest_run]. rewrite Hc. lia.
Qed.

(** X4: a cleaned query never holds three question or exclamation marks
    in a row. *)
Theorem cleanQueryText_squeezes_marks (t : jsstring) :
  longest_run is_mark (cleanQueryText t) ≤ 2.
Proof.
  unfold cleanQueryText. case_bool_decide; [simpl; lia|]. apply squeeze_marks_runs.
Qed.

End TextCleaningMore.

(** ** Chunking, continued *)

Module TextChunkingMore.
Import TextChunking JSLemmas TextChunkingFacts.

(** *** [indexOf] finds the first occurrence at or after the start *)

Lemma is_prefix_take pat s : is_prefix pat s = true ↔ take (length pat) s = pat.
Proof.
  revert s. induction pat as [|a pat IH]; intros [|b s]; simpl; try done.
  rewrite andb_true_iff, N.eqb_eq, IH. split; [intros [-> ->]; done | intros [= -> ->]; done].
Qed.

Lemma find_from_found pat s pos i :
  find_from pat s pos = Some i →
  pos ≤ i ∧ occurs_at pat s (i - pos)
  ∧ ∀ j, j < i - pos → ¬ occurs_at pat s j.
Proof.
  revert pos. induction s as [|c s IH]; intros pos; cbn [find_from].
  - destruct (is_prefix pat []) eqn:Hp; [|done]. intros [= <-].
    rewrite Nat.sub_diag. split; [done|]. split; [by apply is_prefix_take | lia].
  - destruct (is_prefix pat (c :: s)) eqn:Hp.
    + intros [= <-]. rewrite Nat.sub_diag.
      split; [done|]. split; [by apply is_prefix_take | lia].
    + intros Hfind. destruct (IH _ Hfind) as (Hle & Hocc & Hfirst).
      split; [lia|]. replace (i - pos) with (S (i - S pos)) by lia.
      split; [exact Hocc|]. intros [|j] Hj.
      * unfold occurs_at. simpl drop. rewrite <- is_prefix_take. by rewrite Hp.
      * apply (Hfirst j). lia.
Qed.

Lemma find_from_missing pat s pos j :
  find_from pat s pos = None → ¬ occurs_at pat s j.
Proof.
  revert pos j. induction s as [|c s IH]; intros pos j; cbn [find_from].
  - destruct (is_prefix pat []) eqn:Hp; [done|]. intros _.
    unfold occurs_at. rewrite drop_nil, <- is_prefix_take. by rewrite Hp.
  - destruct (is_prefix pat (c :: s)) eqn:Hp; [done|]. intros Hfind.
    destruct j as [|j]; [|by apply (IH (S pos))].
    unfold occurs_at. simpl drop. rewrite <- is_prefix_take. by rewrite Hp.
Qed.

Lemma occurs_at_drop pat s k j : occurs_at pat (drop k s) j ↔ occurs_at pat s (k + j).
Proof. unfold occurs_at. by rewrite drop_drop. Qed.

(** A found index is an occurrence, and no occurrence lies between the
    start position and it. *)
Lemma indexOf_occurs source pat from :
  (0 ≤ from)%Z → 0 < length pat → (0 ≤ indexOf source pat from)%Z →
  occurs_at pat source (Z.to_nat (indexOf source pat from))
  ∧ ∀ j, Z.to_nat from ≤ j < Z.to_nat (indexOf source pat from) →
      ¬ occurs_at pat source j.
Proof.
  intros Hfrom Hpat. unfold indexOf.
  set (start := Z.to_nat (0 `max` from) `min` length source).
  destruct (find_from pat (drop start source) start) as [i|] eqn:Hfind; [intros _ | lia].
  destruct (find_from_found _ _ _ _ Hfind) as (Hle & Hocc & Hfirst).
  rewrite Nat2Z.id. apply occurs_at_drop in Hocc.
  replace (start + (i - start)) with i in Hocc by lia. split; [exact Hocc|].
  intros j Hj Hj'. apply (Hfirst (j - start)); [lia|].
  apply occurs_at_drop. replace (start + (j - start)) with j by lia. exact Hj'.
Qed.

(** [-1] means that the text does not occur at or after the start. *)
Lemma indexOf_absent source pat from j :
  (0 ≤ from)%Z → 0 < length pat → (indexOf source pat from < 0)%Z →
  Z.to_nat from ≤ j → ¬ occurs_at pat source j.
Proof.
  intros Hfrom Hpat. unfold indexOf.
  set (start := Z.to_nat (0 `max` from) `min` length source).
  destruct (find_from pat (drop start source) start) as [i|] eqn:Hfind; [lia | intros _].
  intros Hj Hocc.
  destruct (decide (j ≤ length source)) as [Hin|Hout].
  - apply (find_from_missing _ _ _ (j - start) Hfind).
    apply occurs_at_drop. replace (start + (j - start)) with j by lia. exact Hocc.
  - unfold occurs_at in Hocc. rewrite drop_ge in Hocc by lia.
    destruct pat; simpl in *; [lia | done].
Qed.

(** *** The chunks of the index loop *)

Lemma chunk_step_chunks source st piece :
  laid_out st →
  Forall (λ c, well_formed c ∧ exact_or_absent source c) st.1 →
  Forall (λ c, well_formed c ∧ exact_or_absent source c) (chunk_step source st piece).1.
Proof.
  destruct st as [chunks cur]. intros (Hcur & _ & _) Hall. simpl in Hcur.
  unfold chunk_step. case_bool_decide as Hempty; [exact Hall|].
  assert (0 < length (trim piece)) as Hpos by lia.
  destruct (Z.leb_spec 0 (indexOf source (trim piece) cur)) as [Hfound|Hmissing];
    cbn [fst]; apply Forall_app; (split; [exact Hall|]); constructor; try constructor.
  - repeat split; cbn [text startIndex endIndex]; [done | apply trim_idempotent | lia].
  - left. cbn [text startIndex]. by apply indexOf_occurs.
  - repeat split; cbn [text startIndex endIndex]; [done | apply trim_idempotent | lia].
  - right. cbn [text startIndex]. intros j Hj. by eapply indexOf_absent.
Qed.

Lemma foldl_chunks source pieces st :
  laid_out st →
  Forall (λ c, well_formed c ∧ exact_or_absent source c) st.1 →
  Forall (λ c, well_formed c ∧ exact_or_absent source c)
    (foldl (chunk_step source) st pieces).1.
Proof.
  revert st. induction pieces as [|piece pieces IH]; intros st Hlaid Hall; [done|].
  simpl. apply IH; [by apply chunk_step_laid_out | by apply chunk_step_chunks].
Qed.

Lemma foldl_texts source pieces st :
  text <$> (foldl (chunk_step source) st pieces).1
  = (text <$> st.1)
    ++ List.filter (λ p, negb (bool_decide (length p = 0))) (trim <$> pieces).
Proof.
  revert st. induction pieces as [|piece pieces IH]; intros [chunks cur]; simpl.
  - by rewrite app_nil_r.
  - rewrite IH. unfold chunk_step.
    case_bool_decide as Hempty; simpl; [done|].
    destruct (0 <=? indexOf source (trim piece) cur)%Z; simpl;
      by rewrite fmap_app, <- app_assoc.
Qed.

(** X5: the chunk texts are the trimmed pieces of the splitter, without
    the empty ones and in the splitter's order; every chunk spans as many
    positions as its text is long. *)
Theorem chunkText_texts (splitText : splitter) (source : jsstring)
    (options : ChunkOptions) (pieces : list jsstring) :
  splitText options source = Returned pieces →
  ∃ chunks, chunkText splitText source options = Returned chunks
    ∧ text <$> chunks
      = List.filter (λ p, negb (bool_decide (length p = 0))) (trim <$> pieces)
    ∧ Forall well_formed chunks.
Proof.
  intros Hsplit. unfold chunkText. rewrite Hsplit. simpl.
  eexists. split; [reflexivity|]. split.
  - by rewrite foldl_texts.
  - eapply Forall_impl; [apply foldl_chunks; [apply laid_out_start | constructor]|].
    by intros c [Hc _].
Qed.

Lemma chunkText_texts_witness :
  ∃ chunks,
    chunkText space_splitter (lit " alpha  beta gamma") defaultOptions = Returned chunks
    ∧ text <$> chunks
      = List.filter (λ p, negb (bool_decide (length p = 0)))
          (trim <$> [[]; lit "alpha"; []; lit "beta"; lit "gamma"])
    ∧ Forall well_formed chunks.
Proof.
  apply (chunkText_texts space_splitter (lit " alpha  beta gamma") defaultOptions
           [[]; lit "alpha"; []; lit "beta"; lit "gamma"]).
  reflexivity.
Defined.

(** X6: chunks never overlap: each one ends at or before the start of every
    later one, and no index is negative. *)
Theorem chunkText_no_overlap (splitText : splitter) (source : jsstring)
    (options : ChunkOptions) (pieces : list jsstring) :
  splitText options source = Returned pieces →
  ∃ chunks, chunkText splitText source options = Returned chunks
    ∧ Forall (λ c, (0 ≤ startIndex c)%Z) chunks
    ∧ ∀ i j a b, i < j → chunks !! i = Some a → chunks !! j = Some b →
        (endIndex a ≤ startIndex b)%Z.
Proof.
  intros Hsplit. unfold chunkText. rewrite Hsplit. simpl.
  eexists. split; [reflexivity|].
  pose proof (foldl_laid_out source pieces _ laid_out_start) as (_ & Hall & Hord).
  split; [|exact Hord].
  eapply Forall_impl; [exact Hall|]. simpl. intros c Hc. lia.
Qed.

Lemma chunkText_no_overlap_witness :
  ∃ chunks,
    chunkText space_splitter (lit "beta alpha beta") defaultOptions = Returned chunks
    ∧ Forall (λ c, (0 ≤ startIndex c)%Z) chunks
    ∧ ∀ i j a b, i < j → chunks !! i = Some a → chunks !! j = Some b →
        (endIndex a ≤ startIndex b)%Z.
Proof.
  apply (chunkText_no_overlap space_splitter (lit "beta alpha beta") defaultOptions
           [lit "beta"; lit "alpha"; lit "beta"]).
  reflexivity.
Defined.

(** X7: every chunk is placed where its text occurs in the source; only a
    text that does not occur in the source from the chunk's start on is
    placed by the cursor instead. *)
Theorem chunkText_indices_exact (splitText : splitter) (source : jsstring)
    (options : ChunkOptions) (pieces : list jsstring) :
  splitText options source = Returned pieces →
  ∃ chunks, chunkText splitText source options = Returned chunks
    ∧ Forall (exact_or_absent source) chunks.
Proof.
  intros Hsplit. unfold chunkText. rewrite Hsplit. simpl.
  eexists. split; [reflexivity|].
  eapply Forall_impl; [apply foldl_chunks; [apply laid_out_start | constructor]|].
  by intros c [_ Hc].
Qed.

Lemma chunkText_indices_exact_witness :
  ∃ chunks,
    chunkText space_splitter (lit "beta alpha beta") defaultOptions = Returned chunks
    ∧ Forall (exact_or_absent (lit "beta alpha beta")) chunks.
Proof.
  apply (chunkText_indices_exact space_splitter (lit "beta alpha beta") defaultOptions
           [lit "beta"; lit "alpha"; lit "beta"]).
  reflexivity.
Defined.

Example chunkText_repeated_text :
  chunkText space_splitter (lit "beta alpha beta") defaultOptions
  = Returned [mkTextChunk (lit "beta") 0 4; mkTextChunk (lit "alpha") 5 10;
              mkTextChunk (lit "beta") 11 15].
Proof. vm_compute. reflexivity. Qed.

End TextChunkingMore.

(** ** Embedding client, continued *)

Module EmbeddingsMore.
Import Embeddings EmbeddingsFacts.

Section Client.
Context {vector : Type}.
Implicit Types (fetch : endpoint vector).



Lemma embed_loop_concat apiKey fetch items texts :
  answers_with fetch items →
  ∀ rest i acc sent, rest = drop i texts →
    (embed_loop apiKey fetch texts i acc sent).2
    = Returned (acc ++ concat ((λ w, embedding <$> items (batch_request apiKey w))
                                 <$> windows BATCH_SIZE rest)).
Proof.
  intros Hfetch rest.
  assert (0 < BATCH_SIZE) as Hn by (unfold BATCH_SIZE; lia).
  induction rest as [|rest Hlen IH] using (windows_ind BATCH_SIZE Hn);
    intros i acc sent Hrest.
  - rewrite embed_loop_unfold.
    assert (length texts ≤ i) as Hi.
    { apply (f_equal length) in Hrest. rewrite length_drop in Hrest. simpl in Hrest. lia. }
    rewrite decide_False by lia. simpl. by rewrite app_nil_r.
  - rewrite embed_loop_unfold.
    assert (i < length texts) as Hi by (rewrite Hrest, length_drop in Hlen; lia).
    rewrite decide_True by done. cbn zeta.
    destruct (Hfetch (batch_request apiKey (take BATCH_SIZE (drop i texts))))
      as (response & -> & Hok & Hjson).
    rewrite Hok, Hjson. cbn [negb].
    rewrite (IH (i + BATCH_SIZE)) by (rewrite Hrest, drop_drop; done).
    rewrite (windows_step BATCH_SIZE rest) by done.
    rewrite fmap_cons, <- Hrest. cbn [concat]. by rewrite <- app_assoc.
Qed.

(** X9: against an endpoint that always answers, [generateEmbeddings]
    returns the vectors of the answers one after the other in call order,
    however many vectors each answer holds: the number of vectors is not
    compared with the number of texts. *)
Theorem generateEmbeddings_concatenates_answers (apiKey : jsstring) fetch
    (items : EmbeddingRequest → list (EmbeddingItem vector)) (texts : list jsstring) :
  0 < length apiKey →
  answers_with fetch items →
  generateEmbeddings (Some apiKey) fetch texts
  = Returned (concat ((λ w, embedding <$> items (batch_request apiKey w))
                        <$> windows BATCH_SIZE texts)).
Proof.
  intros Hkey Hfetch. destruct apiKey as [|c apiKey]; [simpl in Hkey; lia|].
  unfold generateEmbeddings. cbn [generateEmbeddings_log].
  by rewrite (embed_loop_concat _ fetch items texts Hfetch texts 0 [] []).
Qed.

End Client.


Lemma generateEmbeddings_concatenates_answers_witness :
  generateEmbeddings (Some (lit "key")) one_vector_endpoint (numbered_texts 130)
  = Returned [7; 7; 7].
Proof.
  rewrite (generateEmbeddings_concatenates_answers (lit "key") one_vector_endpoint
             (λ _, [mkEmbeddingItem 7]) (numbered_texts 130)).
  - vm_compute. reflexivity.
  - simpl. lia.
  - intros request. eexists. split; [reflexivity | split; reflexivity].
Defined.

End EmbeddingsMore.

(** ** Query rewriter, continued *)

Module QueryRewriterMore.
Import QueryRewriter QueryRewriterFacts JSLemmas.

Section Rewriter.

Variable getTextFromMessage : ChatMessage → outcome jsstring.
Variable systemPrompt historyHeader queryHeader : jsstring.
Variable instructionWithHistory instructionAlone : jsstring.
Variable typeErrorMessage : ChatJson → jsstring.

#[local] Abbreviation rewriteQuery :=
  (rewriteQuery getTextFromMessage systemPrompt historyHeader queryHeader
     instructionWithHistory instructionAlone typeErrorMessage).
#[local] Abbreviation rewrite_body :=
  (rewrite_body getTextFromMessage systemPrompt historyHeader queryHeader
     instructionWithHistory instructionAlone typeErrorMessage).
#[local] Abbreviation upstream_fails := (upstream_fails typeErrorMessage).
#[local] Abbreviation rewrite_request :=
  (rewrite_request systemPrompt historyHeader queryHeader
     instructionWithHistory instructionAlone).
#[local] Abbreviation recentHistory := (recentHistory getTextFromMessage).
#[local] Abbreviation history_entries := (history_entries getTextFromMessage).

(** X10: every result of [rewriteQuery] carries the original query; a
    successful one has no error and a non-empty, trimmed rewrite of at most
    five times the length of the query; an unsuccessful one has an error and
    the original query as the rewrite.  An empty query is never rewritten. *)
Theorem rewriteQuery_result_invariant (env_key : option jsstring) (fetch : endpoint)
    (currentQuery : jsstring) (conversation : list ChatMessage) (maxHistory : Z) :
  ∃ result,
    rewriteQuery env_key fetch currentQuery conversation maxHistory = Returned result
    ∧ originalQuery result = currentQuery
    ∧ (success result = true →
         error result = None
         ∧ 0 < length (rewrittenQuery result)
         ∧ length (rewrittenQuery result) ≤ 5 * length currentQuery
         ∧ trim (rewrittenQuery result) = rewrittenQuery result)
    ∧ (success result = false →
         rewrittenQuery result = currentQuery ∧ is_Some (error result))
    ∧ (currentQuery = [] → success result = false).
Proof.
  assert (∀ err, let r := fallback currentQuery err in
            originalQuery r = currentQuery
            ∧ (success r = true →
                 error r = None ∧ 0 < length (rewrittenQuery r)
                 ∧ length (rewrittenQuery r) ≤ 5 * length currentQuery
                 ∧ trim (rewrittenQuery r) = rewrittenQuery r)
            ∧ (success r = false → rewrittenQuery r = currentQuery ∧ is_Some (error r))
            ∧ (currentQuery = [] → success r = false)) as Hfallback.
  { intros err. simpl. repeat split; eauto; done. }
  destruct env_key as [[|c apiKey]|];
    [eexists; split; [reflexivity | apply Hfallback] |
    | eexists; split; [reflexivity | apply Hfallback]].
  rewrite rewriteQuery_with_key. unfold try_catch.
  destruct (rewrite_body _ _ _ _ _) as [result|e] eqn:Hbody;
    [|eexists; split; [reflexivity | apply Hfallback]].
  exists result. split; [done|].
  unfold QueryRewriter.rewrite_body in Hbody.
  destruct (recentHistory _ _); cbn [mbind outcome_bind] in Hbody; [|done].
  destruct (fetch _) as [r|]; cbn [mbind outcome_bind] in Hbody; [|done].
  destruct (ok r); cbn [negb] in Hbody; [|by destruct (body r)].
  destruct (json r) as [[|[[|[[raw|]] ?]|]]|]; cbn [mbind outcome_bind] in Hbody;
    try done.
  cbn [message_content] in Hbody.
  case_bool_decide as Hempty; [injection Hbody as <-; apply Hfallback|].
  case_bool_decide as Hlong; [injection Hbody as <-; apply Hfallback|].
  injection Hbody as <-. simpl. repeat split; try done; try lia.
  - apply trim_idempotent.
  - intros ->. simpl in Hlong. lia.
Qed.

(** X11: a non-empty rewrite whose trimmed text is at most five times as
    long as the query is accepted: the result is that trimmed text, with
    [success] true and no error. *)
Theorem rewriteQuery_accepts (apiKey : jsstring) (fetch : endpoint)
    (currentQuery : jsstring) (conversation : list ChatMessage) (maxHistory : Z)
    (history : list HistoryEntry) (response : ChatResponse) (raw : jsstring)
    (rest : list Choice) :
  0 < length apiKey →
  recentHistory conversation maxHistory = Returned history →
  fetch (rewrite_request apiKey history currentQuery) = Returned response →
  ok response = true →
  json response = Returned (JsonObject (Some (mkChoice (Some raw) :: rest))) →
  0 < length (trim raw) →
  length (trim raw) ≤ 5 * length currentQuery →
  rewriteQuery (Some apiKey) fetch currentQuery conversation maxHistory
  = Returned {| originalQuery := currentQuery; rewrittenQuery := trim raw;
                success := true; error := None |}.
Proof.
  intros Hkey Hhistory Hfetch Hok Hjson Hnonempty Hshort.
  destruct apiKey as [|c apiKey]; [simpl in Hkey; lia|].
  rewrite rewriteQuery_with_key. unfold QueryRewriter.rewrite_body.
  rewrite Hhistory. cbn [mbind outcome_bind]. rewrite Hfetch. cbn [mbind outcome_bind].
  rewrite Hok. cbn [negb]. rewrite Hjson. cbn [mbind outcome_bind message_content].
  rewrite bool_decide_false by lia. rewrite bool_decide_false by lia. reflexivity.
Qed.

(** *** The history window *)

Lemma history_entries_spec msgs entries :
  history_entries msgs = Returned entries →
  length entries = length msgs ∧ entry_role <$> entries = role <$> msgs.
Proof.
  revert entries. induction msgs as [|m msgs IH]; intros entries; simpl.
  - by intros [= <-].
  - destruct (getTextFromMessage m) as [t|]; cbn [mbind outcome_bind]; [|done].
    destruct (history_entries msgs) as [es|]; cbn [mbind outcome_bind]; [|done].
    intros [= <-]. destruct (IH es eq_refl) as [Hlen Hroles].
    split; [simpl; lia|]. rewrite !fmap_cons. cbn [entry_role]. by rewrite Hroles.
Qed.

Lemma slice_from_length {A} (l : list A) (k : Z) :
  (0 < k)%Z → length (slice_from l (- k)) ≤ Z.to_nat k.
Proof.
  intros Hk. unfold slice_from, clamp_index.
  destruct (Z.ltb_spec (- k) 0); [|lia]. rewrite length_drop. lia.
Qed.

(** X12: the history sent to the model holds at most
    [2 * maxHistoryMessages] entries (for a positive limit), all written by
    the user or the assistant and none blank. *)
Theorem recentHistory_window (conversation : list ChatMessage) (maxHistory : Z)
    (history : list HistoryEntry) :
  recentHistory conversation maxHistory = Returned history →
  ((0 < maxHistory)%Z → length history ≤ Z.to_nat (2 * maxHistory))
  ∧ Forall (λ e, (entry_role e = user ∨ entry_role e = assistant)
                 ∧ 0 < length (trim (content e))) history.
Proof.
  unfold QueryRewriter.recentHistory.
  destruct (history_entries _) as [entries|] eqn:Hentries; cbn [mbind outcome_bind]; [|done].
  intros [= <-]. destruct (history_entries_spec _ _ Hentries) as [Hlen Hroles]. split.
  - intros Hmax. etrans; [apply List.filter_length_le|]. rewrite Hlen.
    etrans; [apply List.filter_length_le|].
    replace (- maxHistory * 2)%Z with (- (2 * maxHistory))%Z by lia.
    apply slice_from_length. lia.
  - apply Forall_forall. intros e He. apply list_elem_of_In, filter_In in He as [He Hblank].
    split; [|apply negb_true_iff, bool_decide_eq_false in Hblank; lia].
    assert (Forall (λ r, r = user ∨ r = assistant) (entry_role <$> entries)) as Hall.
    { rewrite Hroles. apply Forall_fmap, Forall_forall. intros m Hm.
      apply list_elem_of_In, filter_In in Hm as [_ Hm]. unfold is_dialogue in Hm.
      apply orb_prop in Hm as [Hm|Hm]; apply bool_decide_eq_true in Hm; auto. }
    rewrite Forall_fmap, Forall_forall in Hall. apply Hall. by apply list_elem_of_In.
Qed.

(** X13: a limit of zero does not empty the history: [slice(-0)] keeps the
    whole conversation, so the history is the one of any limit that covers
    all messages. *)
Theorem recentHistory_zero_limit (conversation : list ChatMessage) (n : nat) :
  length conversation ≤ 2 * n →
  recentHistory conversation 0 = recentHistory conversation (Z.of_nat n).
Proof.
  intros Hn. unfold QueryRewriter.recentHistory.
  assert (slice_from conversation (- 0 * 2) = slice_from conversation (- Z.of_nat n * 2))
    as Hslice; [|by rewrite Hslice].
  unfold slice_from, clamp_index. simpl ((- 0 * 2)%Z).
  destruct (Z.ltb_spec (- Z.of_nat n * 2) 0) as [Hneg|Hzero]; cbn [Z.ltb Z.compare].
  - replace (Z.to_nat (0 `max` (Z.of_nat (length conversation) + - Z.of_nat n * 2))) with 0
      by lia.
    done.
  - assert (n = 0) as -> by lia. done.
Qed.

End Rewriter.

Lemma rewriteQuery_accepts_witness :
  sample_rewriteQuery (Some (lit "key")) (answering (lit " what is React? "))
    (lit "what is it?") [] 5
  = Returned {| originalQuery := lit "what is it?"; rewrittenQuery := lit "what is React?";
                success := true; error := None |}.
Proof.
  eapply (rewriteQuery_accepts text_of_parts (lit "system") (lit "history")
            (lit "query") (lit "rewrite with history") (lit "rewrite") v8_type_error
            (lit "key") (answering (lit " what is React? ")) (lit "what is it?")
            [] 5 [] _ (lit " what is React? ") []).
  - simpl. lia.
  - reflexivity.
  - reflexivity.
  - reflexivity.
  - reflexivity.
  - vm_compute. lia.
  - vm_compute. lia.
Defined.

Lemma recentHistory_window_witness :
  length [mkEntry user (lit "hello"); mkEntry assistant (lit "hi")] ≤ Z.to_nat (2 * 1)
  ∧ Forall (λ e, (entry_role e = user ∨ entry_role e = assistant)
                 ∧ 0 < length (trim (content e)))
      [mkEntry user (lit "hello"); mkEntry assistant (lit "hi")].
Proof.
  destruct (recentHistory_window text_of_parts
              [mkChatMessage (lit "m0") user [TextPart (lit "old")];
               mkChatMessage (lit "m1") user [TextPart (lit "hello")];
               mkChatMessage (lit "m2") assistant [TextPart (lit "hi")]]
              1 [mkEntry user (lit "hello"); mkEntry assistant (lit "hi")])
    as [Hlen Hall].
  - vm_compute. reflexivity.
  - split; [apply Hlen; lia | exact Hall].
Defined.

Lemma recentHistory_zero_limit_witness :
  QueryRewriter.recentHistory text_of_parts
    [mkChatMessage (lit "m0") user [TextPart (lit "old")];
     mkChatMessage (lit "m1") user [TextPart (lit "hello")];
     mkChatMessage (lit "m2") assistant [TextPart (lit "hi")]] 0
  = QueryRewriter.recentHistory text_of_parts
      [mkChatMessage (lit "m0") user [TextPart (lit "old")];
       mkChatMessage (lit "m1") user [TextPart (lit "hello")];
       mkChatMessage (lit "m2") assistant [TextPart (lit "hi")]] (Z.of_nat 2).
Proof.
  apply (recentHistory_zero_limit text_of_parts). simpl. lia.
Defined.

End QueryRewriterMore.

(** ** Context retrieval, continued *)

Module RetrievalMore.
Import Retrieval RetrievalFacts.

Lemma insert_by_Permutation {A} (compare : A → A → Q) x (l : list A) :
  insert_by compare x l ≡ₚ x :: l.
Proof.
  induction l as [|y l IH]; simpl; [done|].
  destruct (Qle_bool _ _); [done|]. rewrite IH. apply Permutation_swap.
Qed.

Lemma sort_by_Permutation {A} (compare : A → A → Q) (l : list A) :
  sort_by compare l ≡ₚ l.
Proof.
  induction l as [|x l IH]; simpl; [done|].
  rewrite insert_by_Permutation. by constructor.
Qed.

(** X14: the documents shown to the model are the search hits at or above
    the floor, each as often as it was found, listed from the most to the
    least similar. *)
Theorem high_quality_sorted_selection (floor : Q) (docs : list RetrievedDocument) :
  high_quality floor docs
    ≡ₚ List.filter (λ doc, Qle_bool floor (similarity doc)) docs
  ∧ Forall (λ doc, (floor <= similarity doc)%Q) (high_quality floor docs)
  ∧ descending (high_quality floor docs)
  ∧ length (high_quality floor docs) ≤ length docs.
Proof.
  assert (high_quality floor docs
            ≡ₚ List.filter (λ doc, Qle_bool floor (similarity doc)) docs) as Hperm
    by apply sort_by_Permutation.
  split; [exact Hperm|]. split; [|split].
  - rewrite Hperm. apply Forall_forall. intros d Hd.
    apply list_elem_of_In, filter_In in Hd as [_ Hd]. by apply Qle_bool_iff.
  - apply sorted_from_descending, sort_by_sorted.
  - rewrite Hperm. apply List.filter_length_le.
Qed.

Section Orchestrator.
Context {vector : Type}.
Implicit Types (E : Env vector) (uiMessages : messages).

(** X15: a retrieval step that does not reach a search answer returns the
    message array it was given and no documents; no error of a collaborator
    leaves the step. *)
Theorem retrieval_degrades_softly E (message : option ChatMessage)
    (uiMessages : messages) (userId : option jsstring) (approval : bool) :
  retrieval_skipped E message userId approval →
  retrieveRelevantContext E message uiMessages userId approval
  = {| updatedMessages := uiMessages; retrievedDocuments := [] |}
  ∧ POST_retrieval E message userId approval uiMessages = (uiMessages, []).
Proof.
  intros Hskip. unfold retrieveRelevantContext, POST_retrieval.
  destruct message as [m|]; [|done].
  destruct userId as [[|c uid]|]; [done | | done].
  destruct (is_user (Some m)) eqn:Huser; cbn [andb]; [|done].
  destruct approval; cbn [negb]; [done|].
  unfold retrieve_try, POST_try.
  destruct Hskip as [H|H|H|m' e [= <-] Htext|m' t [= <-] Htext Hblank
                    |m' t [= <-] Htext Hblank|m' t e [= <-] Htext Hembed
                    |m' t [= <-] Htext Hsearch]; try done; try congruence;
    rewrite Htext; cbn [mbind outcome_bind]; try done.
  - by rewrite Hblank.
  - destruct (non_blank t); [|done]. by rewrite Hblank.
  - destruct (non_blank t); [|done].
    destruct (non_blank (TextCleaning.cleanQueryText t)); [|done].
    by rewrite Hembed.
  - destruct (non_blank t); [|done].
    destruct (non_blank (TextCleaning.cleanQueryText t)); [|done].
    destruct (Embeddings.generateEmbedding _ _ _) as [v|]; cbn [mbind outcome_bind];
      [|done].
    split.
    + by destruct (Hsearch {| embedding := v; limit := 3; knowledgeBaseId := None;
                             similarityThreshold := 0; userId := c :: uid |}) as [e ->].
    + match goal with |- context [searchSimilarDocuments E ?p] =>
        by destruct (Hsearch p) as [e ->] end.
Qed.

End Orchestrator.

(** Without an embedding key the query cannot be embedded and the turn goes
    on without context. *)
Lemma retrieval_degrades_softly_witness :
  retrieveRelevantContext keyless_env (Some question) [Some earlier; Some question]
    (Some (lit "u1")) false
  = {| updatedMessages := [Some earlier; Some question]; retrievedDocuments := [] |}
  ∧ POST_retrieval keyless_env (Some question) (Some (lit "u1")) false
      [Some earlier; Some question]
    = ([Some earlier; Some question], []).
Proof.
  apply (retrieval_degrades_softly keyless_env).
  apply (skipped_embedding_throws keyless_env _ _ _ question (lit "what is alpha?")
           (ErrorObj Embeddings.key_missing)); reflexivity.
Defined.

End RetrievalMore.

(** ** Document upload, continued *)

Module UploadMore.
Import TextChunking Upload DedupFacts UploadFacts.

(** *** The duplicate filter *)

Lemma first_occurrences_no_duplicates seen l :
  NoDup (key <$> l) → (∀ c, c ∈ l → key c ∉ seen) → first_occurrences seen l = l.
Proof.
  revert seen. induction l as [|c l IH]; intros seen Hnodup Hseen; simpl; [done|].
  rewrite fmap_cons in Hnodup. apply NoDup_cons in Hnodup as [Hc Hnodup].
  rewrite bool_decide_false by (apply Hseen, list_elem_of_here). f_equal.
  apply IH; [done|]. intros d Hd. rewrite elem_of_cons. intros [Heq|Hin].
  - apply Hc. rewrite <- Heq. apply list_elem_of_fmap. eauto.
  - apply (Hseen d); [by apply list_elem_of_further | done].
Qed.

(** X16: filtering duplicates twice is filtering them once, and a list
    without two chunks of the same trimmed text is left as it is. *)
Theorem uniqueChunks_idempotent (chunks : list TextChunk) :
  uniqueChunks (uniqueChunks chunks) = uniqueChunks chunks
  ∧ (NoDup ((λ c, trim (text c)) <$> chunks) → uniqueChunks chunks = chunks).
Proof.
  assert (∀ l, NoDup (key <$> l) → uniqueChunks l = l) as Hfixed.
  { intros l Hl. rewrite uniqueChunks_first_occurrences.
    apply first_occurrences_no_duplicates; [done|]. intros c _. apply not_elem_of_nil. }
  split; [|apply Hfixed].
  apply Hfixed. rewrite uniqueChunks_first_occurrences. apply first_occurrences_NoDup.
Qed.

(** *** The document title *)

Lemma span_len_app p (l1 l2 : jsstring) c :
  Forall (λ d, p d = true) l1 → p c = false → span_len p (l1 ++ c :: l2) = length l1.
Proof.
  intros Hl1 Hc. induction Hl1 as [|d l1 Hd _ IH]; simpl; [by rewrite Hc|].
  by rewrite Hd, IH.
Qed.

Lemma span_len_all p (l : jsstring) : Forall (λ d, p d = true) l → span_len p l = length l.
Proof. induction 1 as [|d l Hd _ IH]; simpl; [done|]. by rewrite Hd, IH. Qed.

(** X17: the title of a document is the file name without its last
    extension: for a non-empty extension free of dots and slashes
    [strip_extension (base ++ "." ++ ext)] is [base]; a name without a dot,
    or ending in a dot, is kept. *)
Theorem strip_extension_spec (base ext : jsstring) :
  (0 < length ext →
   Forall (λ c, c ≠ 0x2E%N ∧ c ≠ 0x2F%N) ext →
   strip_extension (base ++ [0x2E]%N ++ ext) = base)
  ∧ (Forall (λ c, c ≠ 0x2E%N) base → strip_extension base = base)
  ∧ strip_extension (base ++ [0x2E]%N) = base ++ [0x2E]%N.
Proof.
  split; [|split].
  - intros Hlen Hext. unfold strip_extension.
    rewrite !reverse_app, reverse_singleton, <- app_assoc. cbn [app].
    assert (Forall (λ d, negb (d =? 46)%N = true) (reverse ext)) as Hrev.
    { apply Forall_reverse. eapply Forall_impl; [exact Hext|]. simpl.
      intros c [Hc _]. by apply negb_true_iff, N.eqb_neq. }
    rewrite (span_len_app _ _ _ _ Hrev) by done.
    rewrite take_app_length, reverse_involutive.
    rewrite !length_app. cbn [length].
    rewrite bool_decide_true by lia. rewrite bool_decide_true by lia.
    replace (forallb (λ c, negb (c =? 47)%N) ext) with true; cbn [andb].
    + replace (length base + S (length ext) - length ext - 1) with (length base) by lia.
      by rewrite take_app_length.
    + symmetry. apply forallb_forall. intros c Hc.
      rewrite Forall_forall in Hext. apply list_elem_of_In, Hext in Hc as [_ Hc].
      by apply negb_true_iff, N.eqb_neq.
  - intros Hbase. unfold strip_extension.
    assert (Forall (λ d, negb (d =? 46)%N = true) (reverse base)) as Hrev.
    { apply Forall_reverse. eapply Forall_impl; [exact Hbase|]. simpl.
      intros c Hc. by apply negb_true_iff, N.eqb_neq. }
    rewrite (span_len_all _ _ Hrev).
    rewrite (take_ge (reverse base)) by lia.
    rewrite reverse_involutive. rewrite bool_decide_false by lia. done.
  - unfold strip_extension. rewrite reverse_app, reverse_singleton.
    cbn [app span_len N.eqb Pos.eqb negb take reverse rev_append length].
    rewrite (bool_decide_false (0 < 0)) by lia.
    by rewrite andb_false_r.
Qed.

Lemma strip_extension_spec_witness :
  strip_extension (lit "report.v2" ++ [0x2E]%N ++ lit "pdf") = lit "report.v2".
Proof.
  destruct (strip_extension_spec (lit "report.v2") (lit "pdf")) as [Hstrip _].
  apply Hstrip; [simpl; lia|]. repeat constructor; done.
Defined.

(** *** Statuses *)

Section Route.
Context {vector : Type}.
Implicit Types (E : Env vector) (saved : Saved).

Lemma upload_stage_early E uid response :
  upload_stage E uid = Returned (inl response) →
  (status response = 400%N ∨ status response = 500%N)
  ∧ success (body response) = None.
Proof.
  unfold upload_stage.
  destruct (formData E) as [[file|]|]; cbn [mbind outcome_bind];
    [| intros [= <-]; auto | done].
  destruct (negb _); [intros [= <-]; auto|].
  destruct (negb _); [intros [= <-]; auto|].
  destruct (extractTextFromFile E _ _) as [content|]; cbn [mbind outcome_bind]; [|done].
  destruct (blank content); [intros [= <-]; auto|].
  destruct (saveDocument E _) as [[]|]; [done | intros [= <-]; auto].
Qed.

Lemma upload_stage_saved_text E uid saved :
  upload_stage E uid = Returned (inr saved) →
  blank (saved_text saved) = false
  ∧ saveDocument E {| doc_id := saved_id saved; doc_title := saved_title saved;
                      doc_kind := lit "text"; doc_content := saved_text saved;
                      doc_userId := uid |} = Returned ().
Proof.
  unfold upload_stage.
  destruct (formData E) as [[file|]|]; cbn [mbind outcome_bind]; [| done | done].
  destruct (negb _); [done|]. destruct (negb _); [done|].
  destruct (extractTextFromFile E _ _) as [content|]; cbn [mbind outcome_bind]; [|done].
  destruct (blank content) eqn:Hblank; [done|].
  destruct (saveDocument E _) as [[]|] eqn:Hsave; [|done].
  intros [= <-]. by cbn.
Qed.

(** X18: the upload route answers with status 200, 400, 401 or 500 and
    nothing else; it answers 200, with [success] true, exactly when a
    document of kind [text] with non-blank content has been saved for the
    user of the session. *)
Theorem POST_status E :
  (status (POST E) = 200%N ∨ status (POST E) = 400%N
   ∨ status (POST E) = 401%N ∨ status (POST E) = 500%N)
  ∧ (status (POST E) = 200%N ↔
     ∃ uid saved,
       session_user E = Some uid ∧ body_is_null E = false
       ∧ upload_stage E uid = Returned (inr saved)
       ∧ blank (saved_text saved) = false
       ∧ saveDocument E {| doc_id := saved_id saved; doc_title := saved_title saved;
                           doc_kind := lit "text"; doc_content := saved_text saved;
                           doc_userId := uid |} = Returned ())
  ∧ (success (body (POST E)) = Some true ↔ status (POST E) = 200%N).
Proof.
  unfold POST.
  destruct (session_user E) as [uid|] eqn:Hsession.
  2:{ split; [auto|]. split; [|done]. split; [done | by intros (? & ? & ? & _)]. }
  destruct (body_is_null E) eqn:Hbody.
  { split; [auto|]. split; [|done]. split; [done | by intros (? & ? & _ & ? & _)]. }
  destruct (upload_stage E uid) as [[response|saved]|e] eqn:Hstage.
  - destruct (upload_stage_early _ _ _ Hstage) as [Hstatus Hsuccess].
    split; [tauto|].
    split; [|rewrite Hsuccess; split;
             [done | intros H; rewrite H in Hstatus; by destruct Hstatus]].
    split; [intros H; rewrite H in Hstatus; by destruct Hstatus|].
    intros (uid' & saved & [= <-] & _ & Hsaved & _). congruence.
  - destruct (index_stage_ok E saved) as [Hstatus Hsuccess].
    split; [auto|]. split; [|by rewrite Hstatus, Hsuccess].
    split; [intros _ | done].
    destruct (upload_stage_saved_text E uid saved Hstage) as [Hblank Hsave].
    by exists uid, saved.
  - split; [auto|]. split; [|done]. split; [done|].
    intros (uid' & saved & [= <-] & _ & Hsaved & _). congruence.
Qed.

(** *** Rows *)

(** X19: the rows saved for a document are numbered 0, 1, 2, ... in chunk
    order; row [k] carries the cleaned, non-empty text of chunk [k] and the
    vector at position [k], or no vector when fewer vectors than chunks came
    back. *)
Theorem rows_spec (docId : jsstring) (unique : list TextChunk) (embeddings : list vector) :
  length (rows docId (cleanedChunks unique) embeddings) = length (cleanedChunks unique)
  ∧ row_chunkIndex <$> rows docId (cleanedChunks unique) embeddings
    = seq 0 (length (cleanedChunks unique))
  ∧ ∀ k row, rows docId (cleanedChunks unique) embeddings !! k = Some row →
      row_documentId row = docId
      ∧ row_chunkIndex row = k
      ∧ row_embedding row = embeddings !! k
      ∧ 0 < length (row_content row)
      ∧ ∃ chunk, chunk ∈ unique
          ∧ row_content row = TextCleaning.cleanTextForEmbedding (text chunk).
Proof.
  unfold rows. split; [by rewrite length_imap|]. split.
  - generalize (cleanedChunks unique). intros l.
    change (seq 0 (length l)) with (seq 0 (length l)).
    assert (∀ n, row_chunkIndex <$> imap (λ index chunk,
               {| row_documentId := docId; row_knowledgeBaseId := None;
                  row_chunkIndex := n + index; row_content := text chunk;
                  row_embedding := embeddings !! index |}) l = seq n (length l)) as Hgen.
    { induction l as [|c l IH] using rev_ind; intros n; [done|].
      rewrite imap_app, fmap_app, length_app, seq_app, IH. simpl.
      by rewrite Nat.add_0_r. }
    exact (Hgen 0).
  - intros k row Hrow. rewrite list_lookup_imap in Hrow.
    destruct (cleanedChunks unique !! k) as [chunk|] eqn:Hchunk; [|done].
    injection Hrow as <-. cbn. do 3 (split; [done|]).
    apply list_elem_of_lookup_2 in Hchunk. unfold cleanedChunks in Hchunk.
    apply list_elem_of_In, filter_In in Hchunk as [Hin Hlen].
    apply bool_decide_eq_true in Hlen. split; [done|].
    apply list_elem_of_In, list_elem_of_fmap in Hin as (source & -> & Hsource).
    by exists source.
Qed.

(** *** The indexing of a saved document *)

(** X20: when no collaborator fails and the endpoint answers in request
    order, a saved document with at least one non-empty cleaned chunk is
    answered with [chunksIndexed] equal to the number of those chunks, and
    the rows handed to the database carry, for each chunk, the vector of its
    cleaned text. *)
Theorem index_stage_success E saved (apiKey : jsstring) (Evec : jsstring → vector)
    (chunks : list TextChunk) :
  deleteDocumentEmbeddings E (saved_id saved) = Returned () →
  chunkText (splitText E) (saved_text saved) {| maxChunkSize := 500; overlap := 50 |}
    = Returned chunks →
  0 < length (cleanedChunks (uniqueChunks chunks)) →
  env_key E = Some apiKey → 0 < length apiKey →
  Embeddings.answers_in_order (fetch E) Evec →
  saveDocumentEmbeddings E
    (rows (saved_id saved) (cleanedChunks (uniqueChunks chunks))
       (Evec <$> (text <$> cleanedChunks (uniqueChunks chunks)))) = Returned () →
  index_stage E saved
  = indexed_response (saved_id saved) (saved_title saved) (saved_blobUrl saved)
      (indexed_message (length (cleanedChunks (uniqueChunks chunks))) (saved_title saved))
      (length (cleanedChunks (uniqueChunks chunks)))
  ∧ Forall (λ row, row_embedding row = Some (Evec (row_content row)))
      (rows (saved_id saved) (cleanedChunks (uniqueChunks chunks))
         (Evec <$> (text <$> cleanedChunks (uniqueChunks chunks)))).
Proof.
  intros Hdelete Hchunk Hlen Hkey Hkeylen Hfetch Hsave. split.
  - unfold index_stage, index_try. rewrite Hdelete. cbn [mbind outcome_bind].
    rewrite Hchunk. cbn [mbind outcome_bind].
    pose proof (cleanedChunks_length (uniqueChunks chunks)).
    rewrite bool_decide_false by lia. rewrite bool_decide_false by lia.
    unfold Embeddings.generateEmbeddings, Embeddings.generateEmbeddings_log.
    rewrite Hkey. destruct apiKey as [|c apiKey]; [simpl in Hkeylen; lia|].
    rewrite (EmbeddingsFacts.embed_loop_answers _ (fetch E) Evec _ Hfetch
               (text <$> cleanedChunks (uniqueChunks chunks)) 0 [] []) by done.
    cbn [snd app mbind outcome_bind]. by rewrite Hsave.
  - apply Forall_lookup. intros k row Hrow. unfold rows in Hrow.
    rewrite list_lookup_imap in Hrow.
    destruct (cleanedChunks (uniqueChunks chunks) !! k) as [chunk|] eqn:Hk; [|done].
    injection Hrow as <-. cbn. by rewrite !list_lookup_fmap, Hk.
Qed.

End Route.

Lemma index_stage_success_witness :
  index_stage smooth_upload_env smooth_saved
  = indexed_response (lit "doc-2") (lit "notes") (Some (lit "https://blob/notes.txt"))
      (lit "Successfully uploaded and indexed 3 chunks from " ++ [0x22]%N ++ lit "notes"
         ++ [0x22]%N) 3
  ∧ POST smooth_upload_env = index_stage smooth_upload_env smooth_saved.
Proof.
  split; [|vm_compute; reflexivity].
  refine (proj1 (index_stage_success smooth_upload_env smooth_saved (lit "key") length
                   [mkTextChunk (lit "alpha") 0 5; mkTextChunk (lit "beta") 6 10;
                    mkTextChunk (lit "alpha") 12 17; mkTextChunk (lit "gamma") 18 23]
                   _ _ _ _ _ _ _)); try reflexivity.
  - vm_compute. lia.
  - simpl. lia.
  - intros request batch Hinput. eexists. unfold smooth_upload_env, length_endpoint.
    cbn [fetch]. rewrite Hinput. split; [reflexivity | split; reflexivity].
Defined.

End UploadMore.

(** ** Token estimates *)

Module TokenCounterFacts.

Import TokenCounter JSLemmas.

Lemma Qceiling_fraction (m : Z) : Qceiling (m # 12) = ((m + 11) / 12)%Z.
Proof.
  unfold Qceiling, Qfloor, Qopp. cbn [Qnum Qden].
  Z.to_euclidean_division_equations. lia.
Qed.

(** The estimate as integer arithmetic on the two counts. *)
Lemma estimateTokenCount_exact (text : jsstring) :
  estimateTokenCount text
  = ((8 * Z.of_nat (length (List.filter is_chinese text))
      + 3 * (Z.of_nat (length text) - Z.of_nat (length (List.filter is_chinese text)))
      + 11) / 12)%Z.
Proof.
  unfold estimateTokenCount. case_bool_decide as Hlen.
  - destruct text; [done | simpl in Hlen; lia].
  - cbn zeta. rewrite <- Qceiling_fraction. apply Qceiling_comp.
    unfold Qeq, Qdiv, Qmult, Qplus, Qinv, inject_Z. cbn [Qnum Qden]. lia.
Qed.

Lemma chinese_le (text : jsstring) :
  length (List.filter is_chinese text) ≤ length text.
Proof. apply List.filter_length_le. Qed.

(** X21: the token estimate of a text lies between a quarter and two thirds
    of its length, rounded up; it never exceeds the length and is zero for
    the empty text only. *)
Theorem estimateTokenCount_bounds (text : jsstring) :
  (Z.of_nat (length text) ≤ 4 * estimateTokenCount text)%Z
  ∧ (3 * estimateTokenCount text ≤ 2 * Z.of_nat (length text) + 2)%Z
  ∧ (estimateTokenCount text ≤ Z.of_nat (length text))%Z
  ∧ (estimateTokenCount text = 0%Z ↔ text = []).
Proof.
  rewrite estimateTokenCount_exact. pose proof (chinese_le text) as Hle.
  assert (text = [] ↔ Z.of_nat (length text) = 0%Z) as ->
    by (destruct text; simpl; split; (done || lia)).
  assert (0 ≤ Z.of_nat (length (List.filter is_chinese text)) ≤ Z.of_nat (length text))%Z
    as Hc by lia.
  revert Hc. clear Hle.
  generalize (Z.of_nat (length (List.filter is_chinese text))) (Z.of_nat (length text)).
  intros c n Hc.
  split; [|split; [|split; [|split]]]; Z.to_euclidean_division_equations; lia.
Qed.

(** X22: appending text never lowers the estimate, and the estimate of a
    concatenation is at most the sum of the estimates of its parts. *)
Theorem estimateTokenCount_app (a b : jsstring) :
  (estimateTokenCount a ≤ estimateTokenCount (a ++ b))%Z
  ∧ (estimateTokenCount b ≤ estimateTokenCount (a ++ b))%Z
  ∧ (estimateTokenCount (a ++ b) ≤ estimateTokenCount a + estimateTokenCount b)%Z.
Proof.
  rewrite !estimateTokenCount_exact, List.filter_app, !length_app, !Nat2Z.inj_add.
  assert (0 ≤ Z.of_nat (length (List.filter is_chinese a)) ≤ Z.of_nat (length a))%Z
    as Ha by (pose proof (chinese_le a); lia).
  assert (0 ≤ Z.of_nat (length (List.filter is_chinese b)) ≤ Z.of_nat (length b))%Z
    as Hb by (pose proof (chinese_le b); lia).
  revert Ha Hb.
  generalize (Z.of_nat (length (List.filter is_chinese a))) (Z.of_nat (length a))
             (Z.of_nat (length (List.filter is_chinese b))) (Z.of_nat (length b)).
  intros ca na cb nb Ha Hb.
  split; [|split]; Z.to_euclidean_division_equations; lia.
Qed.

Lemma is_prefix_app (p s : jsstring) :
  is_prefix p s = true ↔ ∃ post, s = p ++ post.
Proof.
  rewrite TextChunkingMore.is_prefix_take. split.
  - intros Htake. exists (drop (length p) s). by rewrite <- Htake at 1; rewrite take_drop.
  - intros [post ->]. by rewrite take_app_length.
Qed.

Lemma find_from_occurs (key s : jsstring) (pos : nat) :
  (∃ i, find_from key s pos = Some i) ↔ ∃ pre post, s = pre ++ key ++ post.
Proof.
  revert pos. induction s as [|c s IH]; intros pos; cbn [find_from].
  - destruct (is_prefix key []) eqn:Hp.
    + apply is_prefix_app in Hp as [post Hpost]. split; [intros _ | by eexists].
      by exists [], post.
    + split; [by intros [? ?]|]. intros (pre & post & Heq).
      symmetry in Heq. apply app_eq_nil in Heq as [-> Heq].
      apply app_eq_nil in Heq as [-> ->]. by simpl in Hp.
  - destruct (is_prefix key (c :: s)) eqn:Hp.
    + apply is_prefix_app in Hp as [post Hpost]. split; [intros _ | by eexists].
      by exists [], post.
    + rewrite IH. split.
      * intros (pre & post & ->). by exists (c :: pre), post.
      * intros ([|d pre] & post & Heq).
        -- assert (is_prefix key (c :: s) = true) as Hyes
             by (apply is_prefix_app; by exists post).
           congruence.
        -- injection Heq as -> ->. by exists pre, post.
Qed.

(** [includes] is the substring test. *)
Lemma includes_spec (s key : jsstring) :
  includes s key = true ↔ ∃ pre post, s = pre ++ key ++ post.
Proof.
  rewrite <- (find_from_occurs key s 0). unfold includes.
  destruct (find_from key s 0); split; try done; [by eexists | by intros [? ?]].
Qed.

Lemma includes_longer (s key tail : jsstring) :
  includes s (key ++ tail) = true → includes s key = true.
Proof.
  rewrite !includes_spec. intros (pre & post & ->).
  exists pre, (tail ++ post). by rewrite <- !(assoc_L (++)).
Qed.

Lemma Qle_bool_floor (z : Z) (q : Q) :
  Qle_bool (inject_Z z) q = true ↔ (z ≤ Qfloor q)%Z.
Proof.
  rewrite Qle_bool_iff. split.
  - intros Hle. rewrite <- (Qfloor_Z z). by apply Qfloor_resp_le.
  - intros Hle. apply Qle_trans with (inject_Z (Qfloor q)); [|apply Qfloor_le].
    by rewrite <- Zle_Qle.
Qed.

(** X23: the reported limit is 80% of a context window rounded down, and
    only four values occur: 6553, 13107, 102400 and 160000; the text is
    within the limit exactly when its estimate is at most the reported
    limit. *)
Theorem isWithinContextWindow_limits (text modelId : jsstring) :
  maxTokens (isWithinContextWindow text modelId) ∈ [6553; 13107; 102400; 160000]%Z
  ∧ tokens (isWithinContextWindow text modelId) = estimateTokenCount text
  ∧ (withinLimit (isWithinContextWindow text modelId) = true ↔
     (estimateTokenCount text ≤ maxTokens (isWithinContextWindow text modelId))%Z).
Proof.
  split; [|split; [done | apply Qle_bool_floor]].
  unfold isWithinContextWindow, contextWindowLimits. cbn [maxTokens first_limit].
  destruct (includes modelId (lit "gpt-4")) eqn:H4;
    [set (v := Qfloor _); vm_compute in v; subst v; rewrite !elem_of_cons; tauto|].
  assert (∀ tail, includes modelId (lit "gpt-4" ++ tail) = false) as Hlonger.
  { intros tail. destruct (includes modelId (lit "gpt-4" ++ tail)) eqn:Htail; [|done].
    apply includes_longer in Htail. congruence. }
  pose proof (Hlonger (lit "-32k")) as H32. pose proof (Hlonger (lit "-turbo")) as Hturbo.
  pose proof (Hlonger (lit "o")) as Ho.
  change (lit "gpt-4" ++ lit "-32k") with (lit "gpt-4-32k") in H32.
  change (lit "gpt-4" ++ lit "-turbo") with (lit "gpt-4-turbo") in Hturbo.
  change (lit "gpt-4" ++ lit "o") with (lit "gpt-4o") in Ho.
  rewrite H32, Hturbo, Ho.
  repeat match goal with
         | |- context [if ?b then _ else _] => destruct b
         end; set (v := Qfloor _); vm_compute in v; subst v; rewrite !elem_of_cons; tauto.
Qed.

(** X24: every model id that contains [gpt-4], and so every id that contains
    [gpt-4-32k], [gpt-4-turbo] or [gpt-4o], gets the window of the first
    table entry: a reported limit of 6553 tokens. *)
Theorem isWithinContextWindow_gpt4 (text modelId key : jsstring) :
  key ∈ [lit "gpt-4"; lit "gpt-4-32k"; lit "gpt-4-turbo"; lit "gpt-4o"] →
  includes modelId key = true →
  maxTokens (isWithinContextWindow text modelId) = 6553%Z
  ∧ (withinLimit (isWithinContextWindow text modelId) = true ↔
     (estimateTokenCount text ≤ 6553)%Z).
Proof.
  intros Hkey Hincludes.
  assert (includes modelId (lit "gpt-4") = true) as H4.
  { rewrite !elem_of_cons, elem_of_nil in Hkey.
    destruct Hkey as [->|[->|[->|[->|[]]]]]; [done| | |].
    - by apply (includes_longer _ _ (lit "-32k")).
    - by apply (includes_longer _ _ (lit "-turbo")).
    - by apply (includes_longer _ _ (lit "o")). }
  assert (maxTokens (isWithinContextWindow text modelId) = 6553%Z) as Hmax.
  { unfold isWithinContextWindow, contextWindowLimits. cbn [maxTokens first_limit].
    by rewrite H4. }
  split; [done|]. rewrite <- Hmax. apply Qle_bool_floor.
Qed.

Lemma isWithinContextWindow_gpt4_witness :
  maxTokens (isWithinContextWindow (lit "hello world") (lit "openai/gpt-4-turbo-preview"))
  = 6553%Z.
Proof.
  refine (proj1 (isWithinContextWindow_gpt4 (lit "hello world")
                   (lit "openai/gpt-4-turbo-preview") (lit "gpt-4-turbo") _ _)).
  - rewrite !elem_of_cons. tauto.
  - reflexivity.
Defined.

End TokenCounterFacts.

(** ** Text extraction *)

Module FileExtractionFacts.

Import Trace FileExtraction.

Lemma is_suffix_of_spec (suffix s : jsstring) :
  Upload.is_suffix_of suffix s = true ↔ ∃ pre, s = pre ++ suffix.
Proof.
  induction s as [|c s IH]; cbn [Upload.is_suffix_of].
  - rewrite orb_false_r, bool_decide_eq_true. split.
    + intros <-. by exists [].
    + intros [pre Heq]. symmetry in Heq. by apply app_eq_nil in Heq as [_ ->].
  - rewrite orb_true_iff, bool_decide_eq_true, IH. split.
    + intros [<-|[pre ->]]; [by exists [] | by exists (c :: pre)].
    + intros [[|d pre] Heq]; [by left | right]. injection Heq as -> ->. by exists pre.
Qed.

(** Two suffixes of one string end with the same unit. *)
Lemma is_suffix_of_last (a b s : jsstring) (x y : N) :
  last a = Some x → last b = Some y →
  Upload.is_suffix_of a s = true → Upload.is_suffix_of b s = true → x = y.
Proof.
  intros Ha Hb [pre ->]%is_suffix_of_spec [pre' Heq]%is_suffix_of_spec.
  apply (f_equal last) in Heq. rewrite !last_app, Ha, Hb in Heq. by injection Heq.
Qed.

Section Extractor.

Context {meta : Type}.
Implicit Types (E : Env meta).

Lemma extract_body_trace E path fileName mimeType :
  ∃ mid, (extract_body E path fileName mimeType).1 = WriteFile path :: mid
         ∧ (mid = [] ∨ mid = [LoadPdf path] ∨ mid = [LoadText path]).
Proof.
  unfold extract_body. cbn [mbind traced_bind bind call].
  destruct (writeFile E path); [|exists []; auto].
  destruct (bool_decide _).
  - cbn [bind call]. destruct (loadPdf E path); exists [LoadPdf path]; auto.
  - destruct (_ || _).
    + cbn [bind call]. destruct (loadText E path); exists [LoadText path]; auto.
    + exists []. auto.
Qed.

(** X25: the extractor touches one path only: it writes the temporary file
    first, reads it with at most one loader and always ends by removing it,
    also after a failed write or an unsupported type; whether the removal
    works has no influence on what the extractor returns or throws. *)
Theorem extractTextFromFile_cleans_up E (fileName mimeType : jsstring) :
  (∃ mid,
     (extractTextFromFile E fileName mimeType).1
     = WriteFile (tempFilePath E fileName) :: mid ++ [Unlink (tempFilePath E fileName)]
     ∧ (mid = [] ∨ mid = [LoadPdf (tempFilePath E fileName)]
        ∨ mid = [LoadText (tempFilePath E fileName)]))
  ∧ ∀ unlink',
      (extractTextFromFile (with_unlink E unlink') fileName mimeType).2
      = (extractTextFromFile E fileName mimeType).2.
Proof.
  split.
  - destruct (extract_body_trace E (tempFilePath E fileName) fileName mimeType)
      as (mid & Htrace & Hmid).
    exists mid. split; [|done]. unfold extractTextFromFile. cbn zeta.
    destruct (extract_body _ _ _ _) as [log result]. cbn [fst] in Htrace. subst log.
    unfold finally, catch, call, pure. by destruct (unlink E _).
  - intros unlink'. unfold extractTextFromFile. cbn zeta.
    change (tempFilePath (with_unlink E unlink') fileName) with (tempFilePath E fileName).
    change (extract_body (with_unlink E unlink')) with (extract_body E).
    destruct (extract_body _ _ _ _) as [log result].
    unfold finally, catch, call, pure. cbn [unlink with_unlink].
    by destruct (unlink' _), (unlink E _).
Qed.

(** X26: a file whose type is none of the three supported ones and whose
    name ends neither in [.txt] nor in [.md] is written to the temporary
    path and removed again without being read, and the extractor throws
    [Unsupported file type: ] followed by the type. *)
Theorem extractTextFromFile_unsupported E (fileName mimeType : jsstring) :
  mimeType ∉ [lit "application/pdf"; lit "text/plain"; lit "text/markdown"] →
  Upload.is_suffix_of (lit ".txt") fileName = false →
  Upload.is_suffix_of (lit ".md") fileName = false →
  writeFile E (tempFilePath E fileName) = Returned () →
  extractTextFromFile E fileName mimeType
  = ([WriteFile (tempFilePath E fileName); Unlink (tempFilePath E fileName)],
     Thrown (ErrorObj (lit "Unsupported file type: " ++ mimeType))).
Proof.
  intros Hmime Htxt Hmd Hwrite. rewrite !not_elem_of_cons in Hmime.
  destruct Hmime as (Hpdf & Hplain & Hmarkdown & _).
  unfold extractTextFromFile, extract_body. cbn zeta.
  cbn [mbind traced_bind bind call]. rewrite Hwrite.
  rewrite !bool_decide_false by done. rewrite Htxt, Hmd. cbn [orb raise].
  unfold finally, catch, call, pure. by destruct (unlink E _).
Qed.

End Extractor.

Lemma extractTextFromFile_unsupported_witness :
  extractTextFromFile sticky_fs (lit "scan.pdf") (lit "image/png")
  = ([WriteFile (lit "/tmp/upload-0-scan.pdf"); Unlink (lit "/tmp/upload-0-scan.pdf")],
     Thrown (ErrorObj (lit "Unsupported file type: image/png"))).
Proof.
  apply (extractTextFromFile_unsupported sticky_fs (lit "scan.pdf") (lit "image/png"));
    try reflexivity.
  rewrite !not_elem_of_cons. repeat split; try discriminate. apply not_elem_of_nil.
Defined.

Section Route.

Import Upload.

Context {vector meta : Type}.

(** X27: the upload route accepts a file by its name alone, the extractor
    does not: a file of at most 5 MB whose name ends in [.pdf] and whose type
    is none of the three supported ones passes the route's type check, makes
    the extractor throw, and is answered with status 500 and
    [Failed to process document upload]. *)
Theorem POST_rejects_mislabeled_pdf (E : Upload.Env vector) (fs : FileExtraction.Env meta)
    (uid : jsstring) (file : UploadedFile) :
  extracts_with E fs →
  session_user E = Some uid → body_is_null E = false →
  formData E = Returned (Some file) →
  (size file ≤ MAX_SIZE)%N →
  is_suffix_of (lit ".pdf") (name file) = true →
  type file ∉ [lit "application/pdf"; lit "text/plain"; lit "text/markdown"] →
  isValidType (if truthy (Some (type file)) then type file
               else lit "application/octet-stream") (name file) = true
  ∧ POST E = error_response 500 (lit "Failed to process document upload").
Proof.
  intros Hextract Hsession Hbody Hform Hsize Hpdf Htype.
  set (mimeType := if truthy (Some (type file)) then type file
                   else lit "application/octet-stream").
  assert (mimeType ∉ [lit "application/pdf"; lit "text/plain"; lit "text/markdown"])
    as Hmime.
  { subst mimeType. destruct (truthy _); [done|].
    rewrite !not_elem_of_cons. repeat split; try discriminate. apply not_elem_of_nil. }
  assert (isValidType mimeType (name file) = true) as Hvalid.
  { unfold isValidType. rewrite Hpdf. by rewrite orb_true_r. }
  split; [done|].
  assert (is_suffix_of (lit ".txt") (name file) = false) as Htxt.
  { destruct (is_suffix_of (lit ".txt") (name file)) eqn:Htxt; [|done].
    by pose proof (is_suffix_of_last (lit ".pdf") (lit ".txt") (name file) 0x66 0x74
                     eq_refl eq_refl Hpdf Htxt). }
  assert (is_suffix_of (lit ".md") (name file) = false) as Hmd.
  { destruct (is_suffix_of (lit ".md") (name file)) eqn:Hmd; [|done].
    by pose proof (is_suffix_of_last (lit ".pdf") (lit ".md") (name file) 0x66 0x64
                     eq_refl eq_refl Hpdf Hmd). }
  assert (∃ e, Upload.extractTextFromFile E file mimeType = Thrown e) as [e Hthrown].
  { rewrite Hextract.
    unfold FileExtraction.extractTextFromFile, extract_body. cbn zeta.
    cbn [mbind traced_bind bind call]. rewrite !not_elem_of_cons in Hmime.
    destruct Hmime as (Hnpdf & Hnplain & Hnmarkdown & _).
    destruct (writeFile fs _).
    - rewrite !bool_decide_false by done. rewrite Htxt, Hmd. cbn [orb raise].
      unfold finally, catch, call, pure. destruct (unlink fs _); by eexists.
    - unfold finally, catch, call, pure. destruct (unlink fs _); by eexists. }
  unfold POST. rewrite Hsession, Hbody. unfold upload_stage. rewrite Hform.
  cbn [mbind outcome_bind].
  apply N.leb_le in Hsize. rewrite Hsize. cbn [negb].
  fold mimeType. rewrite Hvalid. cbn [negb]. by rewrite Hthrown.
Qed.

End Route.

Lemma POST_rejects_mislabeled_pdf_witness :
  Upload.POST mislabeled_upload_env
  = Upload.error_response 500 (lit "Failed to process document upload").
Proof.
  refine (proj2 (POST_rejects_mislabeled_pdf mislabeled_upload_env sticky_fs (lit "u1")
                   mislabeled_file _ _ _ _ _ _ _)); try reflexivity.
  - intros file mimeType. reflexivity.
  - vm_compute. discriminate.
  - rewrite !not_elem_of_cons. repeat split; try discriminate. apply not_elem_of_nil.
Defined.

End FileExtractionFacts.

(** ** The [indexDocument] tool *)

Module IndexToolFacts.

Import Trace TextChunking IndexTool.

Section Tool.

Context {vector : Type}.
Implicit Types (E : Env vector) (log : list (DbOp vector)).

(** The two ways through the [try] block: it stops before the rows are
    saved, by a throw or with an error result, or it hands the rows of the
    cleaned chunks to the database and completes as that call does. *)
Lemma index_try_inv E (documentId : jsstring) (knowledgeBaseId : option jsstring)
    (docTitle docContent : jsstring) :
  (∃ result,
     index_try E documentId knowledgeBaseId docTitle docContent
     = ([DeleteEmbeddings documentId], result)
     ∧ ∀ r, result = Returned r → success r = None ∧ is_Some (error r))
  ∨ (∃ saved result,
       index_try E documentId knowledgeBaseId docTitle docContent
       = ([DeleteEmbeddings documentId; SaveEmbeddings saved], result)
       ∧ 0 < length saved
       ∧ Forall (λ row, Upload.row_documentId row = documentId
                        ∧ Upload.row_knowledgeBaseId row = knowledgeBaseId
                        ∧ 0 < length (Upload.row_content row)) saved
       ∧ match saveDocumentEmbeddings E saved with
         | Returned _ =>
             result = Returned {| error := None; success := Some true;
                                  chunksIndexed := Some (length saved);
                                  message := Some (indexed_message (length saved)
                                                     docTitle) |}
         | Thrown e => result = Thrown e
         end).
Proof.
  unfold index_try. cbn [mbind traced_bind bind call silent].
  destruct (deleteDocumentEmbeddings E documentId) as [[]|e]; [|left; by eexists].
  destruct (chunkText _ _ _) as [chunks|e]; [|left; by eexists].
  cbn [app].
  case_bool_decide as Hunique.
  { left. eexists. split; [done|]. intros r [= <-]. by split; [|eexists]. }
  set (cleaned := Upload.cleanedChunks (Upload.uniqueChunks chunks)).
  case_bool_decide as Hcleaned.
  { left. eexists. split; [done|]. intros r [= <-]. by split; [|eexists]. }
  destruct (Embeddings.generateEmbeddings _ _ _) as [embeddings|e]; [|left; by eexists].
  cbn [app]. right. exists (rows documentId knowledgeBaseId cleaned embeddings).
  assert (length (rows documentId knowledgeBaseId cleaned embeddings) = length cleaned)
    as Hlen by (unfold rows; by rewrite length_imap).
  assert (Forall (λ row, Upload.row_documentId row = documentId
                         ∧ Upload.row_knowledgeBaseId row = knowledgeBaseId
                         ∧ 0 < length (Upload.row_content row))
            (rows documentId knowledgeBaseId cleaned embeddings)) as Hrows.
  { apply Forall_lookup. intros k row Hrow. unfold rows in Hrow.
    rewrite list_lookup_imap in Hrow.
    destruct (cleaned !! k) as [chunk|] eqn:Hchunk; [|done]. injection Hrow as <-.
    cbn. do 2 (split; [done|]).
    apply list_elem_of_lookup_2 in Hchunk. unfold cleaned, Upload.cleanedChunks in Hchunk.
    apply list_elem_of_In, filter_In in Hchunk as [_ Hlong].
    by apply bool_decide_eq_true in Hlong. }
  rewrite Hlen.
  destruct (saveDocumentEmbeddings E _) as [[]|e]; eexists;
    (split; [done|]); (split; [lia|]); by split.
Qed.

(** X28: the tool writes to the database only for the owner of a stored
    document that has content; what it writes is at most one deletion of the
    embeddings of that document, followed by at most one insertion of a
    non-empty list of rows, all of that document and the given knowledge
    base and none with empty content. *)
Theorem execute_writes E (sessionUser : option jsstring) (documentId : jsstring)
    (knowledgeBaseId : option jsstring) :
  let log := (execute E sessionUser documentId knowledgeBaseId).1 in
  (log = []
   ∨ log = [DeleteEmbeddings documentId]
   ∨ ∃ saved,
       log = [DeleteEmbeddings documentId; SaveEmbeddings saved]
       ∧ 0 < length saved
       ∧ Forall (λ row, Upload.row_documentId row = documentId
                        ∧ Upload.row_knowledgeBaseId row = knowledgeBaseId
                        ∧ 0 < length (Upload.row_content row)) saved)
  ∧ (log ≠ [] →
     ∃ uid document,
       sessionUser = Some uid ∧ 0 < length uid
       ∧ getDocumentById E documentId = Returned (Some document)
       ∧ userId document = uid
       ∧ truthy (content document) = true).
Proof.
  cbn zeta. unfold execute.
  destruct sessionUser as [[|c uid]|]; cbn [truthy negb]; [by split; [left|]| |by split; [left|]].
  cbn [mbind traced_bind bind silent].
  destruct (getDocumentById E documentId) as [[[docTitle [[|d docContent]|] owner]|]|e];
    cbn [fst]; try (by split; [left|]).
  case_bool_decide as Howner; cbn [negb]; [|by split; [left|]].
  injection Howner as ->.
  destruct (index_try_inv E documentId knowledgeBaseId docTitle (d :: docContent))
    as [(result & -> & _)|(saved & result & -> & Hlen & Hrows & _)].
  - split.
    + right; left. unfold catch, pure. destruct result; by rewrite ?app_nil_r.
    + intros _. exists (c :: uid), {| title := docTitle; content := Some (d :: docContent);
                                      userId := c :: uid |}.
      repeat split; simpl; lia.
  - split.
    + right; right. exists saved. split; [|done].
      unfold catch, pure. destruct result; by rewrite ?app_nil_r.
    + intros _. exists (c :: uid), {| title := docTitle; content := Some (d :: docContent);
                                      userId := c :: uid |}.
      repeat split; simpl; lia.
Qed.

(** X29: the tool throws only when reading the document throws, and then it
    has written nothing; it reports success exactly when the rows have been
    inserted, with [chunksIndexed] the number of inserted rows; the answer
    [Failed to index document] is given only after the deletion of the old
    embeddings has been requested. *)
Theorem execute_result E (sessionUser : option jsstring) (documentId : jsstring)
    (knowledgeBaseId : option jsstring) :
  let log := (execute E sessionUser documentId knowledgeBaseId).1 in
  match (execute E sessionUser documentId knowledgeBaseId).2 with
  | Thrown e =>
      log = [] ∧ truthy sessionUser = true ∧ getDocumentById E documentId = Thrown e
  | Returned r =>
      (success r = Some true ↔
       ∃ saved, log = [DeleteEmbeddings documentId; SaveEmbeddings saved]
                ∧ saveDocumentEmbeddings E saved = Returned ()
                ∧ chunksIndexed r = Some (length saved))
      ∧ (success r = Some true ↔ error r = None)
      ∧ (error r = Some (lit "Failed to index document") →
         ∃ rest, log = DeleteEmbeddings documentId :: rest)
  end.
Proof.
  cbn zeta. unfold execute.
  assert (∀ msg,
            msg ≠ lit "Failed to index document" →
            (success (failure msg) = Some true ↔
             ∃ saved, @nil (DbOp vector) = [DeleteEmbeddings documentId; SaveEmbeddings saved]
                      ∧ saveDocumentEmbeddings E saved = Returned ()
                      ∧ chunksIndexed (failure msg) = Some (length saved))
            ∧ (success (failure msg) = Some true ↔ error (failure msg) = None)
            ∧ (error (failure msg) = Some (lit "Failed to index document") →
               ∃ rest, @nil (DbOp vector) = DeleteEmbeddings documentId :: rest))
    as Hfailure.
  { intros msg Hmsg. cbn. split; [split; [done | by intros (? & ? & _)]|].
    split; [done|]. intros [= ->]. by destruct Hmsg. }
  destruct sessionUser as [[|c uid]|]; cbn [truthy negb].
  1,3: by apply Hfailure.
  cbn [mbind traced_bind bind silent].
  destruct (getDocumentById E documentId) as [[[docTitle [[|d docContent]|] owner]|]|e];
    cbn [fst snd app mret traced_ret pure]; [by apply Hfailure| |by apply Hfailure..|done].
  case_bool_decide as Howner; cbn [negb fst snd mret traced_ret pure];
    [|by apply Hfailure].
  destruct (index_try_inv E documentId knowledgeBaseId docTitle (d :: docContent))
    as [(result & -> & Hresult)|(saved & result & -> & Hlen & Hrows & Hsave)].
  - unfold catch, pure. destruct result as [r|e]; cbn [fst snd app].
    + destruct (Hresult r eq_refl) as [Hsuccess [msg Herror]].
      rewrite Hsuccess, Herror. split; [|split; [done | by eexists]].
      split; [done | by intros (? & ? & _)].
    + cbn. split; [|split; [done | by eexists]].
      split; [done | by intros (? & ? & _)].
  - unfold catch, pure.
    destruct (saveDocumentEmbeddings E saved) as [[]|e] eqn:Hsaved; subst result;
      cbn [fst snd app error success chunksIndexed failure].
    + split; [|split; [done | by eexists]].
      split; [intros _; by exists saved | done].
    + split; [|split; [done | by eexists]].
      split; [done|]. intros (saved' & [= <-] & Hreturned & _). congruence.
Qed.

End Tool.

End IndexToolFacts.

(** ** The [retrieveDocuments] tool *)

Module RetrieveToolFacts.

Import Retrieval RetrieveTool.

Section Tool.

Context {vector : Type}.
Variable round2 : Q → Q.
Implicit Types (E : RetrieveTool.Env vector).

(** X30: the tool never throws.  An answer with an error carries no results;
    an answer without error carries, in the order of the database answer and
    with only the similarity rewritten, the chunks found for the embedding of
    the cleaned, non-empty query in a search restricted to the user of the
    session with threshold 0.7, together with their number and the query as
    it was asked. *)
Theorem execute_answer E (sessionUser : option jsstring) (userQuery : jsstring)
    (maxResults : nat) (knowledgeBase : option jsstring) :
  let r := execute round2 E sessionUser userQuery maxResults knowledgeBase in
  match error r with
  | Some _ => results r = [] ∧ count r = None ∧ query r = None
  | None =>
      ∃ uid queryEmbedding found,
        sessionUser = Some uid ∧ 0 < length uid
        ∧ TextCleaning.cleanQueryText userQuery ≠ []
        ∧ Embeddings.generateEmbedding (RetrieveTool.env_key E) (RetrieveTool.fetch E)
            (TextCleaning.cleanQueryText userQuery) = Returned queryEmbedding
        ∧ RetrieveTool.searchSimilarDocuments E
            {| embedding := queryEmbedding; limit := maxResults;
               knowledgeBaseId := knowledgeBase; similarityThreshold := 7 # 10;
               userId := uid |} = Returned found
        ∧ length found = length (results r)
        ∧ (∀ k doc, found !! k = Some doc →
             ∃ shown, results r !! k = Some shown
               ∧ documentId shown = documentId doc
               ∧ documentTitle shown = documentTitle doc
               ∧ content shown = content doc
               ∧ chunkIndex shown = chunkIndex doc
               ∧ similarity shown = round2 (similarity doc))
        ∧ count r = Some (length found)
        ∧ query r = Some userQuery
  end.
Proof.
  cbn zeta. unfold execute.
  destruct sessionUser as [[|c uid]|]; [done| |done].
  unfold search_try. cbn zeta.
  destruct (TextCleaning.cleanQueryText userQuery) as [|q cleaned] eqn:Hclean; [done|].
  cbn [truthy negb orb]. case_bool_decide as Hblank; [done|].
  destruct (Embeddings.generateEmbedding _ _ _) as [queryEmbedding|] eqn:Hembed;
    cbn [mbind outcome_bind]; [|done].
  destruct (RetrieveTool.searchSimilarDocuments E _) as [found|] eqn:Hsearch;
    cbn [mbind outcome_bind]; [|done].
  cbn. exists (c :: uid), queryEmbedding, found.
  split; [done|]. split; [simpl; lia|]. split; [done|]. split; [done|].
  split; [done|]. split; [by rewrite length_fmap|]. split; [|done].
  intros k doc Hdoc. exists (format round2 doc).
  by rewrite list_lookup_fmap, Hdoc.
Qed.

End Tool.

End RetrieveToolFacts.
